(** * kalinka-plugin-qobuz: playback reporter and autoplay engine

    A shallow embedding of [qobuz_reporter.py] and [qobuz_autoplay.py].
    Python objects become records, mutation becomes state passing, raised
    exceptions become the [inl] side of a sum, and everything the code reads
    from outside (clocks, the track-URL cache, provider responses) is an
    explicit environment argument. *)

From Stdlib Require Import ZArith Lia Ascii String Sorted.
From stdpp Require Import base gmap strings list.

Open Scope Z_scope.
Open Scope string_scope.
Open Scope list_scope.

(** ** Python primitives *)

Module Py.

(** Exceptions raised by the modelled code. *)
Inductive exn : Type :=
| Exception (msg : string)   (* raise Exception(msg) *)
| ValueError                 (* int() on a string that is no integer literal *)
| IndexError                 (* del l[i] out of range *)
| RequestError.              (* transport or decoding failure of a web call *)

#[global] Instance exn_eq_dec : EqDecision exn.
Proof. solve_decision. Defined.

(** The characters [int] takes for white space around a literal, a
    character being a code point below 256: tab, LF, VT, FF, CR and the
    blank, and the two other white-space characters of that range, NEL
    (0x85) and the no-break space (0xa0). FS, GS, RS and US (0x1c to 0x1f)
    are white space for [str.isspace] but not for [int]. *)
Definition is_space (c : ascii) : bool :=
  let n := nat_of_ascii c in
  ((9 <=? n)%nat && (n <=? 13)%nat) || (n =? 32)%nat
  || (n =? 133)%nat || (n =? 160)%nat.

Definition is_digit (c : ascii) : bool :=
  let n := nat_of_ascii c in (48 <=? n)%nat && (n <=? 57)%nat.

Definition digit_value (c : ascii) : Z := Z.of_nat (nat_of_ascii c) - 48.

Fixpoint lstrip (l : list ascii) : list ascii :=
  match l with
  | c :: l' => if is_space c then lstrip l' else l
  | [] => []
  end.

Definition strip (l : list ascii) : list ascii :=
  rev (lstrip (rev (lstrip l))).

(** Decimal digits with single underscores between them. [sep] tells that
    the previous character was not a digit, so neither an underscore nor
    the end of the literal may follow. *)
Fixpoint digits (acc : Z) (sep : bool) (l : list ascii) : option Z :=
  match l with
  | [] => if sep then None else Some acc
  | c :: l' =>
      if is_digit c then digits (10 * acc + digit_value c) false l'
      else if bool_decide (c = "_"%char)
           then (if sep then None else digits acc true l')
           else None
  end.

(** The most digits a decimal literal may have, and the most digits of an
    [int] that [str] converts: [sys.get_int_max_str_digits()], which is
    4300 unless it is set otherwise. *)
Definition max_str_digits : nat := 4300.

(** The digits of a literal, sign and white space taken off: more than
    [max_str_digits] of them are refused. *)
Definition literal (l : list ascii) : option Z :=
  if bool_decide
       (max_str_digits < length (filter (fun c => is_digit c = true) l))%nat
  then None
  else digits 0 true l.

(** [int(s)] for a [str] in base ten: surrounding white space, one
    optional sign, digits. [None] stands for [ValueError]. A string is a
    sequence of characters with code points below 256, none of which
    beyond the ASCII range is a decimal digit. *)
Definition int (s : string) : option Z :=
  match strip (list_ascii_of_string s) with
  | c :: l =>
      if bool_decide (c = "-"%char) then Z.opp <$> literal l
      else if bool_decide (c = "+"%char) then literal l
      else literal (c :: l)
  | [] => None
  end.

(** [num / den] rounded to the nearest integer, a tie going to the even
    one; [den] is positive and [num] is not negative. *)
Definition round_half_even (num den : Z) : Z :=
  let q := num `div` den in
  let r := num `mod` den in
  if bool_decide (2 * r < den) then q
  else if bool_decide (den < 2 * r) then q + 1
  else if Z.even q then q
  else q + 1.

(** [int(a / b)] for two [int]s, [b] positive: [a / b] is the double
    nearest to the quotient, a tie going to the even significand, and
    [int] cuts its fraction off. The double is [m * 2 ^ e] with [m] of at
    most 53 bits, [e] being chosen by the leading bit of the quotient and
    not below the exponent of the subnormal numbers. Quotients from
    [2 ^ 1024] on, for which [a / b] raises [OverflowError], are beyond
    what the clocks read here can give. *)
Definition int_truediv (a b : Z) : Z :=
  if bool_decide (a = 0) then 0
  else
    let n := Z.abs a in
    let k := Z.log2 n - Z.log2 b in
    let reached :=
      if bool_decide (0 <= k) then bool_decide (b * 2 ^ k <= n)
      else bool_decide (b <= n * 2 ^ (- k)) in
    let leading_bit := if reached then k else k - 1 in
    let e := Z.max (leading_bit - 52) (-1074) in
    let m :=
      if bool_decide (0 <= e) then round_half_even n (b * 2 ^ e)
      else round_half_even (n * 2 ^ (- e)) b in
    let t :=
      if bool_decide (0 <= e) then m * 2 ^ e else m `div` 2 ^ (- e) in
    Z.sgn a * t.

(** [del l[i]]: a negative index counts from the end; an index outside
    [-len(l), len(l))] raises [IndexError]. *)
Definition del {A} (l : list A) (i : Z) : option (list A) :=
  let n := Z.of_nat (length l) in
  if bool_decide (0 <= i < n) then Some (delete (Z.to_nat i) l)
  else if bool_decide (- n <= i < 0) then Some (delete (Z.to_nat (n + i)) l)
  else None.

End Py.

(** ** Computations that read an environment, mutate an object and may
    raise *)

Module PyM.

Definition M (E S A : Type) : Type := E -> S -> S * (Py.exn + A).

Definition ret {E S A} (a : A) : M E S A := fun _ s => (s, inr a).

Definition raise {E S A} (x : Py.exn) : M E S A := fun _ s => (s, inl x).

Definition bind {E S A B} (m : M E S A) (k : A -> M E S B) : M E S B :=
  fun e s =>
    match m e s with
    | (s', inr a) => k a e s'
    | (s', inl x) => (s', inl x)
    end.

Definition ask {E S} : M E S E := fun e s => (s, inr e).

(** A list comprehension whose element expression may raise. *)
Fixpoint for_each {E S A B} (f : A -> M E S B) (l : list A)
  : M E S (list B) :=
  match l with
  | [] => ret []
  | a :: l' =>
      bind (f a) (fun b => bind (for_each f l') (fun bs => ret (b :: bs)))
  end.

Declare Scope py_scope.
Delimit Scope py_scope with py.
Notation "'let*' x ':=' m 'in' k" := (bind m (fun x => k))
  (at level 10, x name, m at level 100, k at level 200) : py_scope.
Notation "'do' m 'in' k" := (bind m (fun _ => k))
  (at level 10, m at level 100, k at level 200) : py_scope.

End PyM.

(** ** Host SDK data model, as far as the plugin reads it *)

Record EntityId := { id_id : string; id_source : string }.

Record Artist := { artist_id : EntityId }.
Record Genre := { genre_id : EntityId }.
Record Label := { label_id : EntityId }.
Record Album := { genre : option Genre; label : option Label }.

Record Track := {
  track_id : EntityId;
  performer : option Artist;
  album : Album }.

#[global] Instance EntityId_eq_dec : EqDecision EntityId.
Proof. solve_decision. Defined.
#[global] Instance Artist_eq_dec : EqDecision Artist.
Proof. solve_decision. Defined.
#[global] Instance Genre_eq_dec : EqDecision Genre.
Proof. solve_decision. Defined.
#[global] Instance Label_eq_dec : EqDecision Label.
Proof. solve_decision. Defined.
#[global] Instance Album_eq_dec : EqDecision Album.
Proof. solve_decision. Defined.
#[global] Instance Track_eq_dec : EqDecision Track.
Proof. solve_decision. Defined.

(** Modelled from the spec: [PlayerStateEnum] is declared in the host SDK,
    not in this repository. The spec lists the states a notification carries
    as PLAYING, STOPPED, PAUSED and ERROR; the handler compares them with
    the enum member and with the plain strings, so each member is taken to
    be string valued, its value being its name. *)
Inductive PlayerStateEnum := PLAYING | STOPPED | PAUSED | ERROR.

#[global] Instance PlayerStateEnum_eq_dec : EqDecision PlayerStateEnum.
Proof. solve_decision. Defined.

Definition PlayerStateEnum_value (s : PlayerStateEnum) : string :=
  match s with
  | PLAYING => "PLAYING"
  | STOPPED => "STOPPED"
  | PAUSED => "PAUSED"
  | ERROR => "ERROR"
  end.

Record PlayerState := {
  state : PlayerStateEnum;
  current_track : option Track }.

(** [AnyEventPayload]: the payloads the plugin subscribes to. *)
Inductive AnyEventPayload :=
| StateChangedEvent (st : PlayerState)
| TracksAddedEvent (added : list Track)
| TracksRemovedEvent (indices : list Z)
| RequestMoreTracksEvent.

(** ** qobuz_reporter.py *)

Module Reporter.
Import PyM.
Open Scope py_scope.

(** One entry of [qobuz_client.track_url_response_cache]: the JSON answer
    of the track-URL lookup, of which the reporter reads ["format_id"] and
    ["duration"]. The specification gives the entries these two fields. *)
Record TrackUrlResponse := { format_id : Z; duration : Z }.

(** What the reporter reads of the [QobuzClient] it was built with. The
    cache is keyed by [str(track_id)]. *)
Record QobuzClient := {
  user_id : Z;
  credential_id : Z;
  track_url_response_cache : gmap string TrackUrlResponse }.

(** The dictionary built by [_make_start_report_message] and
    [_make_end_report_message]; only the start report has
    [totalTrackDuration]. *)
Record Params := {
  p_user_id : Z;
  p_credential_id : Z;
  p_date : Z;
  p_track_id : Z;
  p_format_id : Z;
  p_duration : Z;
  p_online : bool;
  p_intent : string;
  p_local : bool;
  p_purchase : bool;
  p_sample : bool;
  p_seek : Z;
  p_totalTrackDuration : option Z }.

Record Message := { endpoint : string; params : Params }.

#[global] Instance TrackUrlResponse_eq_dec : EqDecision TrackUrlResponse.
Proof. solve_decision. Defined.
#[global] Instance Params_eq_dec : EqDecision Params.
Proof. solve_decision. Defined.
#[global] Instance Message_eq_dec : EqDecision Message.
Proof. solve_decision. Defined.

(** The fields of [QobuzReporter] that the handlers mutate. [mqueue] holds
    messages, [None] being the value [shutdown] puts. *)
Record QobuzReporter := {
  mqueue : list (option Message);
  last_report_time : Z;
  current_track_id : option string;
  _isRunning : bool }.

(** [QobuzReporter.__init__]. *)
Definition init : QobuzReporter :=
  {| mqueue := []; last_report_time := 0; current_track_id := None;
     _isRunning := true |}.

(** What one call of the handler reads from outside: the client object as
    it is during the call, and the readings the two clocks give, numbered in
    the order the call takes them ([time_time] is [int(time.time())]). *)
Record Env := {
  qobuz_client : QobuzClient;
  monotonic_ns : nat -> Z;
  time_time : nat -> Z }.

(** State threaded through one call: the object and the number of clock
    readings taken so far. *)
Record Run := { self : QobuzReporter; mono_reads : nat; wall_reads : nat }.

Definition M : Type -> Type := PyM.M Env Run.

Definition get_self : M QobuzReporter := fun _ s => (s, inr (self s)).

Definition get_client : M QobuzClient := fun e s => (s, inr (qobuz_client e)).

Definition time_monotonic_ns : M Z :=
  fun e s =>
    ({| self := self s; mono_reads := S (mono_reads s);
        wall_reads := wall_reads s |},
     inr (monotonic_ns e (mono_reads s))).

Definition int_time_time : M Z :=
  fun e s =>
    ({| self := self s; mono_reads := mono_reads s;
        wall_reads := S (wall_reads s) |},
     inr (time_time e (wall_reads s))).

Definition modify (f : QobuzReporter -> QobuzReporter) : M unit :=
  fun _ s =>
    ({| self := f (self s); mono_reads := mono_reads s;
        wall_reads := wall_reads s |}, inr tt).

(** Assignments to one attribute. *)
Definition set_mqueue (q : list (option Message)) (r : QobuzReporter)
  : QobuzReporter :=
  {| mqueue := q; last_report_time := last_report_time r;
     current_track_id := current_track_id r; _isRunning := _isRunning r |}.

Definition with_clock (t : Z) (r : QobuzReporter) : QobuzReporter :=
  {| mqueue := mqueue r; last_report_time := t;
     current_track_id := current_track_id r; _isRunning := _isRunning r |}.

Definition with_current (t : option string) (r : QobuzReporter)
  : QobuzReporter :=
  {| mqueue := mqueue r; last_report_time := last_report_time r;
     current_track_id := t; _isRunning := _isRunning r |}.

Definition with_put (m : Message) (r : QobuzReporter) : QobuzReporter :=
  set_mqueue (mqueue r ++ [Some m]) r.

Definition set_last_report_time (t : Z) : M unit := modify (with_clock t).

Definition set_current_track_id (t : option string) : M unit :=
  modify (with_current t).

(** [self.mqueue.put(m)] *)
Definition mqueue_put (m : Message) : M unit := modify (with_put m).

(** [get_last_duration]. The difference is divided as a float and [int]
    cuts the fraction of the result off. *)
Definition get_last_duration : M Z :=
  let* report_time := time_monotonic_ns in
  let* r := get_self in
  let time_played :=
    Py.int_truediv (report_time - last_report_time r) 1000000000 in
  do set_last_report_time report_time in
  ret time_played.

(** The two exceptions the payload builders raise. *)
Definition not_convertible (tid : string) : Py.exn :=
  Py.Exception ("Track id '" +:+ tid +:+ "' is not convertible to int").

Definition not_in_cache : Py.exn := Py.Exception "Track not found in cache".

(** The conversion both payload builders start with. *)
Definition track_id_to_int (tid : string) : M Z :=
  match Py.int tid with
  | Some n => ret n
  | None => raise (not_convertible tid)
  end.

Definition _make_start_report_message (tid : string) : M Params :=
  let* track_id_int := track_id_to_int tid in
  let* c := get_client in
  match track_url_response_cache c !! tid with
  | None => raise not_in_cache
  | Some track_cache =>
      let* date := int_time_time in
      ret {| p_user_id := user_id c;
             p_credential_id := credential_id c;
             p_date := date;
             p_track_id := track_id_int;
             p_format_id := format_id track_cache;
             p_duration := 0;
             p_online := true;
             p_intent := "streaming";
             p_local := false;
             p_purchase := false;
             p_sample := false;
             p_seek := 0;
             p_totalTrackDuration := Some (duration track_cache) |}
  end.

Definition _make_end_report_message (tid : string) (duration_s : Z)
  : M Params :=
  let* track_id_int := track_id_to_int tid in
  let duration_s := if bool_decide (duration_s < 0) then 0 else duration_s in
  let* c := get_client in
  match track_url_response_cache c !! tid with
  | None => raise not_in_cache
  | Some track_cache =>
      let* date := int_time_time in
      ret {| p_user_id := user_id c;
             p_credential_id := credential_id c;
             p_date := date;
             p_track_id := track_id_int;
             p_format_id := format_id track_cache;
             p_duration := duration_s;
             p_online := true;
             p_intent := "streaming";
             p_local := false;
             p_purchase := false;
             p_sample := false;
             p_seek := 0;
             p_totalTrackDuration := None |}
  end.

(** The statement the handler repeats in four places: the arguments are
    evaluated left to right, so the clock is read (and reset) before the
    payload is built, and nothing is put when building raises.
<<
    self.mqueue.put({"endpoint": "track/reportStreamingEnd",
                     "params": self._make_end_report_message(
                         self.current_track_id, self.get_last_duration())})
>> *)
Definition put_end_report (cur : string) : M unit :=
  let* d := get_last_duration in
  let* p := _make_end_report_message cur d in
  mqueue_put {| endpoint := "track/reportStreamingEnd"; params := p |}.

Definition put_start_report (tid : string) : M unit :=
  let* p := _make_start_report_message tid in
  mqueue_put {| endpoint := "track/reportStreamingStart"; params := p |}.

(** The body both "end and forget" branches share. *)
Definition end_current_track : M unit :=
  let* r := get_self in
  match current_track_id r with
  | Some cur => do put_end_report cur in set_current_track_id None
  | None => ret tt
  end.

Definition on_state_changed (event : AnyEventPayload) : M unit :=
  match event with
  | StateChangedEvent player_state =>
      if bool_decide (state player_state = PLAYING) then
        let track := current_track player_state in
        match track with
        | Some tr =>
            if bool_decide (id_source (track_id tr) = "qobuz") then
              let current_qobuz_track_id := id_id (track_id tr) in
              let* r := get_self in
              if bool_decide
                   (Some current_qobuz_track_id <> current_track_id r)
              then
                do match current_track_id r with
                   | Some cur => put_end_report cur
                   | None => ret tt
                   end in
                do set_current_track_id (Some current_qobuz_track_id) in
                do put_start_report current_qobuz_track_id in
                let* _ := get_last_duration in
                ret tt
              else
                match current_track_id r with
                | Some cur => put_end_report cur
                | None => ret tt
                end
            else end_current_track
        | None => end_current_track
        end
      else if bool_decide
                (PlayerStateEnum_value (state player_state)
                   ∈ ["STOPPED"; "PAUSED"; "ERROR"])
      then end_current_track
      else ret tt
  | _ => ret tt
  end.

(** One delivery of an event to the handler: the object afterwards, and
    whether the call returned or raised. *)
Definition deliver (e : Env) (r : QobuzReporter) (event : AnyEventPayload)
  : QobuzReporter * (Py.exn + unit) :=
  let '(s, out) :=
    on_state_changed event e {| self := r; mono_reads := 0; wall_reads := 0 |}
  in (self s, out).

(** A sequence of deliveries. The object survives a call that raised, in
    the state the call left it in. *)
Fixpoint run (r : QobuzReporter) (trace : list (Env * AnyEventPayload))
  : QobuzReporter :=
  match trace with
  | [] => r
  | (e, event) :: trace' => run (fst (deliver e r event)) trace'
  end.

(** The same, [None] as soon as one call raises. *)
Fixpoint run_ok (r : QobuzReporter) (trace : list (Env * AnyEventPayload))
  : option QobuzReporter :=
  match trace with
  | [] => Some r
  | (e, event) :: trace' =>
      match deliver e r event with
      | (r', inr _) => run_ok r' trace'
      | (_, inl _) => None
      end
  end.

(** *** The sender thread and [shutdown]

    The thread body is cut at the points where the other thread can be
    observed: the loop test, the blocking [get], and the sleep. What the
    provider answers only changes what is logged, so a post is recorded by
    the message posted. *)
Inductive SenderJob := AtLoopTest | AtGet | AtSleep | Finished.

#[global] Instance SenderJob_eq_dec : EqDecision SenderJob.
Proof. solve_decision. Defined.

Record Plugin := {
  reporter : QobuzReporter;
  sender_job : SenderJob;
  posted : list Message }.

(** One step of [_sender_worker]; [None] when the thread cannot move: it is
    blocked in [get] on an empty queue, or it has returned. *)
Definition _sender_worker_step (s : Plugin) : option Plugin :=
  match sender_job s with
  | AtLoopTest =>
      Some {| reporter := reporter s;
              sender_job := if _isRunning (reporter s) then AtGet else Finished;
              posted := posted s |}
  | AtGet =>
      match mqueue (reporter s) with
      | [] => None
      | None :: q =>
          Some {| reporter := set_mqueue q (reporter s);
                  sender_job := Finished;
                  posted := posted s |}
      | Some message :: q =>
          Some {| reporter := set_mqueue q (reporter s);
                  sender_job := AtSleep;
                  posted := posted s ++ [message] |}
      end
  | AtSleep =>
      Some {| reporter := reporter s; sender_job := AtLoopTest;
              posted := posted s |}
  | Finished => None
  end.

(** [self.sender_job.join()]: the caller waits while the thread runs;
    [None] when the thread is not finished within [fuel] steps. *)
Fixpoint join (fuel : nat) (s : Plugin) : option Plugin :=
  match sender_job s with
  | Finished => Some s
  | _ =>
      match fuel with
      | O => None
      | S fuel' =>
          match _sender_worker_step s with
          | Some s' => join fuel' s'
          | None => None
          end
      end
  end.

(** The two assignments [shutdown] makes before it joins. *)
Definition shutdown_begin (r : QobuzReporter) : QobuzReporter :=
  {| mqueue := mqueue r ++ [None]; last_report_time := last_report_time r;
     current_track_id := current_track_id r; _isRunning := false |}.

Definition shutdown (fuel : nat) (s : Plugin) : option Plugin :=
  join fuel {| reporter := shutdown_begin (reporter s);
               sender_job := sender_job s;
               posted := posted s |}.

(** What can happen to the plugin once [shutdown] has returned: an event is
    delivered to the handler, or the thread is given a turn. *)
Inductive Action :=
| Deliver (e : Env) (event : AnyEventPayload)
| SenderTurn.

Definition act (s : Plugin) (a : Action) : Plugin :=
  match a with
  | Deliver e event =>
      {| reporter := fst (deliver e (reporter s) event);
         sender_job := sender_job s;
         posted := posted s |}
  | SenderTurn =>
      match _sender_worker_step s with
      | Some s' => s'
      | None => s
      end
  end.

Definition acts (s : Plugin) (l : list Action) : Plugin := foldl act s l.

(** *** The reports, as the provider sees them *)

Definition StreamingStart (c : QobuzClient) (date n : Z)
  (track_cache : TrackUrlResponse) : Message :=
  {| endpoint := "track/reportStreamingStart";
     params :=
       {| p_user_id := user_id c; p_credential_id := credential_id c;
          p_date := date; p_track_id := n;
          p_format_id := format_id track_cache; p_duration := 0;
          p_online := true; p_intent := "streaming"; p_local := false;
          p_purchase := false; p_sample := false; p_seek := 0;
          p_totalTrackDuration := Some (duration track_cache) |} |}.

Definition StreamingEnd (c : QobuzClient) (date n : Z)
  (track_cache : TrackUrlResponse) (elapsed : Z) : Message :=
  {| endpoint := "track/reportStreamingEnd";
     params :=
       {| p_user_id := user_id c; p_credential_id := credential_id c;
          p_date := date; p_track_id := n;
          p_format_id := format_id track_cache; p_duration := elapsed;
          p_online := true; p_intent := "streaming"; p_local := false;
          p_purchase := false; p_sample := false; p_seek := 0;
          p_totalTrackDuration := None |} |}.

(** Seconds between two readings of the monotonic clock as
    [get_last_duration] computes them, never negative. *)
Definition elapsed (now last : Z) : Z :=
  Z.max 0 (Py.int_truediv (now - last) 1000000000).

(** *** Kinds of state change *)

(** The provider track [tid] is playing. *)
Definition playing_qobuz (event : AnyEventPayload) (tid : string) : Prop :=
  exists tr,
    event = StateChangedEvent {| state := PLAYING; current_track := Some tr |}
    /\ id_source (track_id tr) = "qobuz" /\ id_id (track_id tr) = tid.

(** Nothing of the provider is playing: the player is not playing, or it
    plays no track, or a track of another source. *)
Definition not_playing_qobuz (event : AnyEventPayload) : Prop :=
  exists st, event = StateChangedEvent st /\
    (state st <> PLAYING \/ current_track st = None \/
     exists tr, current_track st = Some tr
                /\ id_source (track_id tr) <> "qobuz").

(** *** Reading the queue *)

Definition enqueued (r : QobuzReporter) : list Message :=
  omap (fun x => x) (mqueue r).

Definition is_start (m : Message) : bool :=
  bool_decide (endpoint m = "track/reportStreamingStart").

Definition is_end (m : Message) : bool :=
  bool_decide (endpoint m = "track/reportStreamingEnd").

Definition is_end_of (n : Z) (m : Message) : bool :=
  is_end m && bool_decide (p_track_id (params m) = n).

(** A start report in the queue that no later end report of the same track
    answers. *)
Fixpoint has_open_start (q : list Message) : bool :=
  match q with
  | [] => false
  | m :: q' =>
      (is_start m && negb (existsb (is_end_of (p_track_id (params m))) q'))
      || has_open_start q'
  end.

(** Every start report that is not the last message is directly followed by
    the end report of the same track. *)
Fixpoint end_before_next (q : list Message) : bool :=
  match q with
  | m :: q' =>
      match q' with
      | m' :: _ =>
          (negb (is_start m) || is_end_of (p_track_id (params m)) m')
          && end_before_next q'
      | [] => true
      end
  | [] => true
  end.

(** *** What one delivery does, case by case *)

Definition run0 (r : QobuzReporter) : Run :=
  {| self := r; mono_reads := 0; wall_reads := 0 |}.

(** The first thing the tracking branches do. *)
Definition put_end_if_tracking (e : Env) (s : Run) : Run * (Py.exn + unit) :=
  match current_track_id (self s) with
  | Some cur => put_end_report cur e s
  | None => (s, inr tt)
  end.

(** Reading the clock and building the end report of [cur], as the first
    action of a delivery. *)
Definition end_report_result (e : Env) (r : QobuzReporter) (cur : string)
  : QobuzReporter * (Py.exn + unit) :=
  let now := monotonic_ns e 0%nat in
  match Py.int cur with
  | None => (with_clock now r, inl (not_convertible cur))
  | Some n =>
      match track_url_response_cache (qobuz_client e) !! cur with
      | None => (with_clock now r, inl not_in_cache)
      | Some tc =>
          (with_put (StreamingEnd (qobuz_client e) (time_time e 0%nat) n tc
                       (elapsed now (last_report_time r)))
             (with_clock now r), inr tt)
      end
  end.

(** Moving to [tid] and building its start report, [k] readings of each
    clock having been taken before. *)
Definition start_report_result (e : Env) (r : QobuzReporter) (tid : string)
  (k : nat) : QobuzReporter * (Py.exn + unit) :=
  let r1 := with_current (Some tid) r in
  match Py.int tid with
  | None => (r1, inl (not_convertible tid))
  | Some n =>
      match track_url_response_cache (qobuz_client e) !! tid with
      | None => (r1, inl not_in_cache)
      | Some tc =>
          (with_clock (monotonic_ns e k)
             (with_put (StreamingStart (qobuz_client e) (time_time e k) n tc)
                r1),
           inr tt)
      end
  end.

(** The ways one delivery can change the queue and the tracked id. *)
Inductive Step (r r' : QobuzReporter) : Py.exn + unit -> Prop :=
| step_skip :
    r' = r ->
    Step r r' (inr tt)
| step_end_raised x :
    mqueue r' = mqueue r -> current_track_id r' = current_track_id r ->
    is_Some (current_track_id r) ->
    Step r r' (inl x)
| step_end t n m :
    current_track_id r = Some t -> Py.int t = Some n ->
    is_end_of n m = true ->
    mqueue r' = mqueue r ++ [Some m] ->
    current_track_id r' = Some t \/ current_track_id r' = None ->
    Step r r' (inr tt)
| step_end_start_raised t n m new x :
    current_track_id r = Some t -> Py.int t = Some n ->
    is_end_of n m = true ->
    mqueue r' = mqueue r ++ [Some m] ->
    current_track_id r' = Some new ->
    Step r r' (inl x)
| step_start_raised new x :
    current_track_id r = None ->
    mqueue r' = mqueue r ->
    current_track_id r' = Some new ->
    Step r r' (inl x)
| step_end_start t n m new n' m' :
    current_track_id r = Some t -> Py.int t = Some n ->
    is_end_of n m = true ->
    Py.int new = Some n' -> is_start m' = true ->
    p_track_id (params m') = n' ->
    mqueue r' = mqueue r ++ [Some m; Some m'] ->
    current_track_id r' = Some new ->
    Step r r' (inr tt)
| step_start new n' m' :
    current_track_id r = None ->
    Py.int new = Some n' -> is_start m' = true ->
    p_track_id (params m') = n' ->
    mqueue r' = mqueue r ++ [Some m'] ->
    current_track_id r' = Some new ->
    Step r r' (inr tt).

(** What every delivery keeps true of the queue and the tracked id: a start
    report is answered at once when anything follows it, and while it is
    the last message its track is the tracked one. *)
Definition queue_inv (r : QobuzReporter) : Prop :=
  end_before_next (enqueued r) = true /\
  forall m, last (enqueued r) = Some m -> is_start m = true ->
    exists t, current_track_id r = Some t /\
              Py.int t = Some (p_track_id (params m)).

(** A tracked id means: the last start report is the one of that track, and
    only end reports of that track follow it. *)
Definition tracked_inv (r : QobuzReporter) : Prop :=
  forall t, current_track_id r = Some t ->
    exists n q m ends,
      Py.int t = Some n /\ enqueued r = q ++ m :: ends /\
      is_start m = true /\ p_track_id (params m) = n /\
      Forall (fun x => is_end_of n x = true) ends.

(** *** The invariant of the data model, as the specification words it *)

Definition tracking_iff_open_start (r : QobuzReporter) : Prop :=
  current_track_id r <> None <-> has_open_start (enqueued r) = true.

(** *** A missing cache entry, as the specification words it: the call
    returns, and the start report due for the same event is still put. *)
Definition continues_after_cache_miss (e : Env) (r : QobuzReporter)
  (event : AnyEventPayload) : Prop :=
  (deliver e r event).2 = inr tt /\
  exists m, is_start m = true /\
            last (enqueued (deliver e r event).1) = Some m.

(** *** Start, end, start, as the specification words it *)

(** Provider track [a] playing and then another provider track [b]
    playing leave three reports in the queue: a start, an end and a
    start. *)
Definition start_end_start (eA eB : Env) (evA evB : AnyEventPayload)
  (a b : string) : Prop :=
  playing_qobuz evA a -> playing_qobuz evB b -> a <> b ->
  exists sA endA sB,
    enqueued (run init [(eA, evA); (eB, evB)]) = [sA; endA; sB]
    /\ is_start sA = true /\ is_end endA = true /\ is_start sB = true.

(** *** Stopped, paused, failed, as the specification words it *)

(** When a track is tracked, the notification puts an end report and no
    track is tracked afterwards. *)
Definition ends_tracking (e : Env) (r : QobuzReporter)
  (st : PlayerStateEnum) : Prop :=
  st = STOPPED \/ st = PAUSED \/ st = ERROR ->
  forall t, current_track_id r = Some t ->
    let r' := (deliver e r (StateChangedEvent
                              {| state := st; current_track := None |})).1 in
    (exists m, mqueue r' = mqueue r ++ [Some m] /\ is_end m = true)
    /\ current_track_id r' = None.

(** *** No message accepted after [shutdown], as the specification words
    it. *)
Definition refuses_after_shutdown (s : Plugin) : Prop :=
  forall s' e event,
    shutdown 3 s = Some s' ->
    mqueue (deliver e (reporter s') event).1 = mqueue (reporter s').

End Reporter.

(** ** qobuz_autoplay.py *)

Module Autoplay.
Import PyM.
Open Scope py_scope.

(** The dictionary [_track_meta_to_autoplay] builds. *)
Record TrackMeta := {
  m_artist_id : option Z;
  m_genre_id : option Z;
  m_label_id : option Z;
  m_track_id : option Z }.

(** The JSON body posted to [dynamic/suggest]. *)
Record SuggestParams := {
  limit : Z;
  listened_tracks_ids : list Z;
  track_to_analysed : list TrackMeta }.

(** A track id as the JSON of the provider has it: [track["id"]] is
    stored as it comes, a number in the answers of the provider, which the
    rest of the repository converts with [str] where it wants a string.
    The annotations of [remaining_tracks] and [suggested_tracks] say [str];
    a string is the other case. A number and a string are never equal. *)
Inductive JsonId :=
| IdInt (n : Z)
| IdStr (s : string).

#[global] Instance JsonId_eq_dec : EqDecision JsonId.
Proof. solve_decision. Defined.

#[global] Instance JsonId_countable : Countable JsonId.
Proof.
  refine (inj_countable'
            (fun x => match x with IdInt n => inl n | IdStr s => inr s end)
            (fun y => match y with inl n => IdInt n | inr s => IdStr s end)
            _).
  by intros [].
Defined.

(** What the code reads of the answer: the ids under
    [["tracks"]["items"]] and [["algorithm"]], which is only logged. *)
Record SuggestResponse := { items : list JsonId; algorithm : string }.

(** What [InputModule.get_track_info] returns for one track. *)
Record TrackInfo := { info_id : EntityId }.

#[global] Instance TrackMeta_eq_dec : EqDecision TrackMeta.
Proof. solve_decision. Defined.
#[global] Instance SuggestParams_eq_dec : EqDecision SuggestParams.
Proof. solve_decision. Defined.
#[global] Instance TrackInfo_eq_dec : EqDecision TrackInfo.
Proof. solve_decision. Defined.

#[global] Instance SuggestResponse_eq_dec : EqDecision SuggestResponse.
Proof. solve_decision. Defined.

(** Calls on the collaborators, in the order they are made, each network
    call with its answer ([None] when it raised). The first two go to the
    network, the third to the host. *)
Inductive Effect :=
| PostSuggest (params : SuggestParams) (answer : option SuggestResponse)
    (* qobuz_client.session.post(base + "dynamic/suggest", json=params) *)
| GetTrackInfo (track_ids : list JsonId) (answer : option (list TrackInfo))
    (* track_browser.get_track_info(track_ids) *)
| PlayQueueAdd (infos : list TrackInfo).
    (* playqueue.add(infos) *)

#[global] Instance Effect_eq_dec : EqDecision Effect.
Proof. solve_decision. Defined.

Record QobuzAutoplay := {
  remaining_tracks : list JsonId;
  suggested_tracks : gset JsonId;
  amount_to_request : Z;
  tracks : list Track;
  can_request_new : bool }.

(** [QobuzAutoplay.__init__] with the default [amount_to_request]. *)
Definition init : QobuzAutoplay :=
  {| remaining_tracks := []; suggested_tracks := ∅; amount_to_request := 50;
     tracks := []; can_request_new := true |}.

(** What the collaborators answer during one call; [None] when the call
    raises. *)
Record Env := {
  post_suggest : SuggestParams -> option SuggestResponse;
  get_track_info : list JsonId -> option (list TrackInfo) }.

Record Run := { self : QobuzAutoplay; effects : list Effect }.

Definition M : Type -> Type := PyM.M Env Run.

Definition get_self : M QobuzAutoplay := fun _ s => (s, inr (self s)).

Definition modify (f : QobuzAutoplay -> QobuzAutoplay) : M unit :=
  fun _ s => ({| self := f (self s); effects := effects s |}, inr tt).

Definition perform (x : Effect) : M unit :=
  fun _ s => ({| self := self s; effects := effects s ++ [x] |}, inr tt).

(** Assignments to one attribute. *)
Definition with_remaining (l : list JsonId) (a : QobuzAutoplay)
  : QobuzAutoplay :=
  {| remaining_tracks := l; suggested_tracks := suggested_tracks a;
     amount_to_request := amount_to_request a; tracks := tracks a;
     can_request_new := can_request_new a |}.

Definition with_suggested (x : gset JsonId) (a : QobuzAutoplay)
  : QobuzAutoplay :=
  {| remaining_tracks := remaining_tracks a; suggested_tracks := x;
     amount_to_request := amount_to_request a; tracks := tracks a;
     can_request_new := can_request_new a |}.

Definition with_tracks (l : list Track) (a : QobuzAutoplay) : QobuzAutoplay :=
  {| remaining_tracks := remaining_tracks a;
     suggested_tracks := suggested_tracks a;
     amount_to_request := amount_to_request a; tracks := l;
     can_request_new := can_request_new a |}.

Definition with_can_request_new (b : bool) (a : QobuzAutoplay)
  : QobuzAutoplay :=
  {| remaining_tracks := remaining_tracks a;
     suggested_tracks := suggested_tracks a;
     amount_to_request := amount_to_request a; tracks := tracks a;
     can_request_new := b |}.

Definition set_remaining_tracks (l : list JsonId) : M unit :=
  modify (with_remaining l).

Definition set_suggested_tracks (x : gset JsonId) : M unit :=
  modify (with_suggested x).

Definition set_tracks (l : list Track) : M unit := modify (with_tracks l).

Definition set_can_request_new (b : bool) : M unit :=
  modify (with_can_request_new b).

(** [int(x.id.id)] *)
Definition int_of_id (x : EntityId) : M Z :=
  match Py.int (id_id x) with
  | Some n => ret n
  | None => raise Py.ValueError
  end.

(** [int(x.id.id) if x else None] *)
Definition int_of_optional {A} (f : A -> EntityId) (x : option A)
  : M (option Z) :=
  match x with
  | Some a => let* n := int_of_id (f a) in ret (Some n)
  | None => ret None
  end.

Definition _track_meta_to_autoplay (track : Track) : M TrackMeta :=
  let* a := int_of_optional artist_id (performer track) in
  let* g := int_of_optional genre_id (genre (album track)) in
  let* l := int_of_optional label_id (label (album track)) in
  let* t := int_of_id (track_id track) in
  ret {| m_artist_id := a; m_genre_id := g; m_label_id := l;
         m_track_id := Some t |}.

Definition is_qobuz (track : Track) : bool :=
  bool_decide (id_source (track_id track) = "qobuz").

Definition add_tracks (event : AnyEventPayload) : M unit :=
  match event with
  | TracksAddedEvent added =>
      let* a := get_self in
      do set_tracks (tracks a ++ added) in
      set_can_request_new true
  | _ => ret tt
  end.

Definition _has_any_qobuz_tracks : M bool :=
  let* a := get_self in ret (existsb is_qobuz (tracks a)).

(** [for track in event.indices: del self.tracks[track]] *)
Fixpoint del_tracks (indices : list Z) : M unit :=
  match indices with
  | [] => ret tt
  | i :: indices' =>
      let* a := get_self in
      match Py.del (tracks a) i with
      | Some l => do set_tracks l in del_tracks indices'
      | None => raise Py.IndexError
      end
  end.

Definition remove_tracks (event : AnyEventPayload) : M unit :=
  match event with
  | TracksRemovedEvent indices =>
      do del_tracks indices in
      let* any := _has_any_qobuz_tracks in
      if negb any then
        do set_can_request_new true in
        do set_suggested_tracks ∅ in
        set_remaining_tracks []
      else ret tt
  | _ => ret tt
  end.

(** The loop over [range(len(tracks) - 1, -1, -1)], as a walk over the
    reversed list: [newest_first] is what is left to visit. The id of a
    mirrored track is a string, and [in] finds it in the set only when the
    set holds that string. *)
Fixpoint scan_newest_first (suggested : gset JsonId)
  (newest_first : list Track) (five_tracks_to_analyse : list Track)
  : list Track :=
  match newest_first with
  | [] => five_tracks_to_analyse
  | track :: older =>
      if bool_decide (length five_tracks_to_analyse = 5%nat)
      then five_tracks_to_analyse
      else if bool_decide (IdStr (id_id (track_id track)) ∉ suggested)
           then scan_newest_first suggested older
                  (five_tracks_to_analyse ++ [track])
           else scan_newest_first suggested older five_tracks_to_analyse
  end.

Definition _retrieve_new_recommendations : M unit :=
  let* a := get_self in
  let qtracks := filter (fun t => is_qobuz t = true) (tracks a) in
  match qtracks with
  | [] => ret tt
  | _ =>
      let five_tracks_to_analyse :=
        scan_newest_first (suggested_tracks a) (reverse qtracks) [] in
      let* tracks_to_analyze :=
        for_each _track_meta_to_autoplay five_tracks_to_analyse in
      let tta_ids := map (fun t => id_id (track_id t)) five_tracks_to_analyse in
      let* listened_tracks :=
        for_each (fun t => int_of_id (track_id t))
          (filter (fun t => id_id (track_id t) ∉ tta_ids) qtracks) in
      let params :=
        {| limit := amount_to_request a;
           listened_tracks_ids := listened_tracks;
           track_to_analysed := tracks_to_analyze |} in
      let* e := ask in
      do perform (PostSuggest params (post_suggest e params)) in
      match post_suggest e params with
      | None => raise Py.RequestError
      | Some req =>
          let track_ids := items req in
          do set_remaining_tracks track_ids in
          set_can_request_new false
      end
  end.

Definition add_recommendation (event : AnyEventPayload) : M unit :=
  match event with
  | RequestMoreTracksEvent =>
      let* a := get_self in
      do match remaining_tracks a with
         | [] =>
             if can_request_new a then _retrieve_new_recommendations
             else ret tt
         | _ => ret tt
         end in
      let* a := get_self in
      match remaining_tracks a with
      | [] => ret tt
      | recommended_track :: rest =>
          do set_remaining_tracks rest in
          do set_suggested_tracks ({[recommended_track]} ∪ suggested_tracks a) in
          let* e := ask in
          do perform (GetTrackInfo [recommended_track]
                        (get_track_info e [recommended_track])) in
          match get_track_info e [recommended_track] with
          | None => raise Py.RequestError
          | Some infos => perform (PlayQueueAdd infos)
          end
      end
  | _ => ret tt
  end.

(** A call of one of the three handlers, with the payload the host passes
    and, for [add_recommendation], what the collaborators would answer. *)
Inductive Call :=
| AddTracks (event : AnyEventPayload)
| RemoveTracks (event : AnyEventPayload)
| AddRecommendation (e : Env) (event : AnyEventPayload).

Definition no_env : Env :=
  {| post_suggest := fun _ => None; get_track_info := fun _ => None |}.

Definition call (s : Run) (c : Call) : Run * (Py.exn + unit) :=
  match c with
  | AddTracks event => add_tracks event no_env s
  | RemoveTracks event => remove_tracks event no_env s
  | AddRecommendation e event => add_recommendation event e s
  end.

Definition start : Run := {| self := init; effects := [] |}.

(** A sequence of calls. The object survives a call that raised, in the
    state the call left it in. *)
Definition run (s : Run) (calls : list Call) : Run :=
  foldl (fun s c => fst (call s c)) s calls.

(** The same, [None] as soon as one call raises. *)
Fixpoint run_ok (s : Run) (calls : list Call) : option Run :=
  match calls with
  | [] => Some s
  | c :: calls' =>
      match call s c with
      | (s', inr _) => run_ok s' calls'
      | (_, inl _) => None
      end
  end.

(** *** Reading the log of calls *)

(** The recommended ids whose track info was handed to [playqueue.add]. *)
Fixpoint pushed (log : list Effect) : list JsonId :=
  match log with
  | GetTrackInfo track_ids _ :: log' =>
      match log' with
      | PlayQueueAdd _ :: _ => track_ids ++ pushed log'
      | _ => pushed log'
      end
  | _ :: log' => pushed log'
  | [] => []
  end.

(** The ids the provider returned, over all batch fetches. *)
Fixpoint returned (log : list Effect) : list JsonId :=
  match log with
  | PostSuggest _ (Some req) :: log' => items req ++ returned log'
  | _ :: log' => returned log'
  | [] => []
  end.

Definition is_push (x : Effect) : bool :=
  match x with
  | PlayQueueAdd _ => true
  | _ => false
  end.

(** *** The handlers, without the monad *)

Definition with_self (a : QobuzAutoplay) (s : Run) : Run :=
  {| self := a; effects := effects s |}.

Definition log (x : list Effect) (s : Run) : Run :=
  {| self := self s; effects := effects s ++ x |}.

Definition raised_or {A} (x : Py.exn) (o : option A) : Py.exn + A :=
  match o with
  | Some a => inr a
  | None => inl x
  end.

(** Deleting at each index in turn, every index read against the list as
    the deletions before it left it; [false] when an index is out of
    range, with the list as it was then. *)
Fixpoint del_seq {A} (l : list A) (indices : list Z) : list A * bool :=
  match indices with
  | [] => (l, true)
  | i :: indices' =>
      match Py.del l i with
      | Some l' => del_seq l' indices'
      | None => (l, false)
      end
  end.

Definition optional_int {A} (f : A -> EntityId) (x : option A)
  : option (option Z) :=
  match x with
  | Some a => Some <$> Py.int (id_id (f a))
  | None => Some None
  end.

(** [_track_meta_to_autoplay]; [None] for [ValueError]. *)
Definition meta_of (track : Track) : option TrackMeta :=
  a ← optional_int artist_id (performer track);
  g ← optional_int genre_id (genre (album track));
  l ← optional_int label_id (label (album track));
  t ← Py.int (id_id (track_id track));
  Some {| m_artist_id := a; m_genre_id := g; m_label_id := l;
          m_track_id := Some t |}.

(** The values [_retrieve_new_recommendations] computes before it posts. *)
Definition qobuz_tracks (a : QobuzAutoplay) : list Track :=
  filter (fun t => is_qobuz t = true) (tracks a).

Definition five_tracks_to_analyse (a : QobuzAutoplay) : list Track :=
  scan_newest_first (suggested_tracks a) (reverse (qobuz_tracks a)) [].

Definition tta_ids (a : QobuzAutoplay) : list string :=
  map (fun t => id_id (track_id t)) (five_tracks_to_analyse a).

Definition listened (a : QobuzAutoplay) : list Track :=
  filter (fun t => id_id (track_id t) ∉ tta_ids a) (qobuz_tracks a).

(** The body of the request, [None] when a conversion raises. *)
Definition suggest_params (a : QobuzAutoplay) : option SuggestParams :=
  metas ← mapM meta_of (five_tracks_to_analyse a);
  ids ← mapM (fun t => Py.int (id_id (track_id t))) (listened a);
  Some {| limit := amount_to_request a; listened_tracks_ids := ids;
          track_to_analysed := metas |}.

(** The second half of [add_recommendation]: pop, record, push. *)
Definition serve (e : Env) (s : Run) : Run * (Py.exn + unit) :=
  match remaining_tracks (self s) with
  | [] => (s, inr tt)
  | recommended_track :: rest =>
      let a :=
        with_suggested ({[recommended_track]} ∪ suggested_tracks (self s))
          (with_remaining rest (self s)) in
      match get_track_info e [recommended_track] with
      | None =>
          (with_self a (log [GetTrackInfo [recommended_track] None] s),
           inl Py.RequestError)
      | Some infos =>
          (with_self a (log [GetTrackInfo [recommended_track] (Some infos);
                             PlayQueueAdd infos] s), inr tt)
      end
  end.

(** Served and still to serve are, together and in order, among what the
    provider returned. *)
Definition served_inv (s : Run) : Prop :=
  (pushed (effects s) ++ remaining_tracks (self s))
    `sublist_of` returned (effects s).


(** *** Removal by position, as the specification words it *)

(** The entries of [l] whose position, counted from [k], is not among
    [indices]. *)
Fixpoint remove_from (k : Z) {A} (l : list A) (indices : list Z) : list A :=
  match l with
  | [] => []
  | x :: l' =>
      if bool_decide (k ∈ indices) then remove_from (k + 1) l' indices
      else x :: remove_from (k + 1) l' indices
  end.

(** The mirror without the entries at the given positions, every position
    being one of the mirror as the event found it. *)
Definition remove_positions {A} (l : list A) (indices : list Z) : list A :=
  remove_from 0 l indices.

Definition removes_emitted_positions (a : QobuzAutoplay) (indices : list Z)
  : Prop :=
  tracks (self (remove_tracks (TracksRemovedEvent indices) no_env
                  {| self := a; effects := [] |}).1)
  = remove_positions (tracks a) indices.

(** *** Served at most once, as the specification words it *)

Definition is_remove_tracks (c : Call) : bool :=
  match c with
  | RemoveTracks _ => true
  | _ => false
  end.

Definition served_at_most_once (calls : list Call) : Prop :=
  forallb (fun c => negb (is_remove_tracks c)) calls = true ->
  NoDup (pushed (effects (run start calls))).

(** *** The batch fetch, as the specification words it *)




(** *** No provider track, as the specification words it *)


End Autoplay.

(** ** Concrete data *)

Module ReporterExamples.
Import Reporter.

Definition cache_1_2 : gmap string TrackUrlResponse :=
  {[ "1" := {| format_id := 27; duration := 200 |};
     "2" := {| format_id := 6; duration := 300 |} ]}.

Definition cache_2 : gmap string TrackUrlResponse :=
  {[ "2" := {| format_id := 6; duration := 300 |} ]}.

(** The world [now] seconds after the clocks' origin. *)
Definition env_at (cache : gmap string TrackUrlResponse) (now : Z) : Env :=
  {| qobuz_client := {| user_id := 10; credential_id := 20;
                        track_url_response_cache := cache |};
     monotonic_ns := fun k => now * 1000000000 + Z.of_nat k;
     time_time := fun _ => 1700000000 + now |}.

Definition qobuz_track (i : string) : Track :=
  {| track_id := {| id_id := i; id_source := "qobuz" |};
     performer := None;
     album := {| genre := None; label := None |} |}.

Definition playing (i : string) : AnyEventPayload :=
  StateChangedEvent
    {| state := PLAYING; current_track := Some (qobuz_track i) |}.

Definition stopped : AnyEventPayload :=
  StateChangedEvent {| state := STOPPED; current_track := None |}.

(** Track 1 starts, and is reported playing once more. *)
Definition same_track_twice : list (Env * AnyEventPayload) :=
  [(env_at cache_1_2 5, playing "1"); (env_at cache_1_2 9, playing "1")].

(** The reporter after track 1 started. *)
Definition tracking_1 : QobuzReporter :=
  run init [(env_at cache_1_2 5, playing "1")].

(** The reporter after a track started whose id is no integer. *)
Definition tracking_abc : QobuzReporter :=
  run init [(env_at cache_1_2 5, playing "abc")].

(** The reporter after track 1 started while the cache does not hold
    it: the start report could not be built, the id is set. *)
Definition tracking_uncached : QobuzReporter :=
  run init [(env_at cache_2 5, playing "1")].

(** A fresh plugin, its thread waiting for a message. *)
Definition fresh_plugin : Plugin :=
  {| reporter := init; sender_job := AtGet; posted := [] |}.

End ReporterExamples.

Module AutoplayExamples.
Import Autoplay.

Definition qobuz_track (i : string) : Track :=
  {| track_id := {| id_id := i; id_source := "qobuz" |};
     performer := None;
     album := {| genre := None; label := None |} |}.


(** Seven provider tracks in the mirror, two of them served before: their
    ids are recorded as the provider sent them. *)
Definition seven_two_suggested : QobuzAutoplay :=
  {| remaining_tracks := [];
     suggested_tracks := {[ IdInt 3; IdInt 6 ]};
     amount_to_request := 50;
     tracks := qobuz_track <$> ["1"; "2"; "3"; "4"; "5"; "6"; "7"];
     can_request_new := true |}.

(** A provider that always recommends track 100, and a browser that has
    it. *)
Definition always_100 : Env :=
  {| post_suggest :=
       fun _ => Some {| items := [IdInt 100]; algorithm := "similar" |};
     get_track_info :=
       fun ids =>
         Some ((fun _ =>
                  {| info_id := {| id_id := "100"; id_source := "qobuz" |} |})
                 <$> ids) |}.

(** Two tracks are queued one after the other, more tracks being asked for
    after each; nothing is ever removed. *)
Definition recommended_twice : list Call :=
  [ AddTracks (TracksAddedEvent [qobuz_track "1"]);
    AddRecommendation always_100 RequestMoreTracksEvent;
    AddTracks (TracksAddedEvent [qobuz_track "2"]);
    AddRecommendation always_100 RequestMoreTracksEvent ].

Definition three_tracks : QobuzAutoplay :=
  {| remaining_tracks := [IdInt 100];
     suggested_tracks := {[ IdInt 99 ]};
     amount_to_request := 50;
     tracks := qobuz_track <$> ["1"; "2"; "3"];
     can_request_new := false |}.







End AutoplayExamples.


(** ** More to read off the reporter *)

Module ReporterMore.
Import Reporter.

(** The fields both payload builders fill with constants. *)
Definition fixed_flags (p : Params) : Prop :=
  p_online p = true /\ p_intent p = "streaming" /\ p_local p = false /\
  p_purchase p = false /\ p_sample p = false /\ p_seek p = 0.

(** A report as one of the two builders makes it: a start report has
    listened for no time and tells the length of the track, an end report
    has listened for some time and does not. *)
Definition well_formed (m : Message) : Prop :=
  fixed_flags (params m) /\
  ((endpoint m = "track/reportStreamingStart" /\
    p_duration (params m) = 0 /\
    is_Some (p_totalTrackDuration (params m)))
   \/ (endpoint m = "track/reportStreamingEnd" /\
       0 <= p_duration (params m) /\
       p_totalTrackDuration (params m) = None)).

(** What one delivery can append to the queue. *)
Inductive appended : list Message -> Prop :=
| appended_nothing : appended []
| appended_end m : is_end m = true -> appended [m]
| appended_start m : is_start m = true -> appended [m]
| appended_end_start m m' :
    is_end m = true -> is_start m' = true -> appended [m; m'].

(** The end report of [cur] cannot be built in [e]. *)
Definition cannot_end (e : Env) (cur : string) : Prop :=
  Py.int cur = None \/
  track_url_response_cache (qobuz_client e) !! cur = None.

(** Everything posted and everything still queued, in order. *)
Definition all_messages (s : Plugin) : list Message :=
  posted s ++ enqueued (reporter s).

Definition is_sender_turn (a : Action) : bool :=
  match a with
  | SenderTurn => true
  | Deliver _ _ => false
  end.

(** A track of another source is playing. *)
Definition playing_local : AnyEventPayload :=
  StateChangedEvent
    {| state := PLAYING;
       current_track :=
         Some {| track_id := {| id_id := "7"; id_source := "local" |};
                 performer := None;
                 album := {| genre := None; label := None |} |} |}.

Definition paused : AnyEventPayload :=
  StateChangedEvent {| state := PAUSED; current_track := None |}.

(** The thread at its loop test, with the two reports of a track played
    twice and the sentinel in the queue. *)
Definition two_queued : Plugin :=
  {| reporter :=
       set_mqueue
         (mqueue (run init ReporterExamples.same_track_twice) ++ [None])
         (run init ReporterExamples.same_track_twice);
     sender_job := AtLoopTest;
     posted := [] |}.

(** The seconds of listening the reports tell: the sum of their
    durations, which is 0 in a start report. *)
Definition reported_seconds (q : list Message) : Z :=
  foldr (fun m acc => p_duration (params m) + acc) 0 q.

(** The monotonic clock does not run backwards: from [t0] on, the two
    readings each delivery may take are in order, those of a delivery not
    before those of the one before it, and none is after [t1]. *)
Fixpoint clock_within (t0 : Z) (trace : list (Env * AnyEventPayload))
  (t1 : Z) : Prop :=
  match trace with
  | [] => t0 <= t1
  | (e, _) :: trace' =>
      exists t,
        t0 <= monotonic_ns e 0 /\ monotonic_ns e 0 <= monotonic_ns e 1
        /\ monotonic_ns e 1 <= t /\ clock_within t trace' t1
  end.

(** [2 ^ 24] seconds, in nanoseconds: of a shorter time the float
    quotient of [get_last_duration] has the whole seconds right. *)
Definition exact_span : Z := 16777216 * 1000000000.

(** From [r] to [r'] the clock was read, not after [hi], and the reports
    added tell no more seconds than lie between the two readings. *)
Definition within_elapsed (r r' : QobuzReporter) (hi : Z) : Prop :=
  last_report_time r <= last_report_time r' /\ last_report_time r' <= hi
  /\ 1000000000 * (reported_seconds (enqueued r')
                    - reported_seconds (enqueued r))
     <= last_report_time r' - last_report_time r.

(** Track 1 plays from second 5, is sought in at second 9 and stops at
    second 20. *)
Definition played_15_seconds : list (Env * AnyEventPayload) :=
  [(ReporterExamples.env_at ReporterExamples.cache_1_2 9,
    ReporterExamples.playing "1");
   (ReporterExamples.env_at ReporterExamples.cache_1_2 20,
    ReporterExamples.stopped)].

End ReporterMore.

(** ** More to read off the autoplay engine *)

Module AutoplayMore.
Import Autoplay.

(** The batch fetches the provider answered. *)
Definition is_answered (x : Effect) : bool :=
  match x with
  | PostSuggest _ (Some _) => true
  | _ => false
  end.

Definition answered (log : list Effect) : nat :=
  length (filter (fun x => is_answered x = true) log).

(** The calls that change what is queued: [add_tracks] and
    [remove_tracks]. *)
Definition is_queue_change (c : Call) : bool :=
  match c with
  | AddTracks _ | RemoveTracks _ => true
  | AddRecommendation _ _ => false
  end.

Definition queue_changes (calls : list Call) : nat :=
  length (filter (fun c => is_queue_change c = true) calls).

(** More tracks are asked for, once for each of the given answers of the
    collaborators. *)
Definition ask_more (es : list Env) : list Call :=
  (fun e => AddRecommendation e RequestMoreTracksEvent) <$> es.

(** The browser knows every track. *)
Definition knows_all (e : Env) : Prop :=
  forall x, is_Some (get_track_info e [x]).

(** Everything recorded or waiting was returned by the provider. *)
Definition from_provider (s : Run) : Prop :=
  forall x, x ∈ suggested_tracks (self s) \/ x ∈ remaining_tracks (self s) ->
            x ∈ returned (effects s).

(** At most one answered batch fetch for each change of the queue, and the
    one the initial state allows. *)
Definition throttled (changes : nat) (s : Run) : Prop :=
  (answered (effects s) + (if can_request_new (self s) then 1 else 0)
   <= changes + 1)%nat.

(** A provider that does not answer. *)
Definition no_answer : Env :=
  {| post_suggest := fun _ => None;
     get_track_info := fun _ => None |}.

(** Two recommendations are waiting. *)
Definition two_waiting : Run :=
  {| self := {| remaining_tracks := [IdInt 100; IdInt 200];
                suggested_tracks := ∅;
                amount_to_request := 50;
                tracks := [AutoplayExamples.qobuz_track "1"];
                can_request_new := false |};
     effects := [] |}.

(** Three tracks of the provider and an index list whose second index is
    out of range once the first deletion is done. *)
Definition three_qobuz : Run :=
  {| self := {| remaining_tracks := [IdInt 100];
                suggested_tracks := {[ IdInt 9 ]};
                amount_to_request := 50;
                tracks := [AutoplayExamples.qobuz_track "1";
                           AutoplayExamples.qobuz_track "2";
                           AutoplayExamples.qobuz_track "3"];
                can_request_new := false |};
     effects := [] |}.

End AutoplayMore.
(** ** qobuz.py: RetryTransport *)

Module Transport.

(** The exceptions [super().handle_request] raises, as far as the loop
    tells them apart: the classes its [except] clause lists, an instance of
    a subclass counting as its class, and any other exception. *)
Inductive Exc :=
| ProtocolError
| ConnectError
| ReadTimeout
| WriteTimeout
| ConnectTimeout
| ProxyError
| ReadError
| OtherError (name : string).

(** The [except] clause of the loop. *)
Definition caught (exc : Exc) : bool :=
  match exc with
  | OtherError _ => false
  | _ => true
  end.

(** A response, of which the loop reads the status code. *)
Record Response := { status_code : Z; text : string }.

Inductive Outcome :=
| Returns (response : Response)
| Raises (exc : Exc).

(** What [handle_request] raises. *)
Inductive Error :=
| Httpx (exc : Exc)
| RuntimeError (msg : string).

#[global] Instance Exc_eq_dec : EqDecision Exc.
Proof. solve_decision. Defined.
#[global] Instance Response_eq_dec : EqDecision Response.
Proof. solve_decision. Defined.
#[global] Instance Outcome_eq_dec : EqDecision Outcome.
Proof. solve_decision. Defined.
#[global] Instance Error_eq_dec : EqDecision Error.
Proof. solve_decision. Defined.

(** [self.read_retries]; [self.backoff_factor] is the 0.5 [__init__]
    sets. *)
Record RetryTransport := { read_retries : Z }.

(** What one call does outside: the attempts handed to the transport
    below, each with its outcome, and the sleeps, in the order they happen.
    [time.sleep(self.backoff_factor * read_retries)] sleeps [read_retries]
    half seconds. *)
Inductive Effect :=
| Attempt (o : Outcome)
| Sleep (half_seconds : Z).

#[global] Instance Effect_eq_dec : EqDecision Effect.
Proof. solve_decision. Defined.

(** State threaded through one call: how many times the transport below
    was called, and the log. *)
Record Run := { attempts : nat; effects : list Effect }.

Definition fresh : Run := {| attempts := 0; effects := [] |}.

Definition attempted (o : Outcome) (s : Run) : Run :=
  {| attempts := S (attempts s); effects := effects s ++ [Attempt o] |}.

Definition slept (k : Z) (s : Run) : Run :=
  {| attempts := attempts s; effects := effects s ++ [Sleep k] |}.

Definition is_server_error (response : Response) : bool :=
  bool_decide (500 <= status_code response)
  && bool_decide (status_code response < 600).

(** The [while] loop of [handle_request], with its two local variables.
    [super_handle_request k] is what the [k]-th call of
    [super().handle_request(request)] does. Every turn that goes round
    again adds one to [read_retries], so [fuel] turns are enough when
    [fuel] is [self.read_retries - read_retries]; [None] is out of fuel. *)
Fixpoint retry_loop (fuel : nat) (self : RetryTransport)
  (super_handle_request : nat -> Outcome)
  (read_retries : Z) (last_exception : option Exc) (s : Run)
  : Run * option (Error + Response) :=
  if bool_decide (read_retries < Transport.read_retries self) then
    match fuel with
    | O => (s, None)
    | S fuel' =>
        let o := super_handle_request (attempts s) in
        let s := attempted o s in
        match o with
        | Returns response =>
            if is_server_error response then
              let read_retries := read_retries + 1 in
              retry_loop fuel' self super_handle_request read_retries
                last_exception (slept read_retries s)
            else (s, Some (inr response))
        | Raises exc =>
            if caught exc then
              let last_exception := Some exc in
              let read_retries := read_retries + 1 in
              retry_loop fuel' self super_handle_request read_retries
                last_exception (slept read_retries s)
            else (s, Some (inl (Httpx exc)))
        end
    end
  else
    match last_exception with
    | Some exc => (s, Some (inl (Httpx exc)))
    | None =>
        (s, Some (inl (RuntimeError
                         "handle_request failed without exception")))
    end.

Definition handle_request (self : RetryTransport)
  (super_handle_request : nat -> Outcome)
  : Run * option (Error + Response) :=
  retry_loop (Z.to_nat (read_retries self)) self super_handle_request 0 None
    fresh.

(** *** Reading an answer of the transport below *)

(** The outcomes that make the loop go round again. *)
Definition retried (o : Outcome) : bool :=
  match o with
  | Returns response => is_server_error response
  | Raises exc => caught exc
  end.

(** What the caller gets of an outcome that is not retried. *)
Definition result_of (o : Outcome) : Error + Response :=
  match o with
  | Returns response => inr response
  | Raises exc => inl (Httpx exc)
  end.

(** What is raised after the loop. *)
Definition exhausted (last_exception : option Exc) : Error :=
  match last_exception with
  | Some exc => Httpx exc
  | None => RuntimeError "handle_request failed without exception"
  end.

(** The exception of the last outcome that raised. *)
Fixpoint last_raised (l : list Outcome) (last_exception : option Exc)
  : option Exc :=
  match l with
  | [] => last_exception
  | Raises exc :: l' => last_raised l' (Some exc)
  | Returns _ :: l' => last_raised l' last_exception
  end.

(** What is logged for attempts that are all retried, the first being the
    one after [k] retries. *)
Fixpoint retries_log (k : Z) (l : list Outcome) : list Effect :=
  match l with
  | [] => []
  | o :: l' => Attempt o :: Sleep (k + 1) :: retries_log (k + 1) l'
  end.

Definition total_sleep (log : list Effect) : Z :=
  foldr (fun x acc => match x with Sleep k => k + acc | _ => acc end) 0 log.

(** The transport as [QobuzClient.__init__] builds it. *)
Definition client_transport : RetryTransport := {| read_retries := 3 |}.

Definition unavailable : Response :=
  {| status_code := 503; text := "Service Unavailable" |}.

Definition ok : Response := {| status_code := 200; text := "{}" |}.

(** The transport below times out once and then answers 503. *)
Definition timeout_then_503 (k : nat) : Outcome :=
  match k with
  | O => Raises ReadTimeout
  | _ => Returns unavailable
  end.

(** It answers 503 twice and then 200. *)
Definition recovers (k : nat) : Outcome :=
  match k with
  | O | 1%nat => Returns unavailable
  | _ => Returns ok
  end.

End Transport.

(** ** Python [str] of an [int] *)

Module PyStr.

Definition digit_char (d : Z) : ascii := ascii_of_nat (48 + Z.to_nat d).

(** The decimal digits of [n], which is not negative, put in front of
    [acc]; a number has no more decimal digits than binary ones, which
    bounds the recursion. *)
Fixpoint digits_of (fuel : nat) (n : Z) (acc : list ascii) : list ascii :=
  match fuel with
  | O => acc
  | S fuel' =>
      let acc := digit_char (n mod 10) :: acc in
      if bool_decide (n < 10) then acc else digits_of fuel' (n / 10) acc
  end.

Definition decimal (n : Z) : list ascii :=
  digits_of (S (Z.to_nat (Z.log2 n))) n [].

(** The digits of [str(n)], when it has no more of them than the limit.
    [str] of an [int] of more digits raises [ValueError], and so does its
    formatting. *)
Definition str (n : Z) : string :=
  if bool_decide (n < 0)
  then String "-" (string_of_list_ascii (decimal (- n)))
  else string_of_list_ascii (decimal n).

(** [n] has no more digits than [str] converts. *)
Definition within_limit (n : Z) : bool :=
  bool_decide (length (decimal (Z.abs n)) <= Py.max_str_digits)%nat.

(** The number a sequence of digits stands for, read after [acc]. *)
Definition value (acc : Z) (l : list ascii) : Z :=
  foldl (fun a c => 10 * a + Py.digit_value c) acc l.

End PyStr.

(** ** qobuz.py: the track-URL lookup, the secrets and the track browser *)

Module Qobuz.

(** What the modelled functions raise. *)
Inductive error :=
| InvalidQuality           (* raise InvalidQuality(...) *)
| InvalidAppSecretError    (* raise InvalidAppSecretError(...) *)
| ConnectionError          (* the builtin, raised or let through *)
| HTTPStatusError          (* r.raise_for_status() *)
| JSONDecodeError          (* r.json() on a body that is no JSON *)
| ValueError               (* int() on a string that is no integer,
                              str() of an int of too many digits *)
| MetadataError            (* metadata_from_track raised *)
| OtherError (name : string).  (* whatever else the session raises *)

#[global] Instance error_eq_dec : EqDecision error.
Proof. solve_decision. Defined.

(** The JSON answer of [track/getFileUrl]: what the reporter reads of it,
    and what [qobuz_link_retriever] reads. *)
Record FileUrl := {
  for_report : Reporter.TrackUrlResponse;
  url : string;
  mime_type : string }.

#[global] Instance FileUrl_eq_dec : EqDecision FileUrl.
Proof. solve_decision. Defined.

(** A response of the session: the status code, whether
    [raise_for_status] raises on it, and the decoded body, [None] when the
    body is no JSON. *)
Record Response (J : Type) := {
  status_code : Z;
  raises_for_status : bool;
  json : option J }.
Arguments status_code {J}.
Arguments raises_for_status {J}.
Arguments json {J}.

Inductive Outcome (J : Type) :=
| Got (r : Response J)
| RaisedConnectionError       (* the builtin [ConnectionError] *)
| Raised (name : string).     (* any other exception *)
Arguments Got {J}.
Arguments RaisedConnectionError {J}.
Arguments Raised {J}.

(** The query of [track/getFileUrl]. [request_ts] and [request_sig] are
    the time of the call and the MD5 digest of format id, track id, time
    and secret; the record holds the secret that was signed with, [None]
    when [self.sec] is [None] and no secret was passed. *)
Record FileUrlRequest := {
  rq_track_id : Z;
  rq_format_id : Z;
  rq_secret : option string }.

#[global] Instance FileUrlRequest_eq_dec : EqDecision FileUrlRequest.
Proof. solve_decision. Defined.

(** One element of [["tracks"]["items"]] in the answer of
    [track/getList]; [j_id] is its ["id"], the rest stays as it is. *)
Record JTrack := { j_id : Z; j_rest : string }.

#[global] Instance JTrack_eq_dec : EqDecision JTrack.
Proof. solve_decision. Defined.

(** The requests made, in order. *)
Inductive Request :=
| GetFileUrl (rq : FileUrlRequest)    (* session.get(base + "track/getFileUrl") *)
| PostGetList (tracks_id : list Z).   (* session.post(base + "track/getList") *)

#[global] Instance Request_eq_dec : EqDecision Request.
Proof. solve_decision. Defined.

(** The fields of [QobuzClient] the modelled methods read and write, and
    the two the reporter reads. *)
Record QobuzClient := {
  secrets : list string;
  sec : option string;
  user_id : Z;
  credential_id : Z;
  track_url_response_cache : gmap string FileUrl }.

Definition with_sec (x : option string) (c : QobuzClient) : QobuzClient :=
  {| secrets := secrets c; sec := x; user_id := user_id c;
     credential_id := credential_id c;
     track_url_response_cache := track_url_response_cache c |}.

Definition with_cache (m : gmap string FileUrl) (c : QobuzClient)
  : QobuzClient :=
  {| secrets := secrets c; sec := sec c; user_id := user_id c;
     credential_id := credential_id c; track_url_response_cache := m |}.

(** The client as the reporter sees it. *)
Definition reporter_client (c : QobuzClient) : Reporter.QobuzClient :=
  {| Reporter.user_id := user_id c;
     Reporter.credential_id := credential_id c;
     Reporter.track_url_response_cache :=
       for_report <$> track_url_response_cache c |}.

(** What the provider and the host answer. The first argument of the two
    session calls is the number of requests made before. *)
Record Env := {
  session_get : nat -> FileUrlRequest -> Outcome FileUrl;
  session_post : nat -> list Z -> Outcome (list JTrack);
  metadata_from_track : JTrack -> option Track }.

(** State threaded through the calls: the client and the requests made. *)
Record Run := { self : QobuzClient; requests : list Request }.

Definition M (A : Type) : Type := Env -> Run -> Run * (error + A).

Definition ret {A} (a : A) : M A := fun _ s => (s, inr a).

Definition raise {A} (x : error) : M A := fun _ s => (s, inl x).

Definition bind {A B} (m : M A) (k : A -> M B) : M B :=
  fun e s =>
    match m e s with
    | (s', inr a) => k a e s'
    | (s', inl x) => (s', inl x)
    end.

Declare Scope qobuz_scope.
Delimit Scope qobuz_scope with qobuz.
Notation "'let*' x ':=' m 'in' k" := (bind m (fun x => k))
  (at level 10, x name, m at level 100, k at level 200) : qobuz_scope.
Notation "'do' m 'in' k" := (bind m (fun _ => k))
  (at level 10, m at level 100, k at level 200) : qobuz_scope.
Open Scope qobuz_scope.

Definition get_self : M QobuzClient := fun _ s => (s, inr (self s)).

Definition modify (f : QobuzClient -> QobuzClient) : M unit :=
  fun _ s => ({| self := f (self s); requests := requests s |}, inr tt).

(** [self.session.get(self.base + "track/getFileUrl", params=params)] *)
Definition get_file_url (rq : FileUrlRequest) : M (Outcome FileUrl) :=
  fun e s =>
    ({| self := self s; requests := requests s ++ [GetFileUrl rq] |},
     inr (session_get e (length (requests s)) rq)).

(** [self.session.post(self.base + "track/getList", json=params)] *)
Definition post_get_list (track_ids : list Z) : M (Outcome (list JTrack)) :=
  fun e s =>
    ({| self := self s; requests := requests s ++ [PostGetList track_ids] |},
     inr (session_post e (length (requests s)) track_ids)).

(** [r.json()] *)
Definition r_json {J} (r : Response J) : M J :=
  match json r with
  | Some j => ret j
  | None => raise JSONDecodeError
  end.

(** [r.raise_for_status()] *)
Definition raise_for_status {J} (r : Response J) : M unit :=
  if raises_for_status r then raise HTTPStatusError else ret tt.

(** The tuple [(5, 6, 7, 27)] of the quality check. *)
Definition qualities : list Z := [5; 6; 7; 27].

(** The loop [for _ in range(3)] of [get_track_url]: a response ends it, a
    [ConnectionError] is logged and the request made again, any other
    exception goes through. [None] is [r] still being [None]. *)
Fixpoint try_get (range : nat) (rq : FileUrlRequest)
  : M (option (Response FileUrl)) :=
  match range with
  | O => ret None
  | S range' =>
      let* o := get_file_url rq in
      match o with
      | Got r => ret (Some r)
      | RaisedConnectionError => try_get range' rq
      | Raised name => raise (OtherError name)
      end
  end.

(** The [params] of [get_track_url]: the secret signed with is
    [self.sec if sec is None else sec]. *)
Definition file_url_request (c : QobuzClient) (track_id fmt_id : Z)
  (sec : option string) : FileUrlRequest :=
  {| rq_track_id := track_id; rq_format_id := fmt_id;
     rq_secret := match sec with
                  | None => Qobuz.sec c
                  | Some x => Some x
                  end |}.

(** [QobuzClient.get_track_url]; [fmt_id] is an [int] at every call, so
    [int(fmt_id)] is [fmt_id]. Formatting [track_id] into the string that
    is signed raises [ValueError] when it has too many digits. *)
Definition get_track_url (track_id : Z) (fmt_id : Z)
  (sec : option string) : M FileUrl :=
  if bool_decide (fmt_id ∉ qualities) then raise InvalidQuality
  else if negb (PyStr.within_limit track_id) then raise ValueError
  else
    let* c := get_self in
    let params := file_url_request c track_id fmt_id sec in
    let* r := try_get 3 params in
    match r with
    | None => raise ConnectionError
    | Some r =>
        if bool_decide (status_code r = 400) then
          do r_json r in raise InvalidAppSecretError
        else
          do raise_for_status r in
          let* j := r_json r in
          do modify (fun c =>
               with_cache (<[PyStr.str track_id := j]>
                             (track_url_response_cache c)) c) in
          r_json r
    end.

(** [QobuzClient.test_secret] *)
Definition test_secret (sec : string) : M bool :=
  fun e s =>
    match get_track_url 5966783 5 (Some sec) e s with
    | (s', inr _) => (s', inr true)
    | (s', inl InvalidAppSecretError) => (s', inr false)
    | (s', inl x) => (s', inl x)
    end.

(** The loop of [cfg_setup]. *)
Fixpoint try_secrets (l : list string) : M unit :=
  match l with
  | [] => ret tt
  | secret :: l' =>
      if bool_decide (secret = "") then try_secrets l'
      else
        let* ok := test_secret secret in
        if ok then modify (with_sec (Some secret))
        else try_secrets l'
  end.

(** [QobuzClient.cfg_setup] *)
Definition cfg_setup : M unit :=
  let* c := get_self in
  do try_secrets (secrets c) in
  let* c := get_self in
  match sec c with
  | None => raise InvalidAppSecretError
  | Some _ => ret tt
  end.

(** [QobuzClient.get_tracks_meta] *)
Definition get_tracks_meta (track_ids : list Z) : M (list JTrack) :=
  let* o := post_get_list track_ids in
  match o with
  | Got r =>
      if bool_decide (status_code r = 400) then
        do r_json r in raise InvalidAppSecretError
      else
        do raise_for_status r in
        r_json r
  | RaisedConnectionError => raise ConnectionError
  | Raised name => raise (OtherError name)
  end.

(** *** config_model.py and the track browser *)

Inductive QobuzAudioFormat := MP3 | CD | HIRES_96 | HIRES_192.

#[global] Instance QobuzAudioFormat_eq_dec : EqDecision QobuzAudioFormat.
Proof. solve_decision. Defined.

(** [list(QobuzAudioFormat)], in the order of the definition. *)
Definition QobuzAudioFormat_members : list QobuzAudioFormat :=
  [MP3; CD; HIRES_96; HIRES_192].

Definition QobuzAudioFormat_value (f : QobuzAudioFormat) : string :=
  match f with
  | MP3 => "MP3 320kbps"
  | CD => "CD 16-bit 44.1KHz"
  | HIRES_96 => "Hi-Res 24-bit 96KHz"
  | HIRES_192 => "Hi-Res 24-bit 192KHz"
  end.

(** [list.index]: the position of the first equal element. *)
Fixpoint index {A} `{EqDecision A} (x : A) (l : list A) : option nat :=
  match l with
  | [] => None
  | y :: l' => if decide (y = x) then Some O else S <$> index x l'
  end.

(** What [QobuzInputModule.__init__] computes:
    [(5, 6, 7, 27)[list(QobuzAudioFormat).index(format)]]. *)
Definition format_id_of (format : QobuzAudioFormat) : option Z :=
  i ← index format QobuzAudioFormat_members; qualities !! i.

Record QobuzInputModule := { format_id : Z }.

(** A [TrackInfo] as [_track_to_track_info] builds it: the link retriever
    is [partial(qobuz_link_retriever, client, track["id"], format_id)], of
    which the two last arguments are kept. *)
Record TrackInfo := {
  ti_id : EntityId;
  link_track_id : Z;
  link_format_id : Z;
  metadata : Track }.

(** [track_id(id)], named apart from the field of [Track]. *)
Definition mk_track_id (id : string) : EntityId :=
  {| id_id := id; id_source := "qobuz" |}.

(** [qobuz_link_retriever]: the [TrackUrl] is made of ["url"] and
    ["mime_type"]. *)
Definition qobuz_link_retriever (id : Z) (format_id : Z)
  : M (string * string) :=
  let* track := get_track_url id format_id None in
  ret (url track, mime_type track).

(** Calling [link_retriever()] of a track info. *)
Definition link_retriever (info : TrackInfo) : M (string * string) :=
  qobuz_link_retriever (link_track_id info) (link_format_id info).

(** [QobuzInputModule._track_to_track_info]. [metadata_from_track] builds
    models of the host SDK out of the rest of the JSON; what it gives, or
    that it raises, is taken from the environment. *)
Definition _track_to_track_info (m : QobuzInputModule) (track : JTrack)
  : M TrackInfo :=
  fun e s =>
    if negb (PyStr.within_limit (j_id track)) then (s, inl ValueError)
    else
      match metadata_from_track e track with
      | Some md =>
          (s, inr {| ti_id := mk_track_id (PyStr.str (j_id track));
                     link_track_id := j_id track;
                     link_format_id := format_id m;
                     metadata := md |})
      | None => (s, inl MetadataError)
      end.

(** A list comprehension whose element expression may raise. *)
Fixpoint for_each {A B} (f : A -> M B) (l : list A) : M (list B) :=
  match l with
  | [] => ret []
  | a :: l' =>
      let* b := f a in
      let* bs := for_each f l' in
      ret (b :: bs)
  end.

(** [int(_)] on an id. *)
Definition int_of (x : string) : M Z :=
  match Py.int x with
  | Some n => ret n
  | None => raise ValueError
  end.

(** [track_ids[i : i + chunk_size]] for each [i] of
    [range(0, len(track_ids), chunk_size)]: [fuel] bounds the number of
    chunks. *)
Fixpoint chunks {A} (fuel : nat) (chunk_size : nat) (l : list A)
  : list (list A) :=
  match fuel with
  | O => []
  | S fuel' =>
      match l with
      | [] => []
      | _ => take chunk_size l :: chunks fuel' chunk_size (drop chunk_size l)
      end
  end.

(** The loop over the chunks, [all_tracks] being what was gathered so
    far. *)
Fixpoint gather (cs : list (list string)) (all_tracks : list JTrack)
  : M (list JTrack) :=
  match cs with
  | [] => ret all_tracks
  | chunk :: cs' =>
      let* ids := for_each int_of chunk in
      let* tracks := get_tracks_meta ids in
      gather cs' (all_tracks ++ tracks)
  end.

(** [QobuzInputModule.get_track_info] *)
Definition get_track_info (m : QobuzInputModule) (track_ids : list string)
  : M (list TrackInfo) :=
  if bool_decide (length track_ids = 0%nat) then ret []
  else
    let chunk_size := 49%nat in
    let* all_tracks :=
      gather (chunks (length track_ids) chunk_size track_ids) [] in
    for_each (_track_to_track_info m) all_tracks.

(** *** Reading the answers of the provider *)

(** The request [test_secret] makes for a secret. *)
Definition probe (secret : string) : FileUrlRequest :=
  {| rq_track_id := 5966783; rq_format_id := 5; rq_secret := Some secret |}.

(** The provider answers the probe of [secret] with [r], whenever it is
    asked. *)
Definition answers (e : Env) (secret : string) (r : Response FileUrl)
  : Prop :=
  forall k, session_get e k (probe secret) = Got r.

(** It answers with status 400 and a JSON body. *)
Definition rejected (e : Env) (secret : string) : Prop :=
  exists r, answers e secret r /\ status_code r = 400 /\ is_Some (json r).

(** It answers with the JSON body [j] and a status that is neither 400
    nor one [raise_for_status] raises on. *)
Definition accepted (e : Env) (secret : string) (j : FileUrl) : Prop :=
  exists r, answers e secret r /\ status_code r <> 400 /\
            raises_for_status r = false /\ json r = Some j.

(** The requests that probe a secret of [l] that is not empty. *)
Definition probes_of (l : list string) (new : list Request) : Prop :=
  Forall (fun rq => exists secret,
            rq = GetFileUrl (probe secret) /\ secret ∈ l /\ secret <> "")
         new.

(** The provider answers every [track/getList] request for [ids] with
    the tracks [answer ids]. *)
Definition serves (e : Env) (answer : list Z -> list JTrack) : Prop :=
  forall k ids, exists r,
    session_post e k ids = Got r /\ status_code r <> 400 /\
    raises_for_status r = false /\ json r = Some (answer ids).

(** [info] is the track info of the JSON track [t]. *)
Definition info_of (e : Env) (m : QobuzInputModule) (t : JTrack)
  (info : TrackInfo) : Prop :=
  ti_id info = mk_track_id (PyStr.str (j_id t))
  /\ link_track_id info = j_id t
  /\ link_format_id info = format_id m
  /\ metadata_from_track e t = Some (metadata info).

(** The track [t] cannot be made a track info of, [x] being raised. *)
Definition no_info (e : Env) (t : JTrack) (x : error) : Prop :=
  (x = ValueError /\ PyStr.within_limit (j_id t) = false)
  \/ (x = MetadataError /\ metadata_from_track e t = None).

(** *** Concrete data *)

Definition flac_url : FileUrl :=
  {| for_report := {| Reporter.format_id := 27; Reporter.duration := 215 |};
     url := "https://streaming.example/file";
     mime_type := "audio/flac" |}.

Definition ok_response : Response FileUrl :=
  {| status_code := 200; raises_for_status := false;
     json := Some flac_url |}.

Definition bad_secret_response : Response FileUrl :=
  {| status_code := 400; raises_for_status := true;
     json := Some flac_url |}.

(** A provider that takes the secret ["s3"] and no other. *)
Definition takes_s3 : Env :=
  {| session_get := fun _ rq =>
       if bool_decide (rq_secret rq = Some "s3") then Got ok_response
       else Got bad_secret_response;
     session_post := fun _ ids =>
       Got {| status_code := 200; raises_for_status := false;
              json := Some ((fun i => {| j_id := i; j_rest := "" |})
                              <$> ids) |};
     metadata_from_track := fun t =>
       Some (AutoplayExamples.qobuz_track (PyStr.str (j_id t))) |}.

(** A client after [auth], with three secrets to try. *)
Definition logged_in : Run :=
  {| self := {| secrets := ["s1"; ""; "s3"; "s4"];
                sec := None;
                user_id := 11;
                credential_id := 22;
                track_url_response_cache := ∅ |};
     requests := [] |}.

(** The browser set to the CD quality, a track of the provider as the
    JSON has it, and the state change telling that it plays. *)
Definition cd_module : QobuzInputModule := {| format_id := 6 |}.

Definition track_123 : JTrack := {| j_id := 123; j_rest := "" |}.

Definition info_123 : TrackInfo :=
  {| ti_id := mk_track_id "123";
     link_track_id := 123;
     link_format_id := 6;
     metadata := AutoplayExamples.qobuz_track "123" |}.

Definition set_up : Run :=
  {| self := with_sec (Some "s3") (self logged_in); requests := [] |}.

(** The reporter's environment once the link of track 123 was
    retrieved. *)
Definition reporting_123 : Reporter.Env :=
  {| Reporter.qobuz_client :=
       reporter_client (self (link_retriever info_123 takes_s3 set_up).1);
     Reporter.monotonic_ns := fun _ => 5000000000;
     Reporter.time_time := fun _ => 1700000000 |}.

(** What [takes_s3] answers to [track/getList]. *)
Definition echo (ids : list Z) : list JTrack :=
  (fun i => {| j_id := i; j_rest := "" |}) <$> ids.

(** Fifty ids, the last of which is no integer. *)
Definition fifty_last_bad : list string :=
  replicate 49 "7" ++ ["x"].

End Qobuz.

(** * The playback reporter *)

Module ReporterProofs.
Import Reporter ReporterExamples.

(** ** The handler, case by case *)

Lemma clamp_elapsed d : (if bool_decide (d < 0) then 0 else d) = Z.max 0 d.
Proof. case_bool_decide; lia. Qed.

Lemma put_end_report_eq cur e s :
  put_end_report cur e s =
  let now := monotonic_ns e (mono_reads s) in
  let r1 := with_clock now (self s) in
  let s1 := {| self := r1; mono_reads := S (mono_reads s);
               wall_reads := wall_reads s |} in
  match Py.int cur with
  | None => (s1, inl (not_convertible cur))
  | Some n =>
      match track_url_response_cache (qobuz_client e) !! cur with
      | None => (s1, inl not_in_cache)
      | Some tc =>
          ({| self :=
                with_put
                  (StreamingEnd (qobuz_client e) (time_time e (wall_reads s))
                     n tc (elapsed now (last_report_time (self s)))) r1;
              mono_reads := S (mono_reads s);
              wall_reads := S (wall_reads s) |}, inr tt)
      end
  end.
Proof.
  unfold put_end_report, get_last_duration, _make_end_report_message,
    track_id_to_int, elapsed, mqueue_put, set_last_report_time, modify,
    int_time_time, time_monotonic_ns, get_client, get_self,
    PyM.bind, PyM.ret, PyM.raise.
  cbn. destruct (Py.int cur); cbn; [|done].
  destruct (_ !! cur); cbn; [|done].
  rewrite clamp_elapsed. reflexivity.
Qed.

Lemma put_start_report_eq tid e s :
  put_start_report tid e s =
  match Py.int tid with
  | None => (s, inl (not_convertible tid))
  | Some n =>
      match track_url_response_cache (qobuz_client e) !! tid with
      | None => (s, inl not_in_cache)
      | Some tc =>
          ({| self :=
                with_put
                  (StreamingStart (qobuz_client e)
                     (time_time e (wall_reads s)) n tc) (self s);
              mono_reads := mono_reads s;
              wall_reads := S (wall_reads s) |}, inr tt)
      end
  end.
Proof.
  unfold put_start_report, _make_start_report_message, track_id_to_int,
    mqueue_put, modify, int_time_time, get_client, PyM.bind, PyM.ret,
    PyM.raise.
  destruct (Py.int tid); cbn; [|done].
  destruct (_ !! tid); cbn; done.
Qed.

Lemma stopped_like st :
  st <> PLAYING ->
  bool_decide (PlayerStateEnum_value st ∈ ["STOPPED"; "PAUSED"; "ERROR"])
  = true.
Proof. destruct st; intros H; try done; vm_compute; reflexivity. Qed.

Lemma on_state_changed_not_playing st tr :
  st <> PLAYING ->
  on_state_changed (StateChangedEvent {| state := st; current_track := tr |})
  = end_current_track.
Proof.
  intros H. unfold on_state_changed. cbn [state current_track].
  rewrite bool_decide_eq_false_2 by done.
  rewrite stopped_like by done. reflexivity.
Qed.

Lemma on_state_changed_not_playing_qobuz event :
  not_playing_qobuz event -> on_state_changed event = end_current_track.
Proof.
  intros ([st tr] & -> & H). cbn in H.
  destruct (decide (st = PLAYING)) as [->|Hst].
  2: by apply on_state_changed_not_playing.
  unfold on_state_changed. cbn [state current_track].
  rewrite bool_decide_eq_true_2 by done.
  destruct H as [H|[->|(tr' & -> & H)]]; [done|done|].
  by rewrite (bool_decide_eq_false_2 _ H).
Qed.

Lemma end_current_track_eq e s :
  end_current_track e s =
  match current_track_id (self s) with
  | None => (s, inr tt)
  | Some cur =>
      match put_end_report cur e s with
      | (s', inr _) =>
          ({| self := with_current None (self s');
              mono_reads := mono_reads s';
              wall_reads := wall_reads s' |}, inr tt)
      | (s', inl x) => (s', inl x)
      end
  end.
Proof.
  unfold end_current_track, set_current_track_id, modify, get_self,
    PyM.bind, PyM.ret.
  destruct (current_track_id (self s)); [|done].
  destruct (put_end_report _ e s) as [s' [x|[]]]; done.
Qed.

Lemma on_state_changed_playing_qobuz tr e s :
  id_source (track_id tr) = "qobuz" ->
  on_state_changed
    (StateChangedEvent {| state := PLAYING; current_track := Some tr |}) e s =
  let tid := id_id (track_id tr) in
  if bool_decide (Some tid <> current_track_id (self s)) then
    match put_end_if_tracking e s with
    | (s1, inl x) => (s1, inl x)
    | (s1, inr _) =>
        let s2 := {| self := with_current (Some tid) (self s1);
                     mono_reads := mono_reads s1;
                     wall_reads := wall_reads s1 |} in
        match put_start_report tid e s2 with
        | (s3, inl x) => (s3, inl x)
        | (s3, inr _) =>
            ({| self := with_clock (monotonic_ns e (mono_reads s3)) (self s3);
                mono_reads := S (mono_reads s3);
                wall_reads := wall_reads s3 |}, inr tt)
        end
    end
  else put_end_if_tracking e s.
Proof.
  intros Hq. unfold on_state_changed. cbn [state current_track].
  rewrite bool_decide_eq_true_2 by done.
  rewrite (bool_decide_eq_true_2 _ Hq).
  unfold put_end_if_tracking, get_self, set_current_track_id, modify,
    get_last_duration, set_last_report_time, modify, time_monotonic_ns,
    get_self, PyM.bind, PyM.ret.
  cbn [fst snd self mono_reads wall_reads].
  case_bool_decide; [|by destruct (current_track_id (self s))].
  destruct (current_track_id (self s)) as [cur|].
  - destruct (put_end_report cur e s) as [s1 [x|[]]]; [done|].
    cbn [self mono_reads wall_reads].
    by destruct (put_start_report _ e _) as [s3 [x|[]]].
  - by destruct (put_start_report _ e _) as [s3 [x|[]]].
Qed.

Lemma deliver_eq e r event :
  deliver e r event =
  (self (on_state_changed event e (run0 r)).1,
   (on_state_changed event e (run0 r)).2).
Proof. unfold deliver, run0. by destruct (on_state_changed _ _ _). Qed.

Lemma state_changed_cases st :
  not_playing_qobuz (StateChangedEvent st) \/
  exists tid, playing_qobuz (StateChangedEvent st) tid.
Proof.
  destruct st as [s tr].
  destruct (decide (s = PLAYING)) as [->|Hs].
  2: { left. eexists. split; [done|]. by left. }
  destruct tr as [tr|].
  2: { left. eexists. split; [done|]. right. by left. }
  destruct (decide (id_source (track_id tr) = "qobuz")) as [Hq|Hq].
  - right. exists (id_id (track_id tr)), tr. done.
  - left. eexists. split; [done|]. right. right. eauto.
Qed.

(** Nothing of the provider is playing: the tracked track, if any, ends. *)
Lemma deliver_not_playing_qobuz e r event :
  not_playing_qobuz event ->
  deliver e r event =
  match current_track_id r with
  | None => (r, inr tt)
  | Some cur =>
      match end_report_result e r cur with
      | (r', inr _) => (with_current None r', inr tt)
      | (r', inl x) => (r', inl x)
      end
  end.
Proof.
  intros H. rewrite deliver_eq, on_state_changed_not_playing_qobuz by done.
  rewrite end_current_track_eq. unfold run0. cbn [self].
  destruct (current_track_id r) as [cur|]; [|done].
  rewrite put_end_report_eq. unfold end_report_result. cbn.
  destruct (Py.int cur); [|done].
  by destruct (_ !! cur).
Qed.

(** The tracked track is reported playing again. *)
Lemma deliver_playing_same e r event tid :
  playing_qobuz event tid -> current_track_id r = Some tid ->
  deliver e r event = end_report_result e r tid.
Proof.
  intros (tr & -> & Hq & <-) Hc.
  rewrite deliver_eq, on_state_changed_playing_qobuz by done. cbn zeta.
  unfold run0, put_end_if_tracking. cbn [self]. rewrite Hc.
  rewrite bool_decide_eq_false_2 by (intros H; by apply H).
  rewrite put_end_report_eq. unfold end_report_result. cbn.
  destruct (Py.int _); [|done].
  by destruct (_ !! _).
Qed.

(** Another provider track than the tracked one is playing. *)
Lemma deliver_playing_new e r event tid :
  playing_qobuz event tid -> current_track_id r <> Some tid ->
  deliver e r event =
  match current_track_id r with
  | None => start_report_result e r tid 0
  | Some cur =>
      match end_report_result e r cur with
      | (r', inr _) => start_report_result e r' tid 1
      | (r', inl x) => (r', inl x)
      end
  end.
Proof.
  intros (tr & -> & Hq & <-) Hc.
  rewrite deliver_eq, on_state_changed_playing_qobuz by done. cbn zeta.
  unfold run0, put_end_if_tracking. cbn [self].
  rewrite bool_decide_eq_true_2 by congruence.
  destruct (current_track_id r) as [cur|].
  - rewrite put_end_report_eq. unfold end_report_result. cbn.
    destruct (Py.int cur); [|done].
    destruct (_ !! cur); [|done].
    rewrite put_start_report_eq. unfold start_report_result. cbn.
    destruct (Py.int _); [|done].
    by destruct (_ !! _).
  - rewrite put_start_report_eq. unfold start_report_result. cbn.
    destruct (Py.int _); [|done].
    by destruct (_ !! _).
Qed.

(** While a track is tracked, every state change builds its end report
    first; when that raises, nothing else happens. *)
Lemma deliver_end_raises e r st cur x :
  current_track_id r = Some cur ->
  end_report_result e r cur = (with_clock (monotonic_ns e 0%nat) r, inl x) ->
  deliver e r (StateChangedEvent st) =
    (with_clock (monotonic_ns e 0%nat) r, inl x).
Proof.
  intros Hc Hr.
  destruct (state_changed_cases st) as [H|[tid H]].
  - rewrite deliver_not_playing_qobuz, Hc, Hr; done.
  - destruct (decide (cur = tid)) as [->|Hne].
    + rewrite (deliver_playing_same e r _ tid); done.
    + rewrite (deliver_playing_new e r _ tid), Hc, Hr; [done..|congruence].
Qed.

Lemma playing_is_playing_qobuz i : playing_qobuz (playing i) i.
Proof. by exists (qobuz_track i). Qed.

(** ** The shape of a delivery *)

Lemma is_end_of_StreamingEnd c date n tc d :
  is_end_of n (StreamingEnd c date n tc d) = true.
Proof. unfold is_end_of, is_end. cbn. rewrite !bool_decide_eq_true_2; done. Qed.

Lemma is_start_StreamingStart c date n tc :
  is_start (StreamingStart c date n tc) = true.
Proof. unfold is_start. cbn. rewrite !bool_decide_eq_true_2; done. Qed.

Lemma start_not_end m : is_start m = true -> is_end m = false.
Proof.
  unfold is_start, is_end. intros H%bool_decide_eq_true.
  rewrite H. reflexivity.
Qed.

#[local] Hint Resolve is_end_of_StreamingEnd is_start_StreamingStart : core.

Lemma end_report_result_step e r cur x :
  current_track_id r = Some cur ->
  (end_report_result e r cur).2 = inl x ->
  Step r (end_report_result e r cur).1 (inl x).
Proof.
  intros Hc. unfold end_report_result.
  destruct (Py.int cur); [destruct (_ !! cur)|]; cbn; [done|..];
    intros [= <-]; apply step_end_raised; cbn; rewrite ?Hc; eauto.
Qed.

Lemma deliver_step e r event :
  Step r (deliver e r event).1 (deliver e r event).2.
Proof.
  destruct event as [st| | |];
    try (rewrite deliver_eq; by apply step_skip).
  destruct (state_changed_cases st) as [H|[tid H]].
  - rewrite deliver_not_playing_qobuz by done.
    destruct (current_track_id r) as [cur|] eqn:Hc; [|by apply step_skip].
    pose proof (end_report_result_step e r cur) as Hraise.
    unfold end_report_result in *.
    destruct (Py.int cur) eqn:Hi; [destruct (_ !! cur) eqn:Hl|]; cbn in *;
      eauto.
    eapply step_end; cbn; eauto.
  - destruct (decide (current_track_id r = Some tid)) as [Hc|Hc].
    + rewrite (deliver_playing_same e r _ tid) by done.
      pose proof (end_report_result_step e r tid) as Hraise.
      unfold end_report_result in *.
      destruct (Py.int tid) eqn:Hi; [destruct (_ !! tid) eqn:Hl|]; cbn in *;
        eauto.
      eapply step_end; cbn; eauto.
    + rewrite (deliver_playing_new e r _ tid) by done.
      destruct (current_track_id r) as [cur|] eqn:Hcur.
      * pose proof (end_report_result_step e r cur) as Hraise.
        unfold end_report_result, start_report_result in *.
        destruct (Py.int cur) eqn:Hi; [destruct (_ !! cur) eqn:Hl|];
          cbn in *; eauto.
        destruct (Py.int tid) eqn:Hi'; [destruct (_ !! tid) eqn:Hl'|]; cbn.
        -- eapply step_end_start; cbn; eauto. by rewrite <- app_assoc.
        -- eapply step_end_start_raised; cbn; eauto.
        -- eapply step_end_start_raised; cbn; eauto.
      * unfold start_report_result.
        destruct (Py.int tid) eqn:Hi'; [destruct (_ !! tid) eqn:Hl'|]; cbn.
        -- eapply step_start; cbn; eauto.
        -- by eapply step_start_raised.
        -- by eapply step_start_raised.
Qed.

(** ** What the queue always looks like *)

Lemma enqueued_mqueue r r' q :
  mqueue r' = mqueue r ++ q ->
  enqueued r' = enqueued r ++ omap (fun x => x) q.
Proof. unfold enqueued. intros ->. apply omap_app. Qed.

Ltac enq :=
  match goal with
  | H : mqueue _ = mqueue _ ++ _ |- _ =>
      apply enqueued_mqueue in H; cbn in H
  end.

Lemma end_before_next_cons a b q :
  end_before_next (a :: b :: q) =
  (negb (is_start a) || is_end_of (p_track_id (params a)) b)
  && end_before_next (b :: q).
Proof. reflexivity. Qed.

Lemma end_before_next_snoc q m :
  end_before_next q = true ->
  (forall m0, last q = Some m0 -> is_start m0 = true ->
     is_end_of (p_track_id (params m0)) m = true) ->
  end_before_next (q ++ [m]) = true.
Proof.
  induction q as [|a q IH]; [done|].
  intros H Hl. destruct q as [|b q].
  - cbn in *. rewrite andb_true_r.
    destruct (is_start a) eqn:Ha; [|done]. cbn. by apply Hl.
  - change ((a :: b :: q) ++ [m]) with (a :: b :: (q ++ [m])).
    rewrite end_before_next_cons in *.
    apply andb_true_iff in H as [H1 H2]. rewrite H1. cbn [andb].
    apply IH; [done|]. intros m0 Hm0. apply Hl. by rewrite last_cons_cons.
Qed.

(** With every answered start report answered at once, an unanswered one
    can only be the last message. *)
Lemma open_start_is_last q :
  end_before_next q = true -> has_open_start q = true ->
  exists m, last q = Some m /\ is_start m = true.
Proof.
  induction q as [|a q IH]; [done|].
  intros H Ho. destruct q as [|b q].
  - cbn in Ho. rewrite orb_false_r, andb_true_r in Ho. eauto.
  - rewrite end_before_next_cons in H.
    apply andb_true_iff in H as [H1 H2].
    rewrite last_cons_cons.
    change (has_open_start (a :: b :: q)) with
      ((is_start a
        && negb (existsb (is_end_of (p_track_id (params a))) (b :: q)))
       || has_open_start (b :: q)) in Ho.
    apply orb_true_iff in Ho as [Ho|Ho]; [|by apply IH].
    apply andb_true_iff in Ho as [Ha Hb]. rewrite Ha in H1. cbn in H1.
    cbn in Hb. rewrite H1 in Hb. done.
Qed.

Lemma queue_inv_init : queue_inv init.
Proof. split; [done|]. intros m H. done. Qed.

Lemma queue_inv_put_end r r' t n m :
  queue_inv r -> current_track_id r = Some t -> Py.int t = Some n ->
  is_end_of n m = true -> enqueued r' = enqueued r ++ [m] ->
  queue_inv r'.
Proof.
  intros [I1 I2] Hc Hi He Hq. unfold queue_inv. rewrite Hq. split.
  - apply end_before_next_snoc; [done|]. intros m0 Hm0 Hs.
    destruct (I2 m0 Hm0 Hs) as (t' & Ht' & Hn). congruence.
  - rewrite last_snoc. intros ? [= <-] Hs.
    apply andb_true_iff in He as [He _]. apply start_not_end in Hs.
    congruence.
Qed.

Lemma queue_inv_put_start r r' new m :
  end_before_next (enqueued r) = true ->
  (forall m0, last (enqueued r) = Some m0 -> is_start m0 = false) ->
  is_start m = true -> Py.int new = Some (p_track_id (params m)) ->
  enqueued r' = enqueued r ++ [m] -> current_track_id r' = Some new ->
  queue_inv r'.
Proof.
  intros I1 I2 Hs Hi Hq Hc. unfold queue_inv. rewrite Hq. split.
  - apply end_before_next_snoc; [done|]. intros m0 Hm0 Hs0.
    rewrite (I2 m0 Hm0) in Hs0. done.
  - rewrite last_snoc. intros ? [= <-] _. eauto.
Qed.

Lemma queue_inv_step r r' out : Step r r' out -> queue_inv r -> queue_inv r'.
Proof.
  intros HS I.
  inversion HS as [Heq|x Hq Hc Hs|t n m Hc Hi He Hq Hc'
                   |t n m new x Hc Hi He Hq Hc'|new x Hc Hq Hc'
                   |t n m new n' m' Hc Hi He Hi' Hs Hp Hq Hc'
                   |new n' m' Hc Hi' Hs Hp Hq Hc']; subst; clear HS.
  - done.
  - destruct I as [I1 I2]. unfold queue_inv, enqueued in *.
    rewrite Hq, Hc. done.
  - enq. by eapply (queue_inv_put_end r r' t n m).
  - enq. by eapply (queue_inv_put_end r r' t n m).
  - destruct I as [I1 I2]. unfold queue_inv, enqueued in *. rewrite Hq.
    split; [done|].
    intros m Hm Hs. destruct (I2 m Hm Hs) as (t' & Ht' & _). congruence.
  - enq. change [m; m'] with ([m] ++ [m']) in Hq. rewrite app_assoc in Hq.
    pose (r1 := with_put m r).
    assert (E1 : enqueued r1 = enqueued r ++ [m]).
    { unfold r1, enqueued. cbn. by rewrite omap_app. }
    assert (I1 : queue_inv r1).
    { by apply (queue_inv_put_end r r1 t n m). }
    apply (queue_inv_put_start r1 r' new m'); try done.
    + apply I1.
    + rewrite E1, last_snoc. intros ? [= <-].
      apply andb_true_iff in He as [He _].
      destruct (is_start m) eqn:Hm; [|done].
      apply start_not_end in Hm. congruence.
    + by rewrite E1.
  - enq. destruct I as [I1 I2].
    apply (queue_inv_put_start r r' new m'); try done.
    intros m0 Hm0. destruct (is_start m0) eqn:Hs0; [|done].
    destruct (I2 m0 Hm0 Hs0) as (t' & Ht' & _). congruence.
Qed.

Lemma queue_inv_run trace : forall r, queue_inv r -> queue_inv (run r trace).
Proof.
  induction trace as [|[e ev] trace IH]; intros r Hr; [done|].
  cbn. apply IH. eapply queue_inv_step; [apply deliver_step|done].
Qed.

Lemma tracked_inv_init : tracked_inv init.
Proof. intros t H. done. Qed.

Lemma tracked_inv_step r r' :
  Step r r' (inr tt) -> tracked_inv r -> tracked_inv r'.
Proof.
  intros HS I.
  inversion HS as [Heq| |t n m Hc Hi He Hq Hc'| |
                   |t n m new n' m' Hc Hi He Hi' Hs Hp Hq Hc'
                   |new n' m' Hc Hi' Hs Hp Hq Hc']; subst; clear HS.
  - done.
  - enq. intros t' Ht'.
    destruct Hc' as [Hc'|Hc']; [|congruence].
    assert (t' = t) as -> by congruence.
    destruct (I t Hc) as (n' & q & m0 & ends & Hn & Hq' & Hs & Hp & Hf).
    assert (n' = n) as -> by congruence.
    exists n, q, m0, (ends ++ [m]). rewrite Hq, Hq', <- app_assoc.
    repeat split; try done. apply Forall_app; split; [done|]. by constructor.
  - enq. intros t' Ht'.
    assert (t' = new) as -> by congruence.
    exists (p_track_id (params m')), (enqueued r ++ [m]), m', [].
    rewrite Hq, <- app_assoc. repeat split; done.
  - enq. intros t' Ht'.
    assert (t' = new) as -> by congruence.
    exists (p_track_id (params m')), (enqueued r), m', [].
    rewrite Hq. repeat split; done.
Qed.

Lemma tracked_inv_run_ok trace : forall r r',
  tracked_inv r -> run_ok r trace = Some r' -> tracked_inv r'.
Proof.
  induction trace as [|[e ev] trace IH]; intros r r' Hr H; cbn in H.
  - by injection H as <-.
  - pose proof (deliver_step e r ev) as HS.
    destruct (deliver e r ev) as [r1 [x|[]]]; [done|].
    eapply IH; [|done]. eapply tracked_inv_step; done.
Qed.

(** ** The claims about the reporter *)

(** C1, as amended. After any sequence of deliveries, whether the calls
    returned or raised: a start report that no later end report of its track
    answers is the last message of the queue, and [current_track_id] is set,
    to the id of that track. As long as every call returned, a set
    [current_track_id] means that the last start report is the one of that
    track and that only end reports of that track follow it: none, or one
    for each time the same track was reported playing again. *)
Theorem C1_open_start_is_tracked trace :
  (has_open_start (enqueued (run init trace)) = true ->
   exists t m, current_track_id (run init trace) = Some t /\
     last (enqueued (run init trace)) = Some m /\ is_start m = true /\
     Py.int t = Some (p_track_id (params m)))
  /\ (forall r t, run_ok init trace = Some r -> current_track_id r = Some t ->
      exists n q m ends,
        Py.int t = Some n /\ enqueued r = q ++ m :: ends /\
        is_start m = true /\ p_track_id (params m) = n /\
        Forall (fun x => is_end_of n x = true) ends).
Proof.
  split.
  - intros Ho. destruct (queue_inv_run trace init queue_inv_init) as [I1 I2].
    destruct (open_start_is_last _ I1 Ho) as (m & Hm & Hs).
    destruct (I2 m Hm Hs) as (t & Ht & Hn). eauto 10.
  - intros r t Hr.
    by apply (tracked_inv_run_ok trace init r tracked_inv_init).
Qed.

Lemma C1_open_start_is_tracked_witness :
  has_open_start (enqueued (run init [(env_at cache_1_2 5, playing "1")]))
  = true
  /\ exists t m,
       current_track_id (run init [(env_at cache_1_2 5, playing "1")])
       = Some t /\
       last (enqueued (run init [(env_at cache_1_2 5, playing "1")]))
       = Some m /\ is_start m = true /\
       Py.int t = Some (p_track_id (params m)).
Proof.
  split; [vm_compute; reflexivity|].
  apply (proj1 (C1_open_start_is_tracked
                  [(env_at cache_1_2 5, playing "1")])).
  vm_compute; reflexivity.
Defined.

(** C1, as stated, fails where the tracked track is reported playing again:
    its end report is put, and [current_track_id] stays set. *)
Lemma C1_counterexample :
  ~ tracking_iff_open_start (run init same_track_twice).
Proof.
  intros [H _].
  assert (Hc : current_track_id (run init same_track_twice) <> None)
    by (vm_compute; discriminate).
  specialize (H Hc). vm_compute in H. discriminate.
Qed.

(** C2, as amended. When the cache lacks the track whose payload is being
    built, the builder raises and the exception leaves [on_state_changed];
    nothing is put for that report, and nothing is done after it. For an end
    report the clock has been reset by then, and [current_track_id] keeps
    the track. For a start report [current_track_id] has been set to the
    new track by then, the end report of the track before is in the queue
    if there was one, and the clock is not reset again. *)
Theorem C2_cache_miss_raises e r :
  (forall st cur n,
     current_track_id r = Some cur -> Py.int cur = Some n ->
     track_url_response_cache (qobuz_client e) !! cur = None ->
     deliver e r (StateChangedEvent st) =
       (with_clock (monotonic_ns e 0%nat) r, inl not_in_cache))
  /\ (forall event tid n,
        playing_qobuz event tid -> current_track_id r = None ->
        Py.int tid = Some n ->
        track_url_response_cache (qobuz_client e) !! tid = None ->
        deliver e r event = (with_current (Some tid) r, inl not_in_cache))
  /\ (forall event tid n cur nc tc,
        playing_qobuz event tid -> current_track_id r = Some cur ->
        cur <> tid -> Py.int cur = Some nc ->
        track_url_response_cache (qobuz_client e) !! cur = Some tc ->
        Py.int tid = Some n ->
        track_url_response_cache (qobuz_client e) !! tid = None ->
        deliver e r event =
          (with_current (Some tid)
             (with_put
                (StreamingEnd (qobuz_client e) (time_time e 0%nat) nc tc
                   (elapsed (monotonic_ns e 0%nat) (last_report_time r)))
                (with_clock (monotonic_ns e 0%nat) r)),
           inl not_in_cache)).
Proof.
  repeat split.
  - intros st cur n Hc Hi Hl. apply (deliver_end_raises e r st cur); [done|].
    unfold end_report_result. by rewrite Hi, Hl.
  - intros ev tid n Hp Hc Hi Hl.
    rewrite (deliver_playing_new e r ev tid), Hc by congruence.
    unfold start_report_result. by rewrite Hi, Hl.
  - intros ev tid n cur nc tc Hp Hc Hne Hi Hl Hi' Hl'.
    rewrite (deliver_playing_new e r ev tid), Hc by congruence.
    unfold end_report_result. rewrite Hi, Hl.
    unfold start_report_result. by rewrite Hi', Hl'.
Qed.

Lemma C2_cache_miss_raises_witness :
  (current_track_id tracking_1 = Some "1" /\ Py.int "1" = Some 1 /\
   track_url_response_cache (qobuz_client (env_at cache_2 9)) !! "1" = None)
  /\ deliver (env_at cache_2 9) tracking_1
       (StateChangedEvent {| state := STOPPED; current_track := None |})
     = (with_clock (monotonic_ns (env_at cache_2 9) 0%nat) tracking_1,
        inl not_in_cache).
Proof.
  split; [repeat split; vm_compute; reflexivity|].
  apply (proj1 (C2_cache_miss_raises (env_at cache_2 9) tracking_1)
           {| state := STOPPED; current_track := None |} "1" 1);
    vm_compute; reflexivity.
Defined.

(** C2, as stated, fails: track 1 is tracked and absent from the cache
    when track 2 starts. The call raises, and the start report of track 2
    is not put. *)
Lemma C2_counterexample :
  ~ continues_after_cache_miss (env_at cache_2 9) tracking_1 (playing "2").
Proof. intros [H _]. vm_compute in H. discriminate. Qed.

(** C3, as amended. From the initial state, provider track [a] playing
    and then another provider track [b] playing, both convertible and in
    the cache, leave exactly the start report of [a], the end report of
    [a] and the start report of [b] in the queue, in that order, [b] being
    tracked. And whatever the deliveries, a start report that is followed
    by anything is followed at once by the end report of its track, so the
    end report of a track precedes the start report of the next one. When
    [a] does not convert or the cache does not hold it, both calls raise
    instead, nothing is put into the queue and [a] stays tracked. *)
Theorem C3_start_end_start eA eB evA evB a b na nb tcA tcA' tcB :
  playing_qobuz evA a -> playing_qobuz evB b -> a <> b ->
  Py.int a = Some na -> Py.int b = Some nb ->
  track_url_response_cache (qobuz_client eA) !! a = Some tcA ->
  track_url_response_cache (qobuz_client eB) !! a = Some tcA' ->
  track_url_response_cache (qobuz_client eB) !! b = Some tcB ->
  (mqueue (run init [(eA, evA); (eB, evB)]) =
     [Some (StreamingStart (qobuz_client eA) (time_time eA 0%nat) na tcA);
      Some (StreamingEnd (qobuz_client eB) (time_time eB 0%nat) na tcA'
              (elapsed (monotonic_ns eB 0%nat) (monotonic_ns eA 0%nat)));
      Some (StreamingStart (qobuz_client eB) (time_time eB 1%nat) nb tcB)]
   /\ current_track_id (run init [(eA, evA); (eB, evB)]) = Some b)
  /\ (forall trace, end_before_next (enqueued (run init trace)) = true)
  /\ (forall eA eB evA evB a b,
        playing_qobuz evA a -> playing_qobuz evB b -> a <> b ->
        Py.int a = None
        \/ (track_url_response_cache (qobuz_client eA) !! a = None
            /\ track_url_response_cache (qobuz_client eB) !! a = None) ->
        (deliver eA init evA).2 <> inr tt
        /\ (deliver eB (deliver eA init evA).1 evB).2 <> inr tt
        /\ mqueue (run init [(eA, evA); (eB, evB)]) = []
        /\ current_track_id (run init [(eA, evA); (eB, evB)]) = Some a).
Proof.
  intros HA HB Hne Ha Hb HcA HcA' HcB. split; [|split].
  3: { clear. intros eA eB evA evB a b HA HB Hne Hbad. cbn [run].
       rewrite (deliver_playing_new eA init evA a) by done.
       cbn [current_track_id init]. unfold start_report_result.
       assert (H1 : exists x,
                 match Py.int a with
                 | Some n =>
                     match track_url_response_cache (qobuz_client eA) !! a
                     with
                     | Some tc =>
                         (with_clock (monotonic_ns eA 0%nat)
                            (with_put
                               (StreamingStart (qobuz_client eA)
                                  (time_time eA 0%nat) n tc)
                               (with_current (Some a) init)), inr tt)
                     | None => (with_current (Some a) init, inl not_in_cache)
                     end
                 | None => (with_current (Some a) init,
                            inl (not_convertible a))
                 end = (with_current (Some a) init, inl x)).
       { destruct Hbad as [->|[-> _]]; [eauto|].
         destruct (Py.int a); eauto. }
       destruct H1 as [x ->]. cbn [fst snd].
       rewrite (deliver_playing_new eB _ evB b) by (cbn; congruence).
       cbn [current_track_id with_current].
       assert (H2 : exists y,
                 end_report_result eB (with_current (Some a) init) a
                 = (with_clock (monotonic_ns eB 0%nat)
                      (with_current (Some a) init), inl y)).
       { unfold end_report_result. destruct Hbad as [->|[_ ->]]; [eauto|].
         destruct (Py.int a); eauto. }
       destruct H2 as [y ->]. done. }
  - cbn [run].
    rewrite (deliver_playing_new eA init evA a) by done.
    cbn [current_track_id init]. unfold start_report_result.
    rewrite Ha, HcA. cbn [fst].
    rewrite (deliver_playing_new eB _ evB b) by (cbn; congruence).
    cbn [current_track_id with_clock with_put with_current set_mqueue].
    unfold end_report_result. rewrite Ha, HcA'.
    unfold start_report_result. rewrite Hb, HcB. cbn. done.
  - intros trace. apply (queue_inv_run trace init queue_inv_init).
Qed.

Lemma C3_start_end_start_witness :
  mqueue (run init [(env_at cache_1_2 5, playing "1");
                    (env_at cache_1_2 9, playing "2")]) =
    [Some (StreamingStart (qobuz_client (env_at cache_1_2 5)) 1700000005 1
             {| format_id := 27; duration := 200 |});
     Some (StreamingEnd (qobuz_client (env_at cache_1_2 9)) 1700000009 1
             {| format_id := 27; duration := 200 |} 4);
     Some (StreamingStart (qobuz_client (env_at cache_1_2 9)) 1700000009 2
             {| format_id := 6; duration := 300 |})]
  /\ current_track_id (run init [(env_at cache_1_2 5, playing "1");
                                 (env_at cache_1_2 9, playing "2")])
     = Some "2".
Proof.
  apply (proj1 (C3_start_end_start
                  (env_at cache_1_2 5) (env_at cache_1_2 9)
                  (playing "1") (playing "2") "1" "2" 1 2
                  {| format_id := 27; duration := 200 |}
                  {| format_id := 27; duration := 200 |}
                  {| format_id := 6; duration := 300 |}
                  (playing_is_playing_qobuz "1")
                  (playing_is_playing_qobuz "2")
                  ltac:(discriminate) eq_refl eq_refl
                  ltac:(vm_compute; reflexivity)
                  ltac:(vm_compute; reflexivity)
                  ltac:(vm_compute; reflexivity))).
Defined.

(** C3, as stated, fails: the cache holds track 2 and not track 1. The
    start report of track 1 cannot be built, and when track 2 starts
    neither can the end report of track 1: both calls raise and the queue
    stays empty. *)
Lemma C3_counterexample :
  ~ start_end_start (env_at cache_2 5) (env_at cache_2 9)
      (playing "1") (playing "2") "1" "2".
Proof.
  intros H.
  destruct (H (playing_is_playing_qobuz "1") (playing_is_playing_qobuz "2")
              ltac:(discriminate)) as (sA & endA & sB & Hq & _).
  vm_compute in Hq. discriminate.
Qed.

(** C4, as amended. A notification that the player stopped, paused or
    failed does nothing when no track is tracked. When track [t] is
    tracked, and its payload can be built ([t] is convertible and in the
    cache), the end report of [t] with the elapsed seconds is put, the
    clock is reset, and no track is tracked afterwards. When its payload
    cannot be built the call raises: the clock is reset, nothing is put,
    and [t] stays tracked. *)
Theorem C4_stopped_paused_error e r st tr :
  st = STOPPED \/ st = PAUSED \/ st = ERROR ->
  let event := StateChangedEvent {| state := st; current_track := tr |} in
  (current_track_id r = None -> deliver e r event = (r, inr tt))
  /\ (forall t n tc,
        current_track_id r = Some t -> Py.int t = Some n ->
        track_url_response_cache (qobuz_client e) !! t = Some tc ->
        deliver e r event =
          ({| mqueue :=
                mqueue r ++
                [Some (StreamingEnd (qobuz_client e) (time_time e 0%nat) n tc
                         (elapsed (monotonic_ns e 0%nat)
                            (last_report_time r)))];
              last_report_time := monotonic_ns e 0%nat;
              current_track_id := None;
              _isRunning := _isRunning r |}, inr tt))
  /\ (forall t,
        current_track_id r = Some t ->
        Py.int t = None
        \/ track_url_response_cache (qobuz_client e) !! t = None ->
        exists x,
          deliver e r event = (with_clock (monotonic_ns e 0%nat) r, inl x)).
Proof.
  intros Hst event.
  assert (Hnp : not_playing_qobuz event).
  { eexists. split; [done|]. left. cbn. by destruct Hst as [->|[->| ->]]. }
  split; [|split].
  - intros Hc. rewrite deliver_not_playing_qobuz, Hc; done.
  - intros t n tc Hc Hi Hl. rewrite deliver_not_playing_qobuz, Hc by done.
    unfold end_report_result. rewrite Hi, Hl. done.
  - intros t Hc Hbad. rewrite deliver_not_playing_qobuz, Hc by done.
    unfold end_report_result. destruct Hbad as [->| ->]; [eauto|].
    destruct (Py.int t); eauto.
Qed.

Lemma C4_stopped_paused_error_witness :
  (PAUSED = STOPPED \/ PAUSED = PAUSED \/ PAUSED = ERROR)
  /\ current_track_id tracking_1 = Some "1"
  /\ deliver (env_at cache_1_2 9) tracking_1
       (StateChangedEvent {| state := PAUSED; current_track := None |})
     = ({| mqueue :=
             mqueue tracking_1 ++
             [Some (StreamingEnd (qobuz_client (env_at cache_1_2 9))
                      1700000009 1 {| format_id := 27; duration := 200 |} 4)];
           last_report_time := 9000000000;
           current_track_id := None;
           _isRunning := true |}, inr tt).
Proof.
  split; [right; left; reflexivity|]. split; [vm_compute; reflexivity|].
  apply (proj1 (proj2 (C4_stopped_paused_error (env_at cache_1_2 9)
                         tracking_1 PAUSED None
                         (or_intror (or_introl eq_refl))))
           "1" 1 {| format_id := 27; duration := 200 |});
    vm_compute; reflexivity.
Defined.

(** C4, as stated, fails: track 1 is tracked and the cache does not hold
    it. The notification raises, nothing is put, and track 1 stays
    tracked. *)
Lemma C4_counterexample :
  ~ ends_tracking (env_at cache_2 9) tracking_uncached STOPPED.
Proof.
  intros H.
  destruct (H (or_introl eq_refl) "1" eq_refl) as [_ Hc].
  vm_compute in Hc. discriminate.
Qed.

(** [int] takes the separators 0x1c to 0x1f for no white space: an id that
    starts with one does not convert. *)
Lemma int_rejects_separator :
  Py.int (String (ascii_of_nat 28) "12") = None.
Proof. by vm_compute. Qed.

(** C10. A track id that [int] rejects makes both payload builders raise,
    before the cache is looked at and whatever it holds. The exception
    leaves [on_state_changed]: when such a track starts (the end report of
    the track before, if any, has been put by then, and [current_track_id]
    is already the new id), and, once it is tracked, at every state
    change. *)
Theorem C10_not_convertible_raises tid :
  Py.int tid = None ->
  (forall e s,
     (_make_start_report_message tid e s).2 = inl (not_convertible tid))
  /\ (forall d e s,
        (_make_end_report_message tid d e s).2 = inl (not_convertible tid))
  /\ (forall e r st,
        current_track_id r = Some tid ->
        deliver e r (StateChangedEvent st) =
          (with_clock (monotonic_ns e 0%nat) r, inl (not_convertible tid)))
  /\ (forall e r event,
        playing_qobuz event tid -> current_track_id r = None ->
        deliver e r event =
          (with_current (Some tid) r, inl (not_convertible tid)))
  /\ (forall e r event cur nc tc,
        playing_qobuz event tid -> current_track_id r = Some cur ->
        Py.int cur = Some nc ->
        track_url_response_cache (qobuz_client e) !! cur = Some tc ->
        deliver e r event =
          (with_current (Some tid)
             (with_put
                (StreamingEnd (qobuz_client e) (time_time e 0%nat) nc tc
                   (elapsed (monotonic_ns e 0%nat) (last_report_time r)))
                (with_clock (monotonic_ns e 0%nat) r)),
           inl (not_convertible tid))).
Proof.
  intros Hn. repeat split.
  - intros e s. unfold _make_start_report_message, track_id_to_int,
      PyM.bind, PyM.raise. by rewrite Hn.
  - intros d e s. unfold _make_end_report_message, track_id_to_int,
      PyM.bind, PyM.raise. by rewrite Hn.
  - intros e r st Hc. apply (deliver_end_raises e r st tid); [done|].
    unfold end_report_result. by rewrite Hn.
  - intros e r ev Hp Hc.
    rewrite (deliver_playing_new e r ev tid), Hc by congruence.
    unfold start_report_result. by rewrite Hn.
  - intros e r ev cur nc tc Hp Hc Hi Hl.
    assert (cur <> tid) by congruence.
    rewrite (deliver_playing_new e r ev tid), Hc by congruence.
    unfold end_report_result. rewrite Hi, Hl.
    unfold start_report_result. by rewrite Hn.
Qed.

Lemma C10_not_convertible_raises_witness :
  Py.int "abc" = None
  /\ deliver (env_at (<["abc" := {| format_id := 6; duration := 1 |}]> cache_1_2) 5)
       init (playing "abc")
     = (with_current (Some "abc") init, inl (not_convertible "abc"))
  /\ deliver (env_at (<["abc" := {| format_id := 6; duration := 1 |}]> cache_1_2) 9)
       tracking_abc stopped
     = (with_clock 9000000000 tracking_abc, inl (not_convertible "abc")).
Proof.
  split; [reflexivity|].
  pose proof (C10_not_convertible_raises "abc" eq_refl)
    as (_ & _ & Hend & Hstart & _).
  split.
  - apply Hstart; [apply playing_is_playing_qobuz|reflexivity].
  - apply (Hend (env_at _ 9) tracking_abc). vm_compute; reflexivity.
Defined.

(** ** The sender thread and [shutdown] *)

(** Once the flag is cleared and the queue is not empty, the thread has
    returned after at most three steps, having posted at most one more
    message. *)
Lemma join_after_begin fuel s :
  (3 <= fuel)%nat ->
  _isRunning (reporter s) = false -> mqueue (reporter s) <> [] ->
  exists s', join fuel s = Some s' /\ sender_job s' = Finished /\
    (posted s' = posted s \/
     exists m, posted s' = posted s ++ [m] /\ Some m ∈ mqueue (reporter s)).
Proof.
  intros Hf Hr Hq.
  destruct fuel as [|[|[|fuel]]]; try lia.
  destruct s as [r job p]. cbn in Hr, Hq.
  destruct job.
  - (* at the loop test: the flag is off *)
    eexists. split.
    { cbn. rewrite Hr. cbn. reflexivity. }
    cbn. eauto.
  - (* in get: the queue is not empty *)
    destruct r as [q l c running]. cbn in Hr, Hq. subst running.
    destruct q as [|[m|] q]; [done| |].
    + eexists. split; [cbn; by destruct fuel|]. cbn. split; [done|].
      right. exists m. split; [done|]. apply elem_of_cons. by left.
    + eexists. split; [cbn; reflexivity|]. cbn. eauto.
  - (* asleep *)
    eexists. split.
    { cbn. rewrite Hr. cbn. reflexivity. }
    cbn. eauto.
  - eexists. split; [cbn; reflexivity|]. cbn. eauto.
Qed.

Lemma act_finished s a :
  sender_job s = Finished ->
  sender_job (act s a) = Finished /\ posted (act s a) = posted s.
Proof.
  intros H. destruct a as [e ev|]; cbn; [done|].
  unfold _sender_worker_step. by rewrite H.
Qed.

Lemma acts_finished l : forall s,
  sender_job s = Finished ->
  sender_job (acts s l) = Finished /\ posted (acts s l) = posted s.
Proof.
  unfold acts.
  induction l as [|a l IH]; intros s H; [done|].
  cbn [foldl]. destruct (act_finished s a H) as [H1 H2].
  destruct (IH _ H1) as [H3 H4]. split; [done|]. congruence.
Qed.

(** C5, as amended. [shutdown] clears the flag and puts the sentinel behind
    what the queue holds; the join then returns, from whatever point the
    thread was at, and the thread has returned by then: on taking the
    sentinel out of the queue, or on finding the flag cleared at its loop
    test, in which case what the queue still holds is never sent. While
    [shutdown] runs the thread posts at most one more message, one that was
    in the queue. After [shutdown] has returned nothing is posted any more,
    whatever events are delivered and however often the thread is given a
    turn. The handler does not look at the flag: events delivered after
    [shutdown] still put their reports into the queue, where they stay. *)
Theorem C5_shutdown_stops_sender fuel s :
  (3 <= fuel)%nat ->
  mqueue (shutdown_begin (reporter s)) = mqueue (reporter s) ++ [None] /\
  _isRunning (shutdown_begin (reporter s)) = false /\
  exists s', shutdown fuel s = Some s' /\ sender_job s' = Finished /\
    (posted s' = posted s \/
     exists m, posted s' = posted s ++ [m] /\ Some m ∈ mqueue (reporter s)) /\
    forall l, sender_job (acts s' l) = Finished /\
              posted (acts s' l) = posted s'.
Proof.
  intros Hf. split; [done|]. split; [done|].
  destruct (join_after_begin fuel
              {| reporter := shutdown_begin (reporter s);
                 sender_job := sender_job s; posted := posted s |} Hf)
    as (s' & Hj & Hfin & Hp).
  { done. }
  { cbn. by destruct (mqueue (reporter s)). }
  exists s'. split; [done|]. split; [done|]. split.
  - destruct Hp as [Hp|(m & Hp & Hin)]; [by left|]. right. exists m.
    split; [done|]. cbn in Hin.
    apply elem_of_app in Hin as [Hin|Hin]; [done|].
    apply list_elem_of_singleton in Hin. done.
  - intros l. by apply acts_finished.
Qed.

Lemma C5_shutdown_stops_sender_witness :
  (3 <= 3)%nat
  /\ exists s', shutdown 3 fresh_plugin = Some s' /\ sender_job s' = Finished
     /\ forall l, sender_job (acts s' l) = Finished /\
                  posted (acts s' l) = posted s'.
Proof.
  split; [lia|].
  destruct (C5_shutdown_stops_sender 3 fresh_plugin ltac:(lia))
    as (_ & _ & s' & Hs & Hf & _ & Hl).
  exists s'. auto.
Defined.

(** C5, as stated, fails in its last part: a track starting after
    [shutdown] has returned still gets its start report into the queue. *)
Lemma C5_counterexample : ~ refuses_after_shutdown fresh_plugin.
Proof.
  intros H.
  specialize (H _ (env_at cache_1_2 5) (playing "1") eq_refl).
  vm_compute in H. discriminate.
Qed.

End ReporterProofs.

(** * The autoplay engine *)

Module AutoplayProofs.
Import Autoplay AutoplayExamples.

(** ** The handlers, without the monad *)

Lemma with_tracks_id a : with_tracks (tracks a) a = a.
Proof. by destruct a. Qed.

Lemma with_self_id s : with_self (self s) s = s.
Proof. by destruct s. Qed.

Lemma add_tracks_eq added e s :
  add_tracks (TracksAddedEvent added) e s =
  (with_self (with_can_request_new true
                (with_tracks (tracks (self s) ++ added) (self s))) s, inr tt).
Proof. done. Qed.

Lemma del_tracks_eq indices : forall e s,
  del_tracks indices e s =
  (with_self (with_tracks (del_seq (tracks (self s)) indices).1 (self s)) s,
   if (del_seq (tracks (self s)) indices).2 then inr tt
   else inl Py.IndexError).
Proof.
  induction indices as [|i indices IH]; intros e s.
  - cbn. by rewrite with_tracks_id, with_self_id.
  - cbn [del_tracks del_seq].
    unfold PyM.bind at 1, get_self.
    destruct (Py.del (tracks (self s)) i) as [l|] eqn:Hd.
    + unfold PyM.bind at 1, set_tracks, modify. rewrite IH. cbn.
      destruct (del_seq l indices) as [l' ok]. done.
    + unfold PyM.raise. cbn. by rewrite with_tracks_id, with_self_id.
Qed.

Lemma remove_tracks_eq indices e s :
  remove_tracks (TracksRemovedEvent indices) e s =
  let '(l, ok) := del_seq (tracks (self s)) indices in
  let a := with_tracks l (self s) in
  if ok then
    if existsb is_qobuz l then (with_self a s, inr tt)
    else (with_self (with_remaining [] (with_suggested ∅
                       (with_can_request_new true a))) s, inr tt)
  else (with_self a s, inl Py.IndexError).
Proof.
  unfold remove_tracks. unfold PyM.bind at 1. rewrite del_tracks_eq.
  destruct (del_seq (tracks (self s)) indices) as [l [|]]; cbn [fst snd];
    [|done].
  unfold _has_any_qobuz_tracks, get_self, set_can_request_new,
    set_suggested_tracks, set_remaining_tracks, modify, PyM.bind, PyM.ret.
  cbn. by destruct (existsb is_qobuz l).
Qed.

Lemma int_of_id_eq x e s :
  int_of_id x e s = (s, raised_or Py.ValueError (Py.int (id_id x))).
Proof. unfold int_of_id. by destruct (Py.int _). Qed.

Lemma int_of_optional_eq {A} (f : A -> EntityId) x e s :
  int_of_optional f x e s = (s, raised_or Py.ValueError (optional_int f x)).
Proof.
  unfold int_of_optional, optional_int. destruct x as [a|]; [|done].
  unfold PyM.bind. rewrite int_of_id_eq. by destruct (Py.int _).
Qed.

Lemma _track_meta_to_autoplay_eq t e s :
  _track_meta_to_autoplay t e s = (s, raised_or Py.ValueError (meta_of t)).
Proof.
  unfold _track_meta_to_autoplay, meta_of.
  unfold PyM.bind at 1. rewrite int_of_optional_eq.
  destruct (optional_int artist_id _); [|done]. cbn.
  unfold PyM.bind at 1. rewrite int_of_optional_eq.
  destruct (optional_int genre_id _); [|done]. cbn.
  unfold PyM.bind at 1. rewrite int_of_optional_eq.
  destruct (optional_int label_id _); [|done]. cbn.
  unfold PyM.bind at 1. rewrite int_of_id_eq.
  by destruct (Py.int _).
Qed.

(** A comprehension whose element expression leaves the state alone. *)
Lemma for_each_eq {E S A B} (f : A -> PyM.M E S B) (g : A -> option B)
  x e s :
  (forall a, f a e s = (s, raised_or x (g a))) ->
  forall l, PyM.for_each f l e s = (s, raised_or x (mapM g l)).
Proof.
  intros Hf. induction l as [|a l IH]; [done|].
  cbn [PyM.for_each mapM]. unfold PyM.bind at 1. rewrite Hf.
  destruct (g a) as [b|]; [|done]. cbn.
  unfold PyM.bind at 1. rewrite IH.
  by destruct (mapM g l).
Qed.

Lemma _retrieve_new_recommendations_eq e s :
  _retrieve_new_recommendations e s =
  match qobuz_tracks (self s) with
  | [] => (s, inr tt)
  | _ =>
      match suggest_params (self s) with
      | None => (s, inl Py.ValueError)
      | Some params =>
          let s1 := log [PostSuggest params (post_suggest e params)] s in
          match post_suggest e params with
          | None => (s1, inl Py.RequestError)
          | Some req =>
              (with_self (with_can_request_new false
                            (with_remaining (items req) (self s))) s1,
               inr tt)
          end
      end
  end.
Proof.
  unfold _retrieve_new_recommendations. unfold PyM.bind at 1, get_self.
  fold (qobuz_tracks (self s)).
  destruct (qobuz_tracks (self s)) as [|t0 q] eqn:Hq; [done|].
  rewrite <- Hq. fold (five_tracks_to_analyse (self s)).
  fold (tta_ids (self s)). fold (listened (self s)).
  unfold suggest_params.
  unfold PyM.bind at 1.
  rewrite (for_each_eq _ meta_of Py.ValueError)
    by (intros; apply _track_meta_to_autoplay_eq).
  destruct (mapM meta_of _) as [metas|]; [|done]. cbn.
  unfold PyM.bind at 1.
  rewrite (for_each_eq _ (fun t => Py.int (id_id (track_id t)))
             Py.ValueError)
    by (intros; apply int_of_id_eq).
  destruct (mapM _ (listened (self s))) as [ids|]; [|done]. cbn.
  destruct (post_suggest e _); done.
Qed.

Lemma add_recommendation_eq e s :
  add_recommendation RequestMoreTracksEvent e s =
  match remaining_tracks (self s) with
  | [] =>
      if can_request_new (self s) then
        match _retrieve_new_recommendations e s with
        | (s1, inr _) => serve e s1
        | (s1, inl x) => (s1, inl x)
        end
      else (s, inr tt)
  | _ => serve e s
  end.
Proof.
  unfold add_recommendation, serve, PyM.bind, PyM.ask, PyM.ret, PyM.raise,
    perform, set_remaining_tracks, set_suggested_tracks, modify, get_self,
    with_self, log.
  destruct (remaining_tracks (self s)) as [|x rest] eqn:Hrem.
  - destruct (can_request_new (self s)); [|by rewrite Hrem].
    destruct (_retrieve_new_recommendations e s) as [s1 [exn|[]]]; [done|].
    destruct (remaining_tracks (self s1)); [done|]. cbn.
    destruct (get_track_info e _); cbn; by rewrite <- ?app_assoc.
  - rewrite Hrem. cbn.
    destruct (get_track_info e _); cbn; by rewrite <- ?app_assoc.
Qed.

Lemma serve_tracks e s : tracks (self (serve e s).1) = tracks (self s).
Proof.
  unfold serve. destruct (remaining_tracks (self s)); [done|].
  by destruct (get_track_info e _).
Qed.



(** ** The batch fetch *)







(** ** What is served *)

Lemma returned_app l1 l2 : returned (l1 ++ l2) = returned l1 ++ returned l2.
Proof.
  induction l1 as [|x l1 IH]; [done|].
  destruct x as [p [req|]| |]; cbn; rewrite IH; by rewrite ?app_assoc.
Qed.

Lemma pushed_cons_GetTrackInfo ids a y l :
  pushed (GetTrackInfo ids a :: y :: l) =
  match y with
  | PlayQueueAdd _ => ids ++ pushed (y :: l)
  | _ => pushed (y :: l)
  end.
Proof. reflexivity. Qed.

(** Appending to the log keeps what was pushed, as long as the new entries
    do not begin with a push. *)
Lemma pushed_app l1 l2 :
  (forall x, head l2 = Some x -> is_push x = false) ->
  pushed (l1 ++ l2) = pushed l1 ++ pushed l2.
Proof.
  intros H2. induction l1 as [|x l1 IH]; [done|].
  destruct x as [p a|ids a|infos].
  - cbn. apply IH.
  - destruct l1 as [|y l1].
    + cbn. destruct l2 as [|y l2]; [done|].
      specialize (H2 y eq_refl). by destruct y.
    + change ((GetTrackInfo ids a :: y :: l1) ++ l2)
        with (GetTrackInfo ids a :: y :: (l1 ++ l2)).
      rewrite !pushed_cons_GetTrackInfo.
      change (y :: (l1 ++ l2)) with ((y :: l1) ++ l2).
      rewrite IH. destruct y; by rewrite ?app_assoc.
  - cbn. apply IH.
Qed.

Lemma served_inv_start : served_inv start.
Proof. unfold served_inv. cbn. constructor. Qed.

Lemma served_inv_retrieve e s :
  remaining_tracks (self s) = [] -> served_inv s ->
  served_inv (_retrieve_new_recommendations e s).1.
Proof.
  unfold served_inv. intros Hrem I.
  rewrite _retrieve_new_recommendations_eq.
  destruct (qobuz_tracks (self s)); [done|].
  destruct (suggest_params (self s)) as [params|]; [|done]. cbn zeta.
  destruct (post_suggest e params) as [req|]; cbn.
  - rewrite pushed_app, returned_app by (by intros ? [= <-]).
    cbn. rewrite !app_nil_r.
    rewrite Hrem, app_nil_r in I. by apply sublist_app.
  - rewrite pushed_app, returned_app by (by intros ? [= <-]).
    cbn. by rewrite !app_nil_r.
Qed.

Lemma served_inv_serve e s : served_inv s -> served_inv (serve e s).1.
Proof.
  unfold served_inv, serve. intros I.
  destruct (remaining_tracks (self s)) as [|x rest] eqn:Hrem.
  { cbn. by rewrite Hrem. }
  destruct (get_track_info e [x]) as [infos|]; cbn.
  - rewrite pushed_app, returned_app by (by intros ? [= <-]). cbn.
    rewrite !app_nil_r, <- app_assoc. done.
  - rewrite pushed_app, returned_app by (by intros ? [= <-]). cbn.
    rewrite !app_nil_r.
    etrans; [|exact I]. apply sublist_app; [done|]. by apply sublist_cons.
Qed.

Lemma served_inv_call s c : served_inv s -> served_inv (call s c).1.
Proof.
  intros I. destruct c as [ev|ev|e ev]; cbn [call].
  - destruct ev; try done.
  - destruct ev as [|?|indices|]; try done.
    rewrite remove_tracks_eq.
    destruct (del_seq _ _) as [l [|]]; [|done].
    destruct (existsb is_qobuz l); [done|].
    unfold served_inv in *. cbn. rewrite app_nil_r.
    etrans; [|exact I]. by apply sublist_inserts_r.
  - destruct ev; try done.
    rewrite add_recommendation_eq.
    destruct (remaining_tracks (self s)) eqn:Hrem.
    + destruct (can_request_new (self s)); [|done].
      pose proof (served_inv_retrieve e s Hrem I) as I1.
      destruct (_retrieve_new_recommendations e s) as [s1 [x|[]]]; [done|].
      by apply served_inv_serve.
    + by apply served_inv_serve.
Qed.

Lemma served_inv_run calls :
  forall s, served_inv s -> served_inv (run s calls).
Proof.
  unfold run. induction calls as [|c calls IH]; intros s I; [done|].
  cbn. apply IH. by apply served_inv_call.
Qed.

(** C7, as amended. Whatever the calls, the ids pushed to the play queue
    are, in order, among the ids the provider returned over all batch
    fetches, each occurrence being pushed at most once: an id is pushed at
    most as often as the provider returned it, and at most once when the
    provider never returned an id twice. [suggested_tracks] is a set and
    holds a served id once. An id popped from [remaining_tracks] is not
    looked up in [suggested_tracks], so an id a later batch returns again
    is pushed again. *)
Theorem C7_pushed_among_returned calls :
  let s := run start calls in
  pushed (effects s) `sublist_of` returned (effects s)
  /\ (NoDup (returned (effects s)) -> NoDup (pushed (effects s)))
  /\ NoDup (elements (suggested_tracks (self s))).
Proof.
  intros s.
  assert (H : pushed (effects s) `sublist_of` returned (effects s)).
  { pose proof (served_inv_run calls start served_inv_start) as I.
    unfold served_inv in I. etrans; [|exact I]. by apply sublist_inserts_r. }
  split; [done|]. split.
  - intros Hn. by eapply sublist_NoDup.
  - apply NoDup_elements.
Qed.

Lemma C7_pushed_among_returned_witness :
  NoDup (returned (effects (run start (take 2 recommended_twice))))
  /\ NoDup (pushed (effects (run start (take 2 recommended_twice)))).
Proof.
  assert (H : NoDup (returned
                       (effects (run start (take 2 recommended_twice))))).
  { vm_compute. apply NoDup_singleton. }
  split; [exact H|].
  exact (proj1 (proj2 (C7_pushed_among_returned (take 2 recommended_twice)))
           H).
Defined.

(** C7, as stated, fails: nothing is removed, the provider returns track
    100 in two batches, and track 100 is pushed twice. *)
Lemma C7_counterexample : ~ served_at_most_once recommended_twice.
Proof.
  intros H. specialize (H eq_refl). vm_compute in H.
  apply NoDup_cons in H as [H _]. apply H. apply elem_of_cons. by left.
Qed.

(** ** Removal *)

Lemma del_in_range {A} (l : list A) i :
  0 <= i < Z.of_nat (length l) -> Py.del l i = Some (delete (Z.to_nat i) l).
Proof. intros H. unfold Py.del. by rewrite bool_decide_eq_true_2. Qed.

Lemma remove_from_none {A} (l : list A) : forall k indices,
  Forall (fun j => j < k) indices -> remove_from k l indices = l.
Proof.
  induction l as [|x l IH]; intros k indices H; [done|].
  cbn. rewrite bool_decide_eq_false_2.
  - f_equal. apply IH. eapply Forall_impl; [done|]. intros; cbn in *; lia.
  - intros Hin. rewrite Forall_forall in H. specialize (H _ Hin). lia.
Qed.

(** Deleting the entry at the largest position first leaves the other
    positions where they were. *)
Lemma remove_from_delete {A} (l : list A) : forall k (i : nat) rest,
  (i < length l)%nat -> Forall (fun j => j < k + Z.of_nat i) rest ->
  remove_from k l (k + Z.of_nat i :: rest) = remove_from k (delete i l) rest.
Proof.
  induction l as [|x l IH]; intros k i rest Hi Hr; [cbn in Hi; lia|].
  destruct i as [|i].
  - cbn [delete list_delete remove_from]. rewrite Z.add_0_r in *.
    rewrite bool_decide_eq_true_2 by (apply elem_of_cons; by left).
    rewrite (remove_from_none l k rest Hr).
    apply remove_from_none. constructor; [lia|].
    eapply Forall_impl; [done|]. intros; cbn in *; lia.
  - cbn [delete list_delete remove_from].
    replace (k + Z.of_nat (S i)) with ((k + 1) + Z.of_nat i) in * by lia.
    rewrite (IH (k + 1) i rest) by (cbn in Hi; done || lia).
    assert (E : bool_decide (k ∈ k + 1 + Z.of_nat i :: rest)
                = bool_decide (k ∈ rest)).
    { apply bool_decide_ext. rewrite elem_of_cons. split; [|by right].
      intros [H|H]; [lia|done]. }
    rewrite E. done.
Qed.

Lemma del_seq_descending {A} indices : forall (l : list A),
  StronglySorted (fun i j => j < i) indices ->
  Forall (fun i => 0 <= i < Z.of_nat (length l)) indices ->
  del_seq l indices = (remove_positions l indices, true).
Proof.
  induction indices as [|i rest IH]; intros l Hs Hr.
  - cbn. unfold remove_positions. by rewrite remove_from_none.
  - apply StronglySorted_inv in Hs as [Hs Hlt].
    apply Forall_cons in Hr as [Hi Hr].
    cbn [del_seq]. rewrite del_in_range by done.
    rewrite IH; [|done|].
    + f_equal. unfold remove_positions.
      rewrite <- (remove_from_delete l 0 (Z.to_nat i) rest).
      * by rewrite Z.add_0_l, Z2Nat.id by lia.
      * lia.
      * rewrite Z.add_0_l, Z2Nat.id by lia. done.
    + rewrite length_delete by (apply lookup_lt_is_Some; lia).
      rewrite Forall_forall in Hr, Hlt. apply Forall_forall. intros j Hj.
      specialize (Hr j Hj). specialize (Hlt j Hj). lia.
Qed.

(** C8, as amended. [remove_tracks] deletes one entry for each index, in
    the order the indices come, each index being read against the mirror as
    the deletions before it left it; an index out of range raises
    [IndexError] there, the deletions made so far staying. For indices that
    are in range and strictly descending (a single index is) this removes
    exactly the entries at the given positions of the mirror as the event
    found it. When the call returns, [remaining_tracks] and
    [suggested_tracks] are cleared and [can_request_new] is set if no
    provider track is left in the mirror, and the three are as before
    otherwise; they are as before also when the call raises. *)
Theorem C8_remove_tracks indices e s :
  let r := remove_tracks (TracksRemovedEvent indices) e s in
  let a := self s in
  let a' := self r.1 in
  (tracks a' = (del_seq (tracks a) indices).1 /\
   effects r.1 = effects s /\
   r.2 = (if (del_seq (tracks a) indices).2 then inr tt
          else inl Py.IndexError))
  /\ (StronglySorted (fun i j => j < i) indices ->
      Forall (fun i => 0 <= i < Z.of_nat (length (tracks a))) indices ->
      r.2 = inr tt /\ tracks a' = remove_positions (tracks a) indices)
  /\ (r.2 = inr tt -> existsb is_qobuz (tracks a') = false ->
      remaining_tracks a' = [] /\ suggested_tracks a' = ∅ /\
      can_request_new a' = true)
  /\ (r.2 <> inr tt \/ existsb is_qobuz (tracks a') = true ->
      remaining_tracks a' = remaining_tracks a /\
      suggested_tracks a' = suggested_tracks a /\
      can_request_new a' = can_request_new a).
Proof.
  intros r a a'. subst r a a'. rewrite remove_tracks_eq.
  assert (Hd := del_seq_descending indices (tracks (self s))).
  destruct (del_seq (tracks (self s)) indices) as [l ok].
  destruct ok; [destruct (existsb is_qobuz l) eqn:E|]; cbn.
  - split; [done|]. split; [|split].
    + intros Hs Hr. by injection (Hd Hs Hr) as ->.
    + intros _ H. congruence.
    + done.
  - split; [done|]. split; [|split].
    + intros Hs Hr. by injection (Hd Hs Hr) as ->.
    + done.
    + intros [H|H]; [done|congruence].
  - split; [done|]. split; [|split].
    + intros Hs Hr. by specialize (Hd Hs Hr).
    + done.
    + done.
Qed.

Lemma C8_remove_tracks_witness :
  (StronglySorted (fun i j => j < i) [2; 0] /\
   Forall (fun i => 0 <= i < Z.of_nat (length (tracks three_tracks))) [2; 0])
  /\ (remove_tracks (TracksRemovedEvent [2; 0]) no_env
        {| self := three_tracks; effects := [] |}).2 = inr tt
  /\ tracks (self (remove_tracks (TracksRemovedEvent [2; 0]) no_env
                     {| self := three_tracks; effects := [] |}).1)
     = remove_positions (tracks three_tracks) [2; 0].
Proof.
  assert (Hs : StronglySorted (fun i j => j < i) [2; 0]).
  { repeat constructor. }
  assert (Hr : Forall (fun i => 0 <= i
                                < Z.of_nat (length (tracks three_tracks)))
                 [2; 0]).
  { repeat constructor; cbn; lia. }
  split; [by split|].
  exact (proj1 (proj2 (C8_remove_tracks [2; 0] no_env
                         {| self := three_tracks; effects := [] |}))
           Hs Hr).
Defined.

(** C8, as stated, fails for the first two positions of a mirror of three:
    the second deletion finds the mirror already shifted, and the middle
    track is the one that stays. *)
Lemma C8_counterexample : ~ removes_emitted_positions three_tracks [0; 1].
Proof. intros H. vm_compute in H. discriminate. Qed.

(** ** Nothing to recommend from *)







End AutoplayProofs.

(** * More on the reporter *)

Module ReporterMoreProofs.
Import Reporter ReporterExamples ReporterMore ReporterProofs.

Lemma well_formed_StreamingStart c date n tc :
  well_formed (StreamingStart c date n tc).
Proof.
  unfold well_formed, fixed_flags. cbn.
  split; [done|]. left. eauto.
Qed.

Lemma well_formed_StreamingEnd c date n tc now last :
  well_formed (StreamingEnd c date n tc (elapsed now last)).
Proof.
  unfold well_formed, fixed_flags. cbn.
  split; [done|]. right. split; [done|]. split; [|done].
  unfold elapsed. lia.
Qed.

Lemma is_end_StreamingEnd c date n tc d :
  is_end (StreamingEnd c date n tc d) = true.
Proof. reflexivity. Qed.

(** What a delivery appends: nothing, an end report, a start report, or an
    end report and then a start report, each as the builders make them. *)
Ltac nothing_appended :=
  exists []; cbn; rewrite app_nil_r; repeat split; constructor.

Ltac reports_appended :=
  split; [by rewrite <- ?app_assoc|]; split; [by constructor|];
  split; [|done];
  repeat first [ exact I | apply Forall_nil | apply Forall_cons_2
               | apply well_formed_StreamingEnd
               | apply well_formed_StreamingStart ].

Lemma deliver_appends e r event :
  exists l, mqueue (deliver e r event).1 = mqueue r ++ (Some <$> l) /\
            appended l /\ Forall well_formed l /\
            _isRunning (deliver e r event).1 = _isRunning r.
Proof.
  destruct event as [st| | |];
    try (rewrite deliver_eq; nothing_appended).
  destruct (state_changed_cases st) as [H|[tid H]].
  - rewrite deliver_not_playing_qobuz by done.
    destruct (current_track_id r) as [cur|] eqn:Hc; [|nothing_appended].
    unfold end_report_result.
    destruct (Py.int cur) eqn:Hi; [destruct (_ !! cur) eqn:Hl|]; cbn;
      [|nothing_appended..].
    eexists [_]. reports_appended.
  - destruct (decide (current_track_id r = Some tid)) as [Hc|Hc].
    + rewrite (deliver_playing_same e r _ tid) by done.
      unfold end_report_result.
      destruct (Py.int tid) eqn:Hi; [destruct (_ !! tid) eqn:Hl|]; cbn;
        [|nothing_appended..].
      eexists [_]. reports_appended.
    + rewrite (deliver_playing_new e r _ tid) by done.
      destruct (current_track_id r) as [cur|] eqn:Hcur.
      * unfold end_report_result, start_report_result.
        destruct (Py.int cur) eqn:Hi; [destruct (_ !! cur) eqn:Hl|]; cbn;
          [|nothing_appended..].
        destruct (Py.int tid) eqn:Hi'; [destruct (_ !! tid) eqn:Hl'|]; cbn.
        -- eexists [_; _]. reports_appended.
        -- eexists [_]. reports_appended.
        -- eexists [_]. reports_appended.
      * unfold start_report_result.
        destruct (Py.int tid) eqn:Hi'; [destruct (_ !! tid) eqn:Hl'|]; cbn;
          [|nothing_appended..].
        eexists [_]. reports_appended.
Qed.

(** X1. Whatever events are delivered, and whether the calls return or
    raise, every report in the queue is as the builders make it: the fixed
    flags, a start report with duration 0 and a total track duration, an
    end report with a duration that is not negative and no total track
    duration. *)
Theorem X1_reports_well_formed trace :
  Forall well_formed (enqueued (run init trace)).
Proof.
  assert (H : forall r, Forall well_formed (enqueued r) ->
                        Forall well_formed (enqueued (run r trace))).
  { induction trace as [|[e ev] trace IH]; intros r Hr; [done|].
    cbn. apply IH.
    destruct (deliver_appends e r ev) as (l & Hq & _ & Hl & _).
    apply enqueued_mqueue in Hq. rewrite Hq. apply Forall_app. split; [done|].
    clear Hq. induction Hl; [constructor|]. cbn. by constructor. }
  apply H. constructor.
Qed.

Lemma run_appends trace : forall r,
  exists l, mqueue (run r trace) = mqueue r ++ (Some <$> l) /\
            (length l <= 2 * length trace)%nat /\
            _isRunning (run r trace) = _isRunning r.
Proof.
  induction trace as [|[e ev] trace IH]; intros r.
  { exists []. cbn. by rewrite app_nil_r. }
  cbn [run fst].
  destruct (deliver_appends e r ev) as (l1 & Hq1 & Ha & _ & Hr1).
  destruct (IH (deliver e r ev).1) as (l2 & Hq2 & Hlen & Hr2).
  exists (l1 ++ l2). rewrite Hq2, Hq1, fmap_app, <- app_assoc.
  split; [done|]. split; [|congruence].
  rewrite length_app. cbn [length].
  assert (length l1 <= 2)%nat by (destruct Ha; cbn; lia). lia.
Qed.

(** X2. The handler only appends to the queue: after any sequence of
    deliveries the queue is the old queue followed by reports, at most two
    for each event, never the value [shutdown] puts; and the handler never
    touches the running flag. One delivery appends nothing, an end report,
    a start report, or an end report and then a start report. *)
Theorem X2_handler_only_appends trace r :
  (exists l, mqueue (run r trace) = mqueue r ++ (Some <$> l) /\
             (length l <= 2 * length trace)%nat) /\
  _isRunning (run r trace) = _isRunning r /\
  forall e event,
    exists l, mqueue (deliver e r event).1 = mqueue r ++ (Some <$> l) /\
              appended l.
Proof.
  destruct (run_appends trace r) as (l & Hq & Hlen & Hr).
  split; [eauto|]. split; [done|].
  intros e ev. destruct (deliver_appends e r ev) as (l1 & Hq1 & Ha & _).
  eauto.
Qed.

(** X3. A notification that the player plays no track, or a track of
    another source, has exactly the effect of one that the player stopped,
    paused or failed: the two branches of the handler do the same. *)
Theorem X3_other_source_is_like_stopped e r event1 event2 :
  not_playing_qobuz event1 -> not_playing_qobuz event2 ->
  deliver e r event1 = deliver e r event2.
Proof.
  intros H1 H2. by rewrite !deliver_not_playing_qobuz.
Qed.

Lemma playing_local_not_qobuz : not_playing_qobuz playing_local.
Proof.
  eexists. split; [done|]. right. right. eexists. split; [done|]. done.
Qed.

Lemma paused_not_qobuz : not_playing_qobuz paused.
Proof. eexists. split; [done|]. by left. Qed.

Lemma X3_other_source_is_like_stopped_witness :
  (not_playing_qobuz playing_local /\ not_playing_qobuz paused)
  /\ deliver (env_at cache_1_2 9) tracking_1 playing_local
     = deliver (env_at cache_1_2 9) tracking_1 paused.
Proof.
  split; [split; [apply playing_local_not_qobuz|apply paused_not_qobuz]|].
  apply (X3_other_source_is_like_stopped (env_at cache_1_2 9) tracking_1
           playing_local paused playing_local_not_qobuz paused_not_qobuz).
Defined.

Lemma cannot_end_result e r cur :
  cannot_end e cur ->
  exists x, end_report_result e r cur
            = (with_clock (monotonic_ns e 0%nat) r, inl x).
Proof.
  unfold end_report_result. intros [H|H].
  - rewrite H. eauto.
  - rewrite H. destruct (Py.int cur); eauto.
Qed.

Lemma cannot_end_deliver e r cur event :
  current_track_id r = Some cur -> cannot_end e cur ->
  mqueue (deliver e r event).1 = mqueue r /\
  current_track_id (deliver e r event).1 = Some cur.
Proof.
  intros Hc He. destruct event as [st| | |];
    try (rewrite deliver_eq; by cbn).
  destruct (cannot_end_result e r cur He) as [x Hx].
  by rewrite (deliver_end_raises e r st cur x Hc Hx).
Qed.

(** X4. While the end report of the tracked track cannot be built (its id
    is no integer, or the cache does not hold it), the reporter is stuck on
    that track: whatever events are delivered, nothing is put into the
    queue and [current_track_id] stays, and every state change raises,
    also the start of another track. *)
Theorem X4_stuck_while_end_report_fails trace r cur :
  current_track_id r = Some cur ->
  Forall (fun d => cannot_end d.1 cur) trace ->
  mqueue (run r trace) = mqueue r /\
  current_track_id (run r trace) = Some cur /\
  forall e st, cannot_end e cur ->
    exists x, (deliver e (run r trace) (StateChangedEvent st)).2 = inl x.
Proof.
  revert r. induction trace as [|[e ev] trace IH]; intros r Hc Ht.
  - split; [done|]. split; [done|]. intros e st He. cbn [run].
    destruct (cannot_end_result e r cur He) as [x Hx].
    exists x. by rewrite (deliver_end_raises e r st cur x Hc Hx).
  - apply Forall_cons in Ht as [He Ht]. cbn in He. cbn [run fst].
    destruct (cannot_end_deliver e r cur ev Hc He) as [Hq Hc'].
    destruct (IH _ Hc' Ht) as (Hq' & Hc'' & Hraise).
    split; [congruence|]. done.
Qed.

Lemma X4_stuck_while_end_report_fails_witness :
  (current_track_id tracking_abc = Some "abc" /\
   Forall (fun d => cannot_end d.1 "abc")
     [(env_at cache_1_2 9, playing "1"); (env_at cache_1_2 12, paused)])
  /\ mqueue (run tracking_abc
               [(env_at cache_1_2 9, playing "1");
                (env_at cache_1_2 12, paused)]) = mqueue tracking_abc
  /\ current_track_id
       (run tracking_abc
          [(env_at cache_1_2 9, playing "1"); (env_at cache_1_2 12, paused)])
     = Some "abc".
Proof.
  assert (Hc : current_track_id tracking_abc = Some "abc")
    by (vm_compute; reflexivity).
  assert (Ht : Forall (fun d => cannot_end d.1 "abc")
                 [(env_at cache_1_2 9, playing "1");
                  (env_at cache_1_2 12, paused)]).
  { repeat constructor; by left. }
  split; [by split|].
  destruct (X4_stuck_while_end_report_fails _ tracking_abc "abc" Hc Ht)
    as (Hq & Hc' & _).
  by split.
Defined.

(** ** The sender thread, running *)

Lemma join_step fuel s s' :
  sender_job s <> Finished -> _sender_worker_step s = Some s' ->
  join (S fuel) s = join fuel s'.
Proof.
  intros Hj Hs. cbn [join]. rewrite Hs. by destruct (sender_job s).
Qed.

Lemma join_more fuel : forall fuel' s s',
  (fuel <= fuel')%nat -> join fuel s = Some s' -> join fuel' s = Some s'.
Proof.
  induction fuel as [|fuel IH]; intros fuel' s s' Hle H.
  - cbn in H. destruct fuel'; cbn; by destruct (sender_job s).
  - destruct fuel' as [|fuel']; [lia|].
    cbn [join] in *. destruct (sender_job s); try done;
      (destruct (_sender_worker_step s) as [s1|]; [|done];
       apply (IH fuel'); [lia|done]).
Qed.

(** X5. The running thread sends the queue in order and stops at the
    sentinel: from its loop test, with the flag set and [n] messages queued
    in front of the sentinel, it has returned after [3 * n + 2] steps,
    having posted exactly these messages, each once, in the order they were
    put; what was queued behind the sentinel is left in the queue, unsent. *)
Theorem X5_sender_drains_in_order ms : forall s rest fuel,
  sender_job s = AtLoopTest -> _isRunning (reporter s) = true ->
  mqueue (reporter s) = (Some <$> ms) ++ None :: rest ->
  (3 * length ms + 2 <= fuel)%nat ->
  join fuel s =
    Some {| reporter := set_mqueue rest (reporter s);
            sender_job := Finished;
            posted := posted s ++ ms |}.
Proof.
  induction ms as [|m ms IH]; intros s rest fuel Hj Hr Hq Hf.
  - apply (join_more 2); [cbn in Hf; lia|].
    destruct s as [r j p]. cbn in *. subst j.
    cbn. rewrite Hr. cbn. rewrite Hq. cbn. by rewrite app_nil_r.
  - cbn [length] in Hf.
    destruct fuel as [|[|[|fuel]]]; try lia.
    destruct s as [r j p]. cbn in Hj, Hr, Hq. subst j.
    rewrite (join_step _ _ {| reporter := r; sender_job := AtGet;
                              posted := p |});
      [|done|by cbn; rewrite Hr].
    rewrite (join_step _ _ {| reporter := set_mqueue
                                            ((Some <$> ms) ++ None :: rest) r;
                              sender_job := AtSleep;
                              posted := p ++ [m] |});
      [|done|by cbn; rewrite Hq].
    rewrite (join_step _ _ {| reporter := set_mqueue
                                            ((Some <$> ms) ++ None :: rest) r;
                              sender_job := AtLoopTest;
                              posted := p ++ [m] |}); [|done|done].
    rewrite (IH _ rest) by (cbn; done || lia).
    cbn. by rewrite <- app_assoc.
Qed.

Lemma X5_sender_drains_in_order_witness :
  (sender_job two_queued = AtLoopTest /\
   _isRunning (reporter two_queued) = true /\
   mqueue (reporter two_queued)
   = (Some <$> enqueued (run init same_track_twice)) ++ [None] /\
   (3 * length (enqueued (run init same_track_twice)) + 2 <= 8)%nat)
  /\ join 8 two_queued =
       Some {| reporter := set_mqueue [] (reporter two_queued);
               sender_job := Finished;
               posted := posted two_queued
                         ++ enqueued (run init same_track_twice) |}.
Proof.
  assert (Hq : mqueue (reporter two_queued)
               = (Some <$> enqueued (run init same_track_twice)) ++ [None])
    by (vm_compute; reflexivity).
  assert (Hf : (3 * length (enqueued (run init same_track_twice)) + 2
                <= 8)%nat) by (vm_compute; lia).
  split; [by repeat split|].
  exact (X5_sender_drains_in_order (enqueued (run init same_track_twice))
           two_queued [] 8%nat eq_refl eq_refl Hq Hf).
Defined.

Lemma all_messages_step s s' :
  _sender_worker_step s = Some s' ->
  all_messages s' = all_messages s /\ posted s `prefix_of` posted s'.
Proof.
  unfold _sender_worker_step, all_messages.
  destruct s as [r j p]. cbn.
  destruct j; try (intros [= <-]; cbn; done).
  unfold enqueued. destruct (mqueue r) as [|[m|] q]; [done| |];
    intros [= <-]; cbn.
  - rewrite <- app_assoc. split; [done|]. by apply prefix_app_r.
  - done.
Qed.

Lemma all_messages_act s a :
  all_messages s `prefix_of` all_messages (act s a) /\
  posted s `prefix_of` posted (act s a) /\
  (is_sender_turn a = true -> all_messages (act s a) = all_messages s).
Proof.
  destruct a as [e ev|]; cbn [act is_sender_turn].
  - split; [|done]. unfold all_messages. cbn.
    destruct (deliver_appends e (reporter s) ev) as (l & Hq & _).
    apply enqueued_mqueue in Hq. rewrite Hq, app_assoc.
    by apply prefix_app_r.
  - destruct (_sender_worker_step s) as [s'|] eqn:Hs; [|done].
    destruct (all_messages_step s s' Hs) as [H1 H2].
    rewrite H1. done.
Qed.

(** X6. Between the handler and the thread no report is lost, doubled or
    reordered: however deliveries and turns of the thread alternate, what
    was posted followed by what is queued only grows at its end, and so
    does what was posted; turns of the thread alone leave the first as it
    is, moving reports from the queue to the posted ones in order. *)
Theorem X6_no_report_lost_or_doubled l : forall s,
  all_messages s `prefix_of` all_messages (acts s l) /\
  posted s `prefix_of` posted (acts s l) /\
  (forallb is_sender_turn l = true -> all_messages (acts s l) = all_messages s).
Proof.
  unfold acts. induction l as [|a l IH]; intros s; [done|].
  cbn [foldl forallb].
  destruct (all_messages_act s a) as (H1 & H2 & H3).
  destruct (IH (act s a)) as (H4 & H5 & H6).
  split; [by etrans|]. split; [by etrans|].
  intros [Ha Hl]%andb_true_iff. rewrite H6, H3; done.
Qed.

Lemma X6_no_report_lost_or_doubled_witness :
  forallb is_sender_turn [SenderTurn; SenderTurn; SenderTurn] = true
  /\ all_messages (acts two_queued [SenderTurn; SenderTurn; SenderTurn])
     = all_messages two_queued.
Proof.
  split; [reflexivity|].
  exact (proj2 (proj2 (X6_no_report_lost_or_doubled
                         [SenderTurn; SenderTurn; SenderTurn] two_queued))
           eq_refl).
Defined.

(** ** Listening time *)

Lemma reported_seconds_app q1 q2 :
  reported_seconds (q1 ++ q2) = reported_seconds q1 + reported_seconds q2.
Proof.
  unfold reported_seconds. induction q1 as [|m q1 IH]; cbn in *; lia.
Qed.

Lemma round_half_even_bounds num den :
  0 < den -> 0 <= num ->
  2 * Py.round_half_even num den * den <= 2 * num + den
  /\ 2 * num <= 2 * Py.round_half_even num den * den + den.
Proof.
  intros Hd Hn. unfold Py.round_half_even.
  pose proof (Z.div_mod num den ltac:(lia)) as Hdm.
  pose proof (Z.mod_pos_bound num den Hd) as Hm.
  repeat case_bool_decide; [nia|nia|].
  destruct (Z.even (num `div` den)); nia.
Qed.

(** Below [2 ^ 24] seconds the float quotient has its whole part right. *)
Lemma int_truediv_exact d :
  0 <= d < exact_span ->
  Py.int_truediv d 1000000000 = d `div` 1000000000.
Proof.
  unfold exact_span. intros Hd. unfold Py.int_truediv.
  case_bool_decide as H0; [by subst d|].
  assert (Hpos : 0 < d) by lia.
  rewrite Z.abs_eq, Z.sgn_pos, Z.mul_1_l by lia.
  change (Z.log2 1000000000) with 29.
  set (k := Z.log2 d - 29).
  set (reached := if bool_decide (0 <= k)
                  then bool_decide (1000000000 * 2 ^ k <= d)
                  else bool_decide (1000000000 <= d * 2 ^ (- k))).
  set (p := if reached then k else k - 1).
  assert (Hlog : 0 <= Z.log2 d < 54).
  { split; [apply Z.log2_nonneg|]. apply Z.log2_lt_pow2; lia. }
  assert (Hp : -30 <= p <= 23).
  { subst p. destruct reached eqn:Hr; [|lia]. split; [lia|].
    subst reached. destruct (decide (k <= 23)) as [|Hk]; [done|].
    rewrite bool_decide_eq_true_2 in Hr by lia.
    apply bool_decide_eq_true_1 in Hr.
    assert (2 ^ 24 <= 2 ^ k) by (apply Z.pow_le_mono_r; lia).
    lia. }
  rewrite Z.max_l by lia.
  rewrite !bool_decide_eq_false_2 by lia.
  set (S := 2 ^ (- (p - 52))).
  assert (HS : 2 ^ 29 <= S) by (apply Z.pow_le_mono_r; lia).
  destruct (round_half_even_bounds (d * S) 1000000000 ltac:(lia) ltac:(nia))
    as [Hup Hlo].
  set (m := Py.round_half_even (d * S) 1000000000) in *.
  pose proof (Z.div_mod d 1000000000 ltac:(lia)) as Hdm.
  pose proof (Z.mod_pos_bound d 1000000000 ltac:(lia)) as Hm.
  set (K := d `div` 1000000000) in *. set (f := d `mod` 1000000000) in *.
  symmetry. apply (Z.div_unique m S K (m - K * S)); [|lia].
  left. split; nia.
Qed.

(** From there on it may be a second too much. *)
Lemma int_truediv_rounds_up :
  Py.int_truediv 16777216999999999 1000000000 = 16777217.
Proof. by vm_compute. Qed.

Lemma elapsed_bound now last :
  last <= now -> now - last < exact_span ->
  1000000000 * elapsed now last <= now - last.
Proof.
  intros H Hs. unfold elapsed. rewrite int_truediv_exact by lia.
  pose proof (Z.mul_div_le (now - last) 1000000000 ltac:(lia)).
  pose proof (Z.div_pos (now - last) 1000000000 ltac:(lia) ltac:(lia)).
  lia.
Qed.

Ltac seconds :=
  unfold enqueued in *;
  cbn [mqueue last_report_time with_put with_clock with_current set_mqueue];
  rewrite ?omap_app, ?reported_seconds_app;
  unfold reported_seconds in *; cbn in *; lia.

Lemma within_elapsed_end e r cur :
  last_report_time r <= monotonic_ns e 0 ->
  monotonic_ns e 0 <= monotonic_ns e 1 ->
  monotonic_ns e 1 - last_report_time r < exact_span ->
  within_elapsed r (end_report_result e r cur).1 (monotonic_ns e 0)
  /\ within_elapsed r (with_current None (end_report_result e r cur).1)
       (monotonic_ns e 0).
Proof.
  intros H0 H1 Hs. unfold end_report_result, within_elapsed.
  pose proof (elapsed_bound _ _ H0 ltac:(lia)).
  destruct (Py.int cur); [destruct (_ !! cur)|]; cbn [fst]; seconds.
Qed.

Lemma within_elapsed_start e r r0 tid k hi :
  within_elapsed r0 r (monotonic_ns e k) ->
  monotonic_ns e k <= hi ->
  last_report_time r <= monotonic_ns e k ->
  within_elapsed r0 (start_report_result e r tid k).1 hi.
Proof.
  intros (H1 & H2 & H3) Hhi Hk. unfold start_report_result, within_elapsed.
  destruct (Py.int tid); [destruct (_ !! tid)|]; cbn [fst]; seconds.
Qed.

(** One delivery. *)
Lemma within_elapsed_deliver e r event :
  last_report_time r <= monotonic_ns e 0 ->
  monotonic_ns e 0 <= monotonic_ns e 1 ->
  monotonic_ns e 1 - last_report_time r < exact_span ->
  within_elapsed r (deliver e r event).1 (monotonic_ns e 1).
Proof.
  intros H0 H1 Hs.
  assert (Hsame : within_elapsed r r (monotonic_ns e 1)).
  { unfold within_elapsed. lia. }
  assert (Hup : forall r', within_elapsed r r' (monotonic_ns e 0) ->
                           within_elapsed r r' (monotonic_ns e 1)).
  { unfold within_elapsed. intros r'. lia. }
  destruct event as [st| | |]; try (rewrite deliver_eq; by cbn).
  destruct (state_changed_cases st) as [Hn|[tid Hp]].
  - rewrite (deliver_not_playing_qobuz _ _ _ Hn).
    destruct (current_track_id r) as [cur|]; [|done].
    destruct (within_elapsed_end e r cur H0 H1 Hs) as [Ha Hb].
    destruct (end_report_result e r cur) as [r' [x|[]]]; cbn [fst] in *;
      by apply Hup.
  - destruct (decide (current_track_id r = Some tid)) as [Hc|Hc].
    + rewrite (deliver_playing_same _ _ _ _ Hp Hc).
      apply Hup. by apply within_elapsed_end.
    + rewrite (deliver_playing_new _ _ _ _ Hp Hc).
      destruct (current_track_id r) as [cur|].
      * destruct (within_elapsed_end e r cur H0 H1 Hs) as [Ha _].
        destruct (end_report_result e r cur) as [r' [x|[]]]; cbn [fst] in *;
          [by apply Hup|].
        apply (within_elapsed_start e r' r tid 1); [by apply Hup|lia|].
        destruct Ha as (_ & Ha & _). lia.
      * apply (within_elapsed_start e r r tid 0); [|lia|lia].
        unfold within_elapsed. lia.
Qed.

Lemma clock_within_le trace : forall t0 t1,
  clock_within t0 trace t1 -> t0 <= t1.
Proof.
  induction trace as [|[e ev] trace IH]; intros t0 t1 H; [done|].
  destruct H as (t & H0 & H1 & Ht & Hc). apply IH in Hc. lia.
Qed.

(** X23. The reports never tell more listening than time has passed, as
    long as less than [2 ^ 24] seconds pass. With a monotonic clock that
    does not run backwards, whatever events are delivered, and whether the
    calls return or raise, the durations of the reports queued since a
    state [r] add up to no more than the time between [r]'s last reading
    of the clock and the last reading taken, which is not after the end of
    the trace, when the trace ends less than [2 ^ 24] seconds after [r]'s
    last reading. From [2 ^ 24] seconds on the seconds are no longer
    exact: [get_last_duration] divides as a float, and the quotient may be
    rounded up to the next second. *)
Theorem X23_reported_time_within_elapsed trace : forall r t0 t1,
  clock_within t0 trace t1 -> last_report_time r <= t0 ->
  t1 - last_report_time r < exact_span ->
  1000000000 * (reported_seconds (enqueued (run r trace))
                - reported_seconds (enqueued r))
  <= last_report_time (run r trace) - last_report_time r
  /\ last_report_time (run r trace) <= t1.
Proof.
  induction trace as [|[e ev] trace IH]; intros r t0 t1 Hc Hr Hs.
  - cbn in *. lia.
  - cbn [clock_within] in Hc. destruct Hc as (t & H0 & H1 & Ht & Hc).
    pose proof (clock_within_le _ _ _ Hc) as Hle.
    cbn [run].
    destruct (within_elapsed_deliver e r ev ltac:(lia) H1 ltac:(lia))
      as (Ha & Hb & Hd).
    destruct (IH (deliver e r ev).1 t t1 Hc ltac:(lia) ltac:(lia))
      as [IH1 IH2].
    split; [lia|done].
Qed.

Lemma X23_reported_time_within_elapsed_witness :
  (clock_within 5000000001 played_15_seconds 21000000000
   /\ last_report_time tracking_1 <= 5000000001
   /\ 21000000000 - last_report_time tracking_1 < exact_span)
  /\ reported_seconds (enqueued (run tracking_1 played_15_seconds)) = 15
  /\ 1000000000 * (reported_seconds
                     (enqueued (run tracking_1 played_15_seconds))
                   - reported_seconds (enqueued tracking_1))
     <= 21000000000 - last_report_time tracking_1.
Proof.
  assert (H1 : clock_within 5000000001 played_15_seconds 21000000000).
  { cbn. exists 10000000000. split; [lia|]. split; [lia|]. split; [lia|].
    exists 21000000000. lia. }
  assert (H2 : last_report_time tracking_1 <= 5000000001)
    by (vm_compute; discriminate).
  assert (H3 : 21000000000 - last_report_time tracking_1 < exact_span)
    by (vm_compute; reflexivity).
  split; [by repeat split|]. split; [by vm_compute|].
  destruct (X23_reported_time_within_elapsed played_15_seconds tracking_1
              5000000001 21000000000 H1 H2 H3) as [H4 H5].
  lia.
Defined.

End ReporterMoreProofs.

(** * More on the autoplay engine *)

Module AutoplayMoreProofs.
Import Autoplay AutoplayExamples AutoplayMore AutoplayProofs.

(** ** Fetching *)

Lemma answered_app l1 l2 : answered (l1 ++ l2) = (answered l1 + answered l2)%nat.
Proof. unfold answered. by rewrite filter_app, length_app. Qed.

Lemma serve_answered e s :
  answered (effects (serve e s).1) = answered (effects s) /\
  can_request_new (self (serve e s).1) = can_request_new (self s).
Proof.
  unfold serve. destruct (remaining_tracks (self s)); [done|].
  destruct (get_track_info e _); unfold with_self, log;
    cbn [fst effects self]; rewrite answered_app; cbn; split;
    (lia || done).
Qed.

Lemma throttled_call changes s c :
  throttled changes s ->
  throttled (changes + (if is_queue_change c then 1 else 0)) (call s c).1.
Proof.
  unfold throttled. intros I.
  destruct c as [ev|ev|e ev]; cbn [call is_queue_change].
  - destruct ev as [|added| |]; rewrite ?add_tracks_eq;
      cbn [add_tracks fst PyM.ret self effects with_self
           can_request_new with_can_request_new];
      destruct (can_request_new (self s)); lia.
  - destruct ev as [|?|indices|];
      try (cbn [remove_tracks fst PyM.ret];
           destruct (can_request_new (self s)); lia).
    rewrite remove_tracks_eq.
    destruct (del_seq _ _) as [l [|]]; [destruct (existsb is_qobuz l)|];
      cbn [fst self effects with_self can_request_new with_can_request_new
           with_tracks with_suggested with_remaining];
      destruct (can_request_new (self s)); lia.
  - rewrite Nat.add_0_r.
    destruct ev; try (cbn [add_recommendation fst PyM.ret]; done).
    rewrite add_recommendation_eq.
    destruct (remaining_tracks (self s)).
    + destruct (can_request_new (self s)) eqn:Hc.
      2: { cbn [fst]. by rewrite Hc. }
      rewrite _retrieve_new_recommendations_eq.
      destruct (qobuz_tracks (self s)).
      { destruct (serve_answered e s) as [-> ->]. by rewrite Hc. }
      destruct (suggest_params (self s)) as [params|]; cbn zeta.
      2: { cbn [fst]. by rewrite Hc. }
      destruct (post_suggest e params) as [req|].
      * match goal with |- context [serve e ?s1] =>
          destruct (serve_answered e s1) as [-> ->] end.
        unfold with_self, log. cbn [effects self can_request_new
          with_can_request_new]. rewrite answered_app.
        change (answered [PostSuggest params (Some req)]) with 1%nat. lia.
      * unfold log. cbn [fst effects self]. rewrite answered_app, Hc.
        change (answered [PostSuggest params None]) with 0%nat. lia.
    + by destruct (serve_answered e s) as [-> ->].
Qed.

(** X7. Batch fetches are throttled by the changes of the queue: from the
    initial state, whatever the calls and the answers, the provider has
    answered at most one batch fetch more than [add_tracks] and
    [remove_tracks] were called. A fetch that raised sets nothing, and is
    made again by the next request. *)
Theorem X7_one_fetch_per_queue_change calls :
  (answered (effects (run start calls)) <= queue_changes calls + 1)%nat.
Proof.
  assert (H : forall s n, throttled n s ->
                throttled (n + queue_changes calls) (run s calls)).
  { unfold run. induction calls as [|c calls IH]; intros s n I.
    - unfold queue_changes. cbn. by rewrite Nat.add_0_r.
    - cbn [foldl]. apply (throttled_call n s c) in I.
      apply IH in I. unfold queue_changes in *. cbn [filter].
      rewrite filter_cons. destruct (is_queue_change c); cbn in *.
      + rewrite decide_True by done. cbn.
        replace (n + S (length (filter (fun c0 => is_queue_change c0 = true)
                                  calls)))%nat
          with (n + 1 + length (filter (fun c0 => is_queue_change c0 = true)
                                  calls))%nat by lia.
        done.
      + rewrite decide_False by done. by rewrite Nat.add_0_r in I. }
  specialize (H start 0%nat). unfold throttled in H. cbn in H.
  specialize (H ltac:(lia)).
  destruct (can_request_new (self (run start calls))); lia.
Qed.

(** ** Serving *)

Lemma serve_one e s x rest :
  remaining_tracks (self s) = x :: rest -> knows_all e ->
  exists infos,
    add_recommendation RequestMoreTracksEvent e s =
      (with_self (with_suggested ({[x]} ∪ suggested_tracks (self s))
                    (with_remaining rest (self s)))
         (log [GetTrackInfo [x] (Some infos); PlayQueueAdd infos] s),
       inr tt).
Proof.
  intros Hrem He. rewrite add_recommendation_eq, Hrem. unfold serve.
  rewrite Hrem. destruct (He x) as [infos Hi]. rewrite Hi. eauto.
Qed.

(** X8. What waits in [remaining_tracks] is served first in, first out, one
    id for each request: with a browser that knows every track, [k]
    requests, of no more than wait, push the first [k] ids that wait in
    their order, record them in [suggested_tracks], leave the others
    waiting, and fetch nothing. *)
Theorem X8_served_first_in_first_out es : forall s,
  (length es <= length (remaining_tracks (self s)))%nat ->
  Forall knows_all es ->
  let s' := run s (ask_more es) in
  let k := length es in
  pushed (effects s') = pushed (effects s) ++ take k (remaining_tracks (self s))
  /\ remaining_tracks (self s') = drop k (remaining_tracks (self s))
  /\ suggested_tracks (self s')
     = list_to_set (take k (remaining_tracks (self s)))
       ∪ suggested_tracks (self s)
  /\ returned (effects s') = returned (effects s)
  /\ tracks (self s') = tracks (self s).
Proof.
  induction es as [|e es IH]; intros s Hlen Hk.
  - cbn. rewrite take_0, drop_0, app_nil_r. cbn.
    repeat split; try done. by rewrite union_empty_l_L.
  - apply Forall_cons in Hk as [He Hk].
    destruct (remaining_tracks (self s)) as [|x rest] eqn:Hrem;
      [cbn in Hlen; lia|].
    destruct (serve_one e s x rest Hrem He) as [infos Hs].
    cbn [ask_more fmap list_fmap]. unfold run. cbn [foldl call].
    fold (ask_more es).
    rewrite Hs. cbn [fst].
    match goal with |- context [foldl _ ?s1 (ask_more es)] =>
      specialize (IH s1) end.
    cbn [self with_self remaining_tracks with_suggested with_remaining
         suggested_tracks tracks effects log] in IH.
    destruct IH as (H1 & H2 & H3 & H4 & H5); [cbn in Hlen; lia|done|].
    unfold run in *. cbn [length take drop].
    rewrite H1, H2, H3, H4, H5.
    rewrite pushed_app, returned_app by (by intros ? [= <-]).
    cbn. rewrite !app_nil_r, <- app_assoc. cbn.
    repeat split; try done.
    by rewrite (assoc_L (∪)), (comm_L (∪) _ {[x]}).
Qed.

Lemma always_100_knows_all : knows_all always_100.
Proof. intros x. cbn. eauto. Qed.

Lemma X8_served_first_in_first_out_witness :
  ((length [always_100; always_100]
    <= length (remaining_tracks (self two_waiting)))%nat /\
   Forall knows_all [always_100; always_100])
  /\ pushed (effects (run two_waiting (ask_more [always_100; always_100])))
     = pushed (effects two_waiting)
       ++ take 2 (remaining_tracks (self two_waiting)).
Proof.
  assert (Hl : (length [always_100; always_100]
                <= length (remaining_tracks (self two_waiting)))%nat)
    by (cbn; lia).
  assert (Hk : Forall knows_all [always_100; always_100])
    by (repeat constructor; apply always_100_knows_all).
  split; [by split|].
  exact (proj1 (X8_served_first_in_first_out [always_100; always_100]
                  two_waiting Hl Hk)).
Defined.

(** X9. A batch fetch that raises leaves the object as it was: when an id
    does not convert nothing is posted, and when the provider does not
    answer only the request is made. [can_request_new] is not cleared, so
    the next request for more tracks fetches again. *)
Theorem X9_failed_fetch_changes_nothing e s x :
  (_retrieve_new_recommendations e s).2 = inl x ->
  self (_retrieve_new_recommendations e s).1 = self s /\
  ((x = Py.ValueError /\
    effects (_retrieve_new_recommendations e s).1 = effects s)
   \/ (x = Py.RequestError /\
       exists params,
         post_suggest e params = None /\
         effects (_retrieve_new_recommendations e s).1
         = effects s ++ [PostSuggest params None])).
Proof.
  rewrite _retrieve_new_recommendations_eq.
  destruct (qobuz_tracks (self s)); [done|].
  destruct (suggest_params (self s)) as [params|]; cbn zeta.
  - destruct (post_suggest e params) as [req|] eqn:Hp; [done|].
    cbn. intros [= <-]. split; [done|]. right. eauto.
  - cbn. intros [= <-]. split; [done|]. by left.
Qed.

Lemma X9_failed_fetch_changes_nothing_witness :
  (_retrieve_new_recommendations no_answer
     {| self := seven_two_suggested; effects := [] |}).2
  = inl Py.RequestError
  /\ self (_retrieve_new_recommendations no_answer
             {| self := seven_two_suggested; effects := [] |}).1
     = seven_two_suggested.
Proof.
  assert (H : (_retrieve_new_recommendations no_answer
                 {| self := seven_two_suggested; effects := [] |}).2
              = inl Py.RequestError) by (vm_compute; reflexivity).
  split; [exact H|].
  exact (proj1 (X9_failed_fetch_changes_nothing no_answer
                  {| self := seven_two_suggested; effects := [] |}
                  Py.RequestError H)).
Defined.

(** X10. When the browser raises on the id that was popped, the id is gone
    all the same: it is no longer waiting and it is recorded in
    [suggested_tracks], though nothing was pushed. *)
Theorem X10_recommendation_lost_when_lookup_raises e s x rest :
  remaining_tracks (self s) = x :: rest ->
  get_track_info e [x] = None ->
  let r := add_recommendation RequestMoreTracksEvent e s in
  r.2 = inl Py.RequestError
  /\ remaining_tracks (self r.1) = rest
  /\ x ∈ suggested_tracks (self r.1)
  /\ pushed (effects r.1) = pushed (effects s)
  /\ effects r.1 = effects s ++ [GetTrackInfo [x] None].
Proof.
  intros Hrem Hg r. subst r.
  rewrite add_recommendation_eq, Hrem. unfold serve. rewrite Hrem, Hg.
  cbn. split; [done|]. split; [done|]. split; [|split; [|done]].
  - apply elem_of_union. left. by apply elem_of_singleton.
  - rewrite pushed_app by (by intros ? [= <-]). cbn. by rewrite app_nil_r.
Qed.

Lemma X10_recommendation_lost_when_lookup_raises_witness :
  (remaining_tracks (self two_waiting) = IdInt 100 :: [IdInt 200] /\
   get_track_info no_answer [IdInt 100] = None)
  /\ remaining_tracks
       (self (add_recommendation RequestMoreTracksEvent no_answer
                two_waiting).1) = [IdInt 200]
  /\ IdInt 100 ∈ suggested_tracks
               (self (add_recommendation RequestMoreTracksEvent no_answer
                        two_waiting).1).
Proof.
  split; [by split|].
  destruct (X10_recommendation_lost_when_lookup_raises no_answer two_waiting
              (IdInt 100) [IdInt 200] eq_refl eq_refl) as (_ & H1 & H2 & _).
  by split.
Defined.

Lemma from_provider_call s c : from_provider s -> from_provider (call s c).1.
Proof.
  unfold from_provider. intros I.
  destruct c as [ev|ev|e ev]; cbn [call].
  - destruct ev; try done.
  - destruct ev as [|?|indices|]; try done.
    rewrite remove_tracks_eq.
    destruct (del_seq _ _) as [l [|]]; [destruct (existsb is_qobuz l)|];
      cbn; try done.
    intros x [H|H]; [set_solver|]. by apply elem_of_nil in H.
  - destruct ev; try done.
    rewrite add_recommendation_eq.
    assert (Hs : forall s0, (forall x,
        x ∈ suggested_tracks (self s0) \/ x ∈ remaining_tracks (self s0) ->
        x ∈ returned (effects s0)) ->
      forall x,
        x ∈ suggested_tracks (self (serve e s0).1)
        \/ x ∈ remaining_tracks (self (serve e s0).1) ->
        x ∈ returned (effects (serve e s0).1)).
    { intros s0 I0 x. unfold serve.
      destruct (remaining_tracks (self s0)) as [|y rest] eqn:Hrem.
      { cbn [fst]. intros Hx. apply I0. by rewrite Hrem in Hx. }
      assert (Hy : forall z,
        z ∈ ({[y]} ∪ suggested_tracks (self s0) : gset JsonId) \/ z ∈ rest ->
        z ∈ returned (effects s0)).
      { intros z [Hz|Hz].
        - apply elem_of_union in Hz as [Hz|Hz].
          + apply elem_of_singleton in Hz as ->. apply I0. right.
            apply elem_of_cons. by left.
          + apply I0. by left.
        - apply I0. right. apply elem_of_cons. by right. }
      destruct (get_track_info e [y]); cbn; rewrite returned_app; cbn;
        rewrite app_nil_r; apply Hy. }
    destruct (remaining_tracks (self s)) eqn:Hrem.
    2: { apply Hs. intros x. rewrite Hrem. apply I. }
    destruct (can_request_new (self s)).
    2: { cbn [fst]. intros x. rewrite Hrem. apply I. }
    rewrite _retrieve_new_recommendations_eq.
    destruct (qobuz_tracks (self s)).
    { apply Hs. intros x. rewrite Hrem. apply I. }
    destruct (suggest_params (self s)) as [params|]; cbn zeta.
    2: { cbn [fst]. intros x. rewrite Hrem. apply I. }
    destruct (post_suggest e params) as [req|].
    + apply Hs. cbn. intros x. rewrite returned_app. cbn.
      rewrite app_nil_r, elem_of_app. intros [H|H]; [|by right].
      left. apply I. by left.
    + cbn. intros x. rewrite returned_app, Hrem. cbn. rewrite app_nil_r.
      apply I.
Qed.

(** X11. The engine serves nothing of its own: from the initial state,
    whatever the calls, every id recorded in [suggested_tracks] and every
    id waiting in [remaining_tracks] is one the provider returned in a
    batch fetch. *)
Theorem X11_served_ids_come_from_provider calls x :
  x ∈ suggested_tracks (self (run start calls))
  \/ x ∈ remaining_tracks (self (run start calls)) ->
  x ∈ returned (effects (run start calls)).
Proof.
  assert (H : forall s, from_provider s -> from_provider (run s calls)).
  { unfold run. induction calls as [|c calls IH]; intros s I; [done|].
    cbn. apply IH. by apply from_provider_call. }
  apply (H start). intros y [Hy|Hy]; cbn in Hy.
  - set_solver.
  - by apply elem_of_nil in Hy.
Qed.

Lemma X11_served_ids_come_from_provider_witness :
  IdInt 100 ∈ suggested_tracks (self (run start recommended_twice))
  /\ IdInt 100 ∈ returned (effects (run start recommended_twice)).
Proof.
  assert (H : IdInt 100 ∈ suggested_tracks (self (run start recommended_twice))).
  { vm_compute. set_solver. }
  split; [exact H|].
  exact (X11_served_ids_come_from_provider recommended_twice (IdInt 100)
           (or_introl H)).
Defined.

(** ** Removal only removes *)

Lemma del_sublist {A} (l l' : list A) i :
  Py.del l i = Some l' ->
  l' `sublist_of` l /\ (length l' + 1 = length l)%nat.
Proof.
  unfold Py.del. intros H.
  assert (Hd : forall k : nat, (k < length l)%nat ->
            delete k l `sublist_of` l /\
            (length (delete k l) + 1 = length l)%nat).
  { intros k Hk. split; [apply sublist_delete|].
    rewrite length_delete by (by apply lookup_lt_is_Some). lia. }
  case_bool_decide as H1.
  - injection H as <-. apply Hd. lia.
  - case_bool_decide as H2; [|done]. injection H as <-. apply Hd. lia.
Qed.

Lemma del_seq_sublist {A} indices : forall l : list A,
  (del_seq l indices).1 `sublist_of` l /\
  exists k, (length (del_seq l indices).1 + k = length l)%nat /\
    if (del_seq l indices).2 then k = length indices
    else (k < length indices)%nat.
Proof.
  induction indices as [|i indices IH]; intros l; cbn [del_seq].
  - split; [done|]. exists 0%nat. cbn. split; [lia|done].
  - destruct (Py.del l i) as [l'|] eqn:Hd.
    + destruct (del_sublist _ _ _ Hd) as [Hs Hl].
      destruct (IH l') as (Hs' & k & Hk & Hok).
      split; [by etrans|]. exists (S k). split; [lia|].
      destruct (del_seq l' indices).2; cbn [length]; lia.
    + split; [done|]. exists 0%nat. cbn. split; lia.
Qed.

(** X12. [remove_tracks] never adds to the mirror nor reorders it: what is
    left is a sublist of what was there. When the call returns, exactly one
    entry for each index is gone. When an index is out of range the call
    raises [IndexError] part way: the deletions made for the indices before
    it stay, and the check for a provider track is skipped, so
    [remaining_tracks], [suggested_tracks] and [can_request_new] are as
    before. *)
Theorem X12_remove_tracks_only_removes indices e s :
  let r := remove_tracks (TracksRemovedEvent indices) e s in
  tracks (self r.1) `sublist_of` tracks (self s)
  /\ (r.2 = inr tt ->
      (length (tracks (self r.1)) + length indices
       = length (tracks (self s)))%nat)
  /\ (r.2 <> inr tt ->
      r.2 = inl Py.IndexError
      /\ (exists k, (k < length indices)%nat /\
            (length (tracks (self r.1)) + k = length (tracks (self s)))%nat)
      /\ remaining_tracks (self r.1) = remaining_tracks (self s)
      /\ suggested_tracks (self r.1) = suggested_tracks (self s)
      /\ can_request_new (self r.1) = can_request_new (self s)).
Proof.
  intros r. subst r. rewrite remove_tracks_eq.
  destruct (del_seq_sublist indices (tracks (self s))) as (Hs & k & Hk & Hok).
  destruct (del_seq (tracks (self s)) indices) as [l ok]. cbn [fst snd] in *.
  destruct ok.
  - subst k. destruct (existsb is_qobuz l); cbn; (split; [done|]);
      (split; [intros _; lia|done]).
  - cbn. split; [done|]. split; [done|]. intros _. split; [done|].
    split; [eauto|done].
Qed.

Lemma X12_remove_tracks_only_removes_witness :
  (remove_tracks (TracksRemovedEvent [2; 2]) no_env three_qobuz).2 <> inr tt
  /\ (remove_tracks (TracksRemovedEvent [2; 2]) no_env three_qobuz).2
     = inl Py.IndexError
  /\ remaining_tracks
       (self (remove_tracks (TracksRemovedEvent [2; 2]) no_env
                three_qobuz).1) = [IdInt 100].
Proof.
  assert (H : (remove_tracks (TracksRemovedEvent [2; 2]) no_env
                 three_qobuz).2 <> inr tt) by (vm_compute; discriminate).
  split; [exact H|].
  destruct (X12_remove_tracks_only_removes [2; 2] no_env three_qobuz)
    as (_ & _ & H3).
  destruct (H3 H) as (H4 & _ & H5 & _).
  split; [exact H4|exact H5].
Defined.

(** ** The mirror follows the queue events only *)

Lemma call_tracks s1 s2 c :
  tracks (self s1) = tracks (self s2) ->
  tracks (self (call s1 c).1) =
  if is_queue_change c then tracks (self (call s2 c).1)
  else tracks (self s2).
Proof.
  intros H. destruct c as [ev|ev|e ev]; cbn [call is_queue_change].
  - destruct ev; try done. rewrite !add_tracks_eq. cbn. by rewrite H.
  - destruct ev as [| |indices|]; try done. rewrite !remove_tracks_eq, H.
    destruct (del_seq _ _) as [l [|]]; [destruct (existsb is_qobuz l)|];
      done.
  - rewrite <- H. destruct ev; try done. rewrite add_recommendation_eq.
    destruct (remaining_tracks (self s1)); [|by apply serve_tracks].
    destruct (can_request_new (self s1)); [|done].
    rewrite _retrieve_new_recommendations_eq.
    destruct (qobuz_tracks (self s1)); [by rewrite serve_tracks|].
    destruct (suggest_params (self s1)) as [params|]; [|done]. cbn zeta.
    destruct (post_suggest e params); [|done]. by rewrite serve_tracks.
Qed.

(** X13. The mirror follows the events of the play queue and nothing else:
    after any calls it holds what the [add_tracks] and [remove_tracks]
    calls alone would have left. A request for more tracks never touches
    it, whether it returns or raises; a track the engine pushes enters the
    mirror only when the queue tells so. *)
Theorem X13_mirror_follows_queue_events calls s :
  tracks (self (run s calls))
  = tracks (self (run s (filter (fun c => is_queue_change c = true) calls))).
Proof.
  assert (H : forall s1 s2, tracks (self s1) = tracks (self s2) ->
    tracks (self (run s1 calls))
    = tracks (self (run s2 (filter (fun c => is_queue_change c = true)
                              calls)))).
  { unfold run. induction calls as [|c calls IH]; intros s1 s2 H12; [done|].
    cbn [foldl]. rewrite filter_cons.
    pose proof (call_tracks s1 s2 c H12) as Hc.
    destruct (is_queue_change c).
    - rewrite decide_True by done. cbn [foldl]. by apply IH.
    - rewrite decide_False by done. by apply IH. }
  by apply H.
Qed.

End AutoplayMoreProofs.
(** * The retrying transport *)

Module TransportProofs.
Import Transport.

Lemma retry_loop_done fuel self sup rr last s :
  read_retries self <= rr ->
  retry_loop fuel self sup rr last s = (s, Some (inl (exhausted last))).
Proof.
  intros H. destruct fuel; cbn; rewrite bool_decide_eq_false_2 by lia;
    by destruct last.
Qed.

Lemma retry_loop_retried fuel self sup rr last s :
  rr < read_retries self ->
  retried (sup (attempts s)) = true ->
  retry_loop (S fuel) self sup rr last s =
  retry_loop fuel self sup (rr + 1)
    (last_raised [sup (attempts s)] last)
    (slept (rr + 1) (attempted (sup (attempts s)) s)).
Proof.
  intros H Hr. cbn [retry_loop]. rewrite bool_decide_eq_true_2 by done.
  cbn zeta. destruct (sup (attempts s)) as [response|exc]; cbn in Hr |- *;
    by rewrite Hr.
Qed.

Lemma retry_loop_answer fuel self sup rr last s :
  rr < read_retries self ->
  retried (sup (attempts s)) = false ->
  retry_loop (S fuel) self sup rr last s =
  (attempted (sup (attempts s)) s, Some (result_of (sup (attempts s)))).
Proof.
  intros H Hr. cbn [retry_loop]. rewrite bool_decide_eq_true_2 by done.
  cbn zeta. destruct (sup (attempts s)) as [response|exc]; cbn in Hr |- *;
    by rewrite Hr.
Qed.

(** The loop up to the first outcome that is not retried. *)
Lemma retry_loop_first sup self k : forall fuel rr last s,
  rr + Z.of_nat k < read_retries self -> (k < fuel)%nat ->
  (forall j, (j < k)%nat -> retried (sup (attempts s + j)%nat) = true) ->
  retried (sup (attempts s + k)%nat) = false ->
  retry_loop fuel self sup rr last s =
  ({| attempts := attempts s + S k;
      effects := effects s ++ retries_log rr (sup <$> seq (attempts s) k)
                 ++ [Attempt (sup (attempts s + k)%nat)] |},
   Some (result_of (sup (attempts s + k)%nat))).
Proof.
  induction k as [|k IH]; intros fuel rr last s Hrr Hf Hall Hk;
    (destruct fuel as [|fuel]; [lia|]).
  - rewrite Nat.add_0_r in Hk. rewrite retry_loop_answer by (done || lia).
    rewrite !Nat.add_0_r. unfold attempted. cbn. f_equal. f_equal. lia.
  - rewrite retry_loop_retried; [|lia|].
    2: { specialize (Hall 0%nat ltac:(lia)). by rewrite Nat.add_0_r in Hall. }
    rewrite (IH fuel (rr + 1)); [|lia|lia|..].
    + cbn [attempted slept attempts effects seq fmap list_fmap retries_log].
      rewrite <- !app_assoc. cbn [app].
      replace (S (attempts s) + k)%nat with (attempts s + S k)%nat by lia.
      f_equal. f_equal. lia.
    + intros j Hj. cbn.
      replace (S (attempts s + j)) with (attempts s + S j)%nat by lia.
      apply Hall. lia.
    + cbn. replace (S (attempts s + k)) with (attempts s + S k)%nat by lia.
      done.
Qed.

Lemma last_raised_cons o l last :
  last_raised (o :: l) last = last_raised l (last_raised [o] last).
Proof. by destruct o. Qed.

(** The loop when every outcome is retried. *)
Lemma retry_loop_exhaust sup self n : forall fuel rr last s,
  read_retries self <= rr + Z.of_nat n ->
  rr + Z.of_nat n <= Z.max rr (read_retries self) -> (n <= fuel)%nat ->
  (forall j, (j < n)%nat -> retried (sup (attempts s + j)%nat) = true) ->
  retry_loop fuel self sup rr last s =
  ({| attempts := attempts s + n;
      effects := effects s ++ retries_log rr (sup <$> seq (attempts s) n) |},
   Some (inl (exhausted (last_raised (sup <$> seq (attempts s) n) last)))).
Proof.
  induction n as [|n IH]; intros fuel rr last s Hrr Hmax Hf Hall.
  - rewrite retry_loop_done by lia. cbn. rewrite app_nil_r, Nat.add_0_r.
    by destruct s.
  - destruct fuel as [|fuel]; [lia|].
    rewrite retry_loop_retried; [|lia|].
    2: { specialize (Hall 0%nat ltac:(lia)). by rewrite Nat.add_0_r in Hall. }
    rewrite (IH fuel (rr + 1)); [|lia|lia|lia|].
    + cbn [attempted slept attempts effects seq fmap list_fmap retries_log].
      rewrite <- !app_assoc. cbn [app].
      replace (S (attempts s) + n)%nat with (attempts s + S n)%nat by lia.
      by destruct (sup (attempts s)).
    + intros j Hj. cbn.
      replace (S (attempts s + j)) with (attempts s + S j)%nat by lia.
      apply Hall. lia.
Qed.

Lemma total_sleep_app l1 l2 :
  total_sleep (l1 ++ l2) = total_sleep l1 + total_sleep l2.
Proof.
  unfold total_sleep. induction l1 as [|[o|k] l1 IH]; cbn in *; lia.
Qed.

Lemma total_sleep_retries l : forall k,
  2 * total_sleep (retries_log k l)
  = Z.of_nat (length l) * (2 * k + Z.of_nat (length l) + 1).
Proof.
  induction l as [|o l IH]; intros k; [done|].
  cbn [retries_log length]. unfold total_sleep in *. cbn [foldr].
  specialize (IH (k + 1)). nia.
Qed.

(** Either some outcome among the first [n] is not retried, the ones
    before it being retried, or all are retried. *)
Lemma first_not_retried (sup : nat -> Outcome) n :
  (exists k, (k < n)%nat /\ retried (sup k) = false /\
             forall j, (j < k)%nat -> retried (sup j) = true)
  \/ (forall j, (j < n)%nat -> retried (sup j) = true).
Proof.
  induction n as [|n [(k & Hk & Hr & Hb)|Hall]].
  - right. intros j Hj. lia.
  - left. exists k. split; [lia|done].
  - destruct (retried (sup n)) eqn:Hn.
    + right. intros j Hj. destruct (decide (j = n)) as [->|]; [done|].
      apply Hall. lia.
    + left. exists n. split; [lia|]. split; [done|]. intros j Hj.
      by apply Hall.
Qed.

(** X14. [handle_request] always comes to an end, and hands the transport
    below at most [read_retries] requests. A response it returns is never
    a server error (500 to 599): it is what the last attempt returned.
    With [read_retries] at zero or below it raises [RuntimeError] without
    any attempt. *)
Theorem X14_never_returns_server_error self sup :
  exists s res,
    handle_request self sup = (s, Some res)
    /\ (Z.of_nat (attempts s) <= Z.max 0 (read_retries self))
    /\ (forall response, res = inr response ->
          is_server_error response = false
          /\ exists k, attempts s = S k /\ sup k = Returns response)
    /\ (read_retries self <= 0 ->
        s = fresh
        /\ res = inl (RuntimeError
                        "handle_request failed without exception")).
Proof.
  unfold handle_request.
  destruct (first_not_retried sup (Z.to_nat (read_retries self)))
    as [(k & Hk & Hr & Hb)|Hall].
  - rewrite (retry_loop_first sup self k); cbn [attempts fresh];
      [|lia|lia|done|done].
    eexists _, _. split; [done|]. cbn [attempts Nat.add]. split; [lia|].
    split.
    + intros response Hres. destruct (sup k) as [r|x] eqn:Hs; cbn in Hres;
        [|done].
      injection Hres as ->. split; [exact Hr|]. by exists k.
    + intros H. lia.
  - rewrite (retry_loop_exhaust sup self (Z.to_nat (read_retries self)));
      cbn [attempts fresh]; [|lia|lia|lia|done].
    eexists _, _. split; [done|]. cbn [attempts]. split; [lia|].
    split; [done|]. intros H.
    replace (Z.to_nat (read_retries self)) with 0%nat by lia. done.
Qed.

Lemma X14_never_returns_server_error_witness :
  exists s response,
    handle_request client_transport recovers = (s, Some (inr response))
    /\ is_server_error response = false.
Proof.
  destruct (X14_never_returns_server_error client_transport recovers)
    as (s & res & H & _ & Hr & _).
  assert (Hres : res = inr ok).
  { vm_compute in H. by injection H as _ <-. }
  exists s, ok. rewrite H, Hres. split; [done|].
  exact (proj1 (Hr ok Hres)).
Defined.

(** X15. The caller gets the first outcome that is not retried, a response
    that is no server error or an exception the loop does not catch: when
    the outcomes before the [k]-th are server errors or caught exceptions
    and [k] is below [read_retries], the [k]-th outcome is the result,
    after [k + 1] attempts and [k] sleeps of 1, 2, ... [k] half seconds,
    [k * (k + 1) / 4] seconds in all. *)
Theorem X15_first_outcome_not_retried self sup (k : nat) :
  Z.of_nat k < read_retries self ->
  (forall j, (j < k)%nat -> retried (sup j) = true) ->
  retried (sup k) = false ->
  handle_request self sup =
    ({| attempts := S k;
        effects := retries_log 0 (sup <$> seq 0 k) ++ [Attempt (sup k)] |},
     Some (result_of (sup k)))
  /\ 2 * total_sleep (effects (handle_request self sup).1)
     = Z.of_nat k * (Z.of_nat k + 1).
Proof.
  intros Hk Hb Hr. unfold handle_request.
  rewrite (retry_loop_first sup self k); cbn [attempts fresh Nat.add];
    [|lia|lia|done|done].
  split; [done|].
  cbn [fst effects fresh app]. rewrite total_sleep_app.
  pose proof (total_sleep_retries (sup <$> seq 0 k) 0) as H.
  rewrite length_fmap, length_seq in H.
  change (total_sleep [Attempt (sup k)]) with 0. lia.
Qed.

Lemma X15_first_outcome_not_retried_witness :
  (Z.of_nat 2 < read_retries client_transport
   /\ (forall j, (j < 2)%nat -> retried (recovers j) = true)
   /\ retried (recovers 2) = false)
  /\ (handle_request client_transport recovers).2 = Some (inr ok)
  /\ total_sleep (effects (handle_request client_transport recovers).1) = 3.
Proof.
  assert (H1 : Z.of_nat 2 < read_retries client_transport) by (cbn; lia).
  assert (H2 : forall j, (j < 2)%nat -> retried (recovers j) = true).
  { intros [|[|j]] Hj; [done|done|lia]. }
  assert (H3 : retried (recovers 2) = false) by done.
  split; [by repeat split|].
  destruct (X15_first_outcome_not_retried client_transport recovers 2
              H1 H2 H3) as [H4 H5].
  split; [by rewrite H4|]. cbn in H5. lia.
Defined.

(** X16. When every attempt is retried the loop gives up after
    [read_retries] attempts, having slept after each of them, also after
    the last: 1, 2, ... [read_retries] half seconds. What it raises is the
    exception of the last attempt that raised, also when later attempts
    were answered by a server error, and [RuntimeError] when no attempt
    raised: the status of a server error never reaches the caller. *)
Theorem X16_gives_up_after_read_retries self sup :
  let n := Z.to_nat (read_retries self) in
  (forall j, (j < n)%nat -> retried (sup j) = true) ->
  handle_request self sup =
    ({| attempts := n; effects := retries_log 0 (sup <$> seq 0 n) |},
     Some (inl (exhausted (last_raised (sup <$> seq 0 n) None))))
  /\ 2 * total_sleep (effects (handle_request self sup).1)
     = Z.of_nat n * (Z.of_nat n + 1).
Proof.
  intros n Hall. unfold handle_request. fold n.
  rewrite (retry_loop_exhaust sup self n); cbn [attempts fresh Nat.add];
    [|lia|lia|lia|done].
  split; [done|]. cbn [fst effects fresh app].
  pose proof (total_sleep_retries (sup <$> seq 0 n) 0) as H.
  rewrite length_fmap, length_seq in H. lia.
Qed.

Lemma X16_gives_up_after_read_retries_witness :
  (forall j, (j < Z.to_nat (read_retries client_transport))%nat ->
     retried (timeout_then_503 j) = true)
  /\ (handle_request client_transport timeout_then_503).2
     = Some (inl (Httpx ReadTimeout))
  /\ total_sleep
       (effects (handle_request client_transport timeout_then_503).1) = 6.
Proof.
  assert (H : forall j, (j < Z.to_nat (read_retries client_transport))%nat ->
                retried (timeout_then_503 j) = true).
  { intros [|[|[|j]]] Hj; [done|done|done|]. cbn in Hj. lia. }
  split; [exact H|].
  destruct (X16_gives_up_after_read_retries client_transport
              timeout_then_503 H) as [H1 H2].
  split; [by rewrite H1|]. cbn in H2. lia.
Defined.

End TransportProofs.
(** * The client and the track browser *)

Module QobuzProofs.
Import Qobuz.

(** ** [int(str(n))] *)

Lemma digit_char_spec d :
  0 <= d < 10 ->
  Py.is_digit (PyStr.digit_char d) = true
  /\ Py.digit_value (PyStr.digit_char d) = d
  /\ Py.is_space (PyStr.digit_char d) = false
  /\ PyStr.digit_char d <> "_"%char
  /\ PyStr.digit_char d <> "-"%char
  /\ PyStr.digit_char d <> "+"%char.
Proof.
  intros H.
  assert (Hd : d = 0 \/ d = 1 \/ d = 2 \/ d = 3 \/ d = 4 \/ d = 5 \/ d = 6
               \/ d = 7 \/ d = 8 \/ d = 9) by lia.
  repeat (destruct Hd as [->|Hd]); try subst d; by vm_compute.
Qed.

Lemma digits_value l : forall acc sep,
  Forall (fun c => Py.is_digit c = true) l -> l <> [] ->
  Py.digits acc sep l = Some (PyStr.value acc l).
Proof.
  induction l as [|c l IH]; intros acc sep Hl Hne; [done|].
  apply Forall_cons in Hl as [Hc Hl]. cbn [Py.digits]. rewrite Hc.
  destruct l as [|c' l]; [done|]. by rewrite IH.
Qed.

Lemma digits_of_app fuel : forall n acc,
  PyStr.digits_of fuel n acc = PyStr.digits_of fuel n [] ++ acc.
Proof.
  induction fuel as [|fuel IH]; intros n acc; [done|].
  cbn [PyStr.digits_of]. case_bool_decide; [done|].
  rewrite IH, (IH _ [_]), <- app_assoc. done.
Qed.

Lemma digits_of_spec fuel : forall n,
  0 <= n < 2 ^ Z.of_nat fuel -> (0 < fuel)%nat ->
  let l := PyStr.digits_of fuel n [] in
  Forall (fun c => Py.is_digit c = true) l
  /\ Forall (fun c => Py.is_space c = false) l
  /\ l <> []
  /\ (forall c, head l = Some c -> c <> "-"%char /\ c <> "+"%char)
  /\ PyStr.value 0 l = n.
Proof.
  induction fuel as [|fuel IH]; intros n Hn Hf l; subst l; [lia|].
  cbn [PyStr.digits_of].
  assert (Hm : 0 <= n mod 10 < 10) by (apply Z.mod_pos_bound; lia).
  destruct (digit_char_spec _ Hm) as (H1 & H2 & H3 & H4 & H5 & H6).
  case_bool_decide as Hlt.
  - split; [by constructor|]. split; [by constructor|]. split; [done|].
    split; [by intros c [= <-]|].
    cbn. rewrite H2. rewrite Z.mod_small by lia. lia.
  - rewrite digits_of_app.
    assert (Hq : 0 <= n `div` 10 < 2 ^ Z.of_nat fuel).
    { split; [apply Z.div_pos; lia|].
      apply Z.div_lt_upper_bound; [lia|].
      rewrite Nat2Z.inj_succ, Z.pow_succ_r in Hn by lia. lia. }
    assert (Hq1 : 1 <= n `div` 10).
    { apply Z.div_le_lower_bound; lia. }
    assert (Hf' : (0 < fuel)%nat).
    { destruct fuel; [cbn in Hq; lia|lia]. }
    destruct (IH _ Hq Hf') as (I1 & I2 & I3 & I4 & I5).
    split; [apply Forall_app; split; [done|by constructor]|].
    split; [apply Forall_app; split; [done|by constructor]|].
    split; [by destruct (PyStr.digits_of fuel (n `div` 10) [])|].
    split.
    { intros c Hc. apply I4.
      by destruct (PyStr.digits_of fuel (n `div` 10) []). }
    unfold PyStr.value in *. rewrite foldl_app. cbn [foldl].
    rewrite I5, H2.
    pose proof (Z.div_mod n 10 ltac:(lia)). lia.
Qed.

Lemma decimal_spec n :
  0 <= n ->
  let l := PyStr.decimal n in
  Forall (fun c => Py.is_digit c = true) l
  /\ Forall (fun c => Py.is_space c = false) l
  /\ l <> []
  /\ (forall c, head l = Some c -> c <> "-"%char /\ c <> "+"%char)
  /\ PyStr.value 0 l = n.
Proof.
  intros Hn l. subst l. unfold PyStr.decimal.
  assert (H : 0 <= n < 2 ^ Z.of_nat (S (Z.to_nat (Z.log2 n)))).
  { split; [done|]. rewrite Nat2Z.inj_succ, Z2Nat.id by apply Z.log2_nonneg.
    destruct (decide (n = 0)) as [->|]; [done|].
    apply Z.log2_spec. lia. }
  by apply digits_of_spec; [|lia].
Qed.

Lemma lstrip_no_space c l :
  Py.is_space c = false -> Py.lstrip (c :: l) = c :: l.
Proof. intros H. cbn. by rewrite H. Qed.

(** Stripping leaves a string alone that neither starts nor ends with
    white space. *)
Lemma strip_id c l :
  Py.is_space c = false ->
  (forall c', last (c :: l) = Some c' -> Py.is_space c' = false) ->
  Py.strip (c :: l) = c :: l.
Proof.
  intros Hc Hl. unfold Py.strip. rewrite lstrip_no_space by done.
  destruct (rev (c :: l)) as [|c' l'] eqn:Hr.
  { apply (f_equal (@length _)) in Hr. rewrite length_rev in Hr. done. }
  assert (Hlast : last (c :: l) = Some c').
  { rewrite <- (rev_involutive (c :: l)), Hr. cbn [rev].
    by rewrite last_snoc. }
  rewrite lstrip_no_space by (by apply Hl).
  by rewrite <- Hr, rev_involutive.
Qed.

Lemma literal_digits l :
  Forall (fun c => Py.is_digit c = true) l -> l <> [] ->
  (length l <= Py.max_str_digits)%nat ->
  Py.literal l = Some (PyStr.value 0 l).
Proof.
  intros Hl Hne Hlen. unfold Py.literal.
  assert (Hf : filter (fun c => Py.is_digit c = true) l = l).
  { clear Hne Hlen. induction Hl as [|c l Hc Hl IH]; [done|].
    by rewrite filter_cons_True, IH. }
  rewrite Hf, bool_decide_eq_false_2 by lia. by apply digits_value.
Qed.

(** [int(str(n))] is [n]. *)
Lemma int_str n :
  PyStr.within_limit n = true -> Py.int (PyStr.str n) = Some n.
Proof.
  intros Hlim. apply bool_decide_eq_true_1 in Hlim.
  unfold PyStr.str, Py.int. case_bool_decide as Hneg.
  - rewrite Z.abs_neq in Hlim by lia.
    destruct (decimal_spec (- n) ltac:(lia)) as (H1 & H2 & H3 & H4 & H5).
    cbn [list_ascii_of_string]. rewrite list_ascii_of_string_of_list_ascii.
    destruct (PyStr.decimal (- n)) as [|c l] eqn:Hd; [done|].
    rewrite strip_id; [| done |].
    2: { intros c' Hc'. cbn [last] in Hc'.
         assert (Hin : c' ∈ c :: l).
         { apply last_Some in Hc' as [l'' Hl'']. rewrite Hl''.
           apply elem_of_app. right. by apply list_elem_of_singleton. }
         rewrite Forall_forall in H2. by apply H2. }
    rewrite bool_decide_eq_true_2 by done.
    rewrite literal_digits, H5 by done. cbn. f_equal. lia.
  - rewrite Z.abs_eq in Hlim by lia.
    destruct (decimal_spec n ltac:(lia)) as (H1 & H2 & H3 & H4 & H5).
    rewrite list_ascii_of_string_of_list_ascii.
    destruct (PyStr.decimal n) as [|c l] eqn:Hd; [done|].
    destruct (H4 c eq_refl) as [Hm Hp].
    apply Forall_cons in H2 as Hsp. destruct Hsp as [Hc Hsp].
    rewrite strip_id; [| done |].
    2: { intros c' Hc'.
         assert (Hin : c' ∈ c :: l).
         { apply last_Some in Hc' as [l'' Hl'']. rewrite Hl''.
           apply elem_of_app. right. by apply list_elem_of_singleton. }
         rewrite Forall_forall in H2. by apply H2. }
    rewrite !bool_decide_eq_false_2 by done.
    by rewrite literal_digits, H5.
Qed.

(** ** The track-URL lookup *)

Lemma try_get_spec n rq e : forall s,
  exists k, (k <= n)%nat /\
    self (try_get n rq e s).1 = self s /\
    requests (try_get n rq e s).1
    = requests s ++ replicate k (GetFileUrl rq) /\
    match (try_get n rq e s).2 with
    | inr (Some r) =>
        (1 <= k)%nat /\
        session_get e (length (requests s) + k - 1) rq = Got r
    | inr None => k = n
    | inl x => (1 <= k)%nat /\ exists name, x = OtherError name
    end.
Proof.
  induction n as [|n IH]; intros s.
  - exists 0%nat. cbn. by rewrite app_nil_r.
  - cbn [try_get]. unfold bind, get_file_url. cbn beta iota.
    destruct (session_get e (length (requests s)) rq) as [r| |name] eqn:Ho.
    + exists 1%nat. cbn. split; [lia|]. split; [done|]. split; [done|].
      split; [lia|]. by replace (length (requests s) + 1 - 1)%nat
                          with (length (requests s)) by lia.
    + destruct (IH {| self := self s;
                      requests := requests s ++ [GetFileUrl rq] |})
        as (k & Hk & Hs & Hr & Hres).
      exists (S k). split; [lia|]. split; [done|].
      split; [by rewrite Hr; cbn; rewrite <- app_assoc|].
      destruct (try_get n rq e _).2 as [x|[r|]];
        cbn [requests] in Hres; rewrite ?length_app in Hres; cbn in Hres.
      * split; [lia|]. by destruct Hres.
      * split; [lia|]. destruct Hres as [Hk1 Hres]. rewrite <- Hres.
        f_equal. lia.
      * lia.
    + exists 1%nat. cbn. split; [lia|]. split; [done|]. split; [done|].
      split; [lia|]. eauto.
Qed.

Lemma get_track_url_eq track_id fmt_id sec e s :
  get_track_url track_id fmt_id sec e s =
  if bool_decide (fmt_id ∉ qualities) then (s, inl InvalidQuality)
  else if negb (PyStr.within_limit track_id) then (s, inl ValueError)
  else
    match try_get 3 (file_url_request (self s) track_id fmt_id sec) e s with
    | (s1, inl x) => (s1, inl x)
    | (s1, inr None) => (s1, inl ConnectionError)
    | (s1, inr (Some r)) =>
        if bool_decide (status_code r = 400) then
          (s1, inl (match json r with
                    | Some _ => InvalidAppSecretError
                    | None => JSONDecodeError
                    end))
        else if raises_for_status r then (s1, inl HTTPStatusError)
        else
          match json r with
          | None => (s1, inl JSONDecodeError)
          | Some j =>
              ({| self := with_cache
                            (<[PyStr.str track_id := j]>
                               (track_url_response_cache (self s1)))
                            (self s1);
                  requests := requests s1 |}, inr j)
          end
    end.
Proof.
  unfold get_track_url. case_bool_decide; [done|].
  destruct (PyStr.within_limit track_id); [|done]. cbn [negb].
  unfold bind at 1. unfold get_self at 1. cbn zeta.
  fold (file_url_request (self s) track_id fmt_id sec).
  unfold bind at 1.
  destruct (try_get 3 _ e s) as [s1 [x|[r|]]]; [done| |done].
  case_bool_decide.
  - unfold bind, r_json, raise, ret. by destruct (json r).
  - unfold bind, raise_for_status, r_json, raise, ret, modify.
    destruct (raises_for_status r); [done|].
    by destruct (json r).
Qed.

Ltac error_case k :=
  split; [done|]; exists k; split; [done|]; split; [done|];
  split; [done|]; split; [split; [done|by intros ?]|];
  split; [done|]; try done.

Lemma get_track_url_spec track_id fmt_id sec e s :
  let r := get_track_url track_id fmt_id sec e s in
  let rq := file_url_request (self s) track_id fmt_id sec in
  with_cache (track_url_response_cache (self s)) (self r.1) = self s
  /\ exists k, (k <= 3)%nat /\
      requests r.1 = requests s ++ replicate k (GetFileUrl rq) /\
      match r.2 with
      | inr j =>
          fmt_id ∈ qualities /\ (1 <= k)%nat /\
          track_url_response_cache (self r.1)
          = <[PyStr.str track_id := j]> (track_url_response_cache (self s))
          /\ exists resp,
               session_get e (length (requests s) + k - 1) rq = Got resp
               /\ status_code resp <> 400
               /\ raises_for_status resp = false /\ json resp = Some j
      | inl x =>
          track_url_response_cache (self r.1)
          = track_url_response_cache (self s)
          /\ (x = InvalidQuality <-> fmt_id ∉ qualities)
          /\ (fmt_id ∉ qualities -> k = 0%nat)
          /\ (x = InvalidAppSecretError ->
              exists resp,
                session_get e (length (requests s) + k - 1) rq = Got resp
                /\ status_code resp = 400 /\ is_Some (json resp))
      end.
Proof.
  intros r rq. subst r. rewrite get_track_url_eq. fold rq.
  assert (Hid : with_cache (track_url_response_cache (self s)) (self s)
                = self s) by (by destruct (self s)).
  case_bool_decide as Hq.
  { cbn. split; [done|]. exists 0%nat. cbn.
    rewrite app_nil_r. repeat split; try done; lia. }
  destruct (PyStr.within_limit track_id) eqn:Hlim; cbn [negb].
  2: { cbn. split; [done|]. exists 0%nat. cbn. rewrite app_nil_r.
       split; [lia|]. split; [done|]. split; [done|].
       split; [by split|]. split; [done|]. done. }
  destruct (try_get_spec 3 rq e s) as (k & Hk & Hs & Hr & Hres).
  destruct (try_get 3 rq e s) as [s1 [x|[resp|]]]; cbn [fst snd] in *.
  - (* another exception went through *)
    destruct Hres as [Hk1 [name ->]]. rewrite Hs. error_case k.
  - destruct Hres as [Hk1 Hget].
    case_bool_decide as H400.
    + cbn [fst snd]. rewrite Hs.
      destruct (json resp) as [j|] eqn:Hj; error_case k.
      intros _. exists resp. by rewrite Hj.
    + destruct (raises_for_status resp) eqn:Hraise.
      { cbn [fst snd]. rewrite Hs. error_case k. }
      destruct (json resp) as [j|] eqn:Hj.
      2: { cbn [fst snd]. rewrite Hs. error_case k. }
      cbn [fst snd self requests]. rewrite Hs.
      split; [by destruct (self s)|]. exists k.
      split; [done|]. split; [done|]. split; [done|].
      split; [done|]. split; [done|]. by exists resp.
  - (* three connection errors *)
    cbn [fst snd]. rewrite Hs. error_case k.
Qed.

(** X17. [get_track_url] writes the cache only when it returns, and then
    only the entry of the track: the answer is stored under
    [str(track_id)]. A call that raises leaves the cache as it was. A
    quality other than 5, 6, 7 and 27 raises [InvalidQuality], and only
    that does, before any request is made. At most three requests are
    made, all the same, and nothing but the cache is ever changed. *)
Theorem X17_cache_written_only_on_success track_id fmt_id sec e s :
  let r := get_track_url track_id fmt_id sec e s in
  (forall j, r.2 = inr j ->
     fmt_id ∈ qualities /\
     track_url_response_cache (self r.1)
     = <[PyStr.str track_id := j]> (track_url_response_cache (self s)))
  /\ (forall x, r.2 = inl x ->
       track_url_response_cache (self r.1)
       = track_url_response_cache (self s)
       /\ (x = InvalidQuality <-> fmt_id ∉ qualities))
  /\ (fmt_id ∉ qualities -> requests r.1 = requests s)
  /\ (exists k, (k <= 3)%nat /\
        requests r.1
        = requests s
          ++ replicate k
               (GetFileUrl (file_url_request (self s) track_id fmt_id sec)))
  /\ with_cache (track_url_response_cache (self s)) (self r.1) = self s.
Proof.
  intros r.
  destruct (get_track_url_spec track_id fmt_id sec e s)
    as (Hself & k & Hk & Hreq & Hres).
  fold r in Hself, Hreq, Hres.
  split; [|split; [|split; [|split]]].
  - intros j Hj. rewrite Hj in Hres. by destruct Hres as (? & ? & ? & ?).
  - intros x Hx. rewrite Hx in Hres. by destruct Hres as (? & ? & ?).
  - intros Hq. destruct r.2 as [x|j].
    + destruct Hres as (_ & _ & H0 & _). rewrite Hreq, (H0 Hq). cbn.
      by rewrite app_nil_r.
    + by destruct Hres as [Hin _].
  - by exists k.
  - done.
Qed.

Lemma X17_cache_written_only_on_success_witness :
  (get_track_url 123 27 None takes_s3
     {| self := with_sec (Some "s3") (self logged_in); requests := [] |}).2
  = inr flac_url
  /\ track_url_response_cache
       (self (get_track_url 123 27 None takes_s3
                {| self := with_sec (Some "s3") (self logged_in);
                   requests := [] |}).1)
     = <["123" := flac_url]> ∅.
Proof.
  assert (H : (get_track_url 123 27 None takes_s3
                 {| self := with_sec (Some "s3") (self logged_in);
                    requests := [] |}).2 = inr flac_url)
    by (vm_compute; reflexivity).
  split; [exact H|].
  exact (proj2 (proj1 (X17_cache_written_only_on_success 123 27 None takes_s3
                         _) flac_url H)).
Defined.

(** ** The secrets *)

Lemma test_secret_spec secret e s :
  let r := test_secret secret e s in
  with_cache (track_url_response_cache (self s)) (self r.1) = self s
  /\ (exists k, (k <= 3)%nat /\
        requests r.1 = requests s ++ replicate k (GetFileUrl (probe secret)))
  /\ match r.2 with
     | inr true =>
         exists j, track_url_response_cache (self r.1)
                   = <["5966783" := j]> (track_url_response_cache (self s))
     | inr false =>
         track_url_response_cache (self r.1)
         = track_url_response_cache (self s)
     | inl x =>
         track_url_response_cache (self r.1)
         = track_url_response_cache (self s)
         /\ x <> InvalidAppSecretError
     end.
Proof.
  intros r. subst r. unfold test_secret.
  destruct (get_track_url_spec 5966783 5 (Some secret) e s)
    as (Hself & k & Hk & Hreq & Hres).
  change (file_url_request (self s) 5966783 5 (Some secret))
    with (probe secret) in Hreq, Hres.
  destruct (get_track_url 5966783 5 (Some secret) e s) as [s1 [x|j]];
    cbn [fst snd] in *.
  - destruct Hres as (Hc & _).
    destruct x; cbn [fst snd]; (split; [done|]); (split; [by exists k|]);
      done.
  - split; [done|]. split; [by exists k|].
    destruct Hres as (_ & _ & Hc & _). by exists j.
Qed.

Lemma try_get_answered rq e s r n :
  session_get e (length (requests s)) rq = Got r ->
  try_get (S n) rq e s =
  ({| self := self s; requests := requests s ++ [GetFileUrl rq] |},
   inr (Some r)).
Proof.
  intros H. cbn [try_get]. unfold bind, get_file_url. cbn beta iota.
  by rewrite H.
Qed.

Lemma test_secret_rejected secret e s :
  rejected e secret ->
  test_secret secret e s =
  ({| self := self s; requests := requests s ++ [GetFileUrl (probe secret)] |},
   inr false).
Proof.
  intros (r & Ha & H400 & [j Hj]). unfold test_secret.
  rewrite get_track_url_eq. cbn [bool_decide decide_rel].
  rewrite bool_decide_eq_false_2.
  2: { intros Hn. apply Hn. unfold qualities. set_solver. }
  change (file_url_request (self s) 5966783 5 (Some secret))
    with (probe secret).
  rewrite (try_get_answered _ _ _ r) by apply Ha.
  by rewrite bool_decide_eq_true_2, Hj.
Qed.

Lemma test_secret_accepted secret j e s :
  accepted e secret j ->
  test_secret secret e s =
  ({| self := with_cache (<["5966783" := j]>
                            (track_url_response_cache (self s))) (self s);
      requests := requests s ++ [GetFileUrl (probe secret)] |},
   inr true).
Proof.
  intros (r & Ha & H400 & Hraise & Hj). unfold test_secret.
  rewrite get_track_url_eq.
  rewrite bool_decide_eq_false_2.
  2: { intros Hn. apply Hn. unfold qualities. set_solver. }
  change (file_url_request (self s) 5966783 5 (Some secret))
    with (probe secret).
  rewrite (try_get_answered _ _ _ r) by apply Ha.
  by rewrite bool_decide_eq_false_2, Hraise, Hj.
Qed.

Lemma try_secrets_first pre secret post j e : forall s,
  Forall (fun x => x = "" \/ rejected e x) pre ->
  secret <> "" -> accepted e secret j ->
  try_secrets (pre ++ secret :: post) e s =
  ({| self := with_sec (Some secret)
                (with_cache (<["5966783" := j]>
                               (track_url_response_cache (self s))) (self s));
      requests :=
        requests s
        ++ ((fun x => GetFileUrl (probe x))
              <$> (filter (fun x => x <> "") pre ++ [secret])) |},
   inr tt).
Proof.
  induction pre as [|x pre IH]; intros s Hpre Hne Hacc.
  - cbn [app try_secrets]. rewrite bool_decide_eq_false_2 by done.
    unfold bind. by rewrite (test_secret_accepted _ j).
  - apply Forall_cons in Hpre as [Hx Hpre]. cbn [app try_secrets].
    rewrite filter_cons. case_bool_decide as Hemp.
    + rewrite decide_False by (by intros Hn). by apply IH.
    + rewrite decide_True by done. destruct Hx as [->|Hx]; [done|].
      unfold bind. rewrite test_secret_rejected by done.
      rewrite IH by done. cbn [self requests fmap list_fmap app].
      by rewrite <- app_assoc.
Qed.

(** X18. [cfg_setup] settles on the first secret of the list that is not
    empty and that the provider takes: when the secrets before it are
    empty or answered with status 400, [sec] becomes that secret, whatever
    it was; one probe was made for each secret up to it that is not empty,
    none for an empty one and none for the secrets behind; and the cache
    is left holding the answer for the track of the probe, 5966783. *)
Theorem X18_first_secret_taken pre secret post j e s :
  secrets (self s) = pre ++ secret :: post ->
  Forall (fun x => x = "" \/ rejected e x) pre ->
  secret <> "" -> accepted e secret j ->
  cfg_setup e s =
  ({| self := with_sec (Some secret)
                (with_cache (<["5966783" := j]>
                               (track_url_response_cache (self s))) (self s));
      requests :=
        requests s
        ++ ((fun x => GetFileUrl (probe x))
              <$> (filter (fun x => x <> "") pre ++ [secret])) |},
   inr tt).
Proof.
  intros Hs Hpre Hne Hacc. unfold cfg_setup, bind, get_self. cbn beta iota.
  rewrite Hs, (try_secrets_first pre secret post j) by done. done.
Qed.

Lemma takes_s3_rejects x : x <> "s3" -> rejected takes_s3 x.
Proof.
  intros Hx. exists bad_secret_response. split; [|by split; [|eexists]].
  intros k. cbn. rewrite bool_decide_eq_false_2; [done|]. by intros [= ->].
Qed.

Lemma X18_first_secret_taken_witness :
  (secrets (self logged_in) = ["s1"; ""] ++ "s3" :: ["s4"]
   /\ Forall (fun x => x = "" \/ rejected takes_s3 x) ["s1"; ""]
   /\ "s3" <> "" /\ accepted takes_s3 "s3" flac_url)
  /\ sec (self (cfg_setup takes_s3 logged_in).1) = Some "s3"
  /\ requests (cfg_setup takes_s3 logged_in).1
     = [GetFileUrl (probe "s1"); GetFileUrl (probe "s3")].
Proof.
  assert (H1 : secrets (self logged_in) = ["s1"; ""] ++ "s3" :: ["s4"])
    by done.
  assert (H2 : Forall (fun x => x = "" \/ rejected takes_s3 x) ["s1"; ""]).
  { constructor; [right; by apply takes_s3_rejects|].
    constructor; [by left|constructor]. }
  assert (H3 : "s3" <> "") by done.
  assert (H4 : accepted takes_s3 "s3" flac_url).
  { exists ok_response. split; [by intros k|]. by repeat split. }
  split; [by repeat split|].
  rewrite (X18_first_secret_taken ["s1"; ""] "s3" ["s4"] flac_url takes_s3
             logged_in H1 H2 H3 H4).
  split; reflexivity.
Defined.

Lemma with_cache_same c c' :
  with_cache (track_url_response_cache c') c = c' ->
  track_url_response_cache c = track_url_response_cache c' -> c = c'.
Proof. intros <- H. destruct c. cbn in *. by rewrite H. Qed.

Lemma probes_of_mono l x new : probes_of l new -> probes_of (x :: l) new.
Proof.
  intros H. eapply Forall_impl; [exact H|].
  intros rq (secret & -> & Hin & Hne). exists secret.
  split; [done|]. split; [by apply elem_of_cons; right|done].
Qed.

Lemma probes_of_replicate l x k :
  x <> "" -> probes_of (x :: l) (replicate k (GetFileUrl (probe x))).
Proof.
  intros Hne. apply Forall_forall. intros rq [-> _]%elem_of_replicate.
  exists x. split; [done|]. split; [by apply elem_of_cons; left|done].
Qed.

Lemma try_secrets_spec l e : forall s,
  let r := try_secrets l e s in
  (exists new, requests r.1 = requests s ++ new /\ probes_of l new)
  /\ match r.2 with
     | inr _ =>
         self r.1 = self s
         \/ exists secret j,
              secret ∈ l /\ secret <> "" /\
              sec (self r.1) = Some secret /\
              secrets (self r.1) = secrets (self s) /\
              track_url_response_cache (self r.1) !! "5966783" = Some j
     | inl x => self r.1 = self s /\ x <> InvalidAppSecretError
     end.
Proof.
  induction l as [|x l IH]; intros s r; subst r.
  - cbn. split; [|by left]. exists []. rewrite app_nil_r.
    split; [done|constructor].
  - cbn [try_secrets]. case_bool_decide as Hemp.
    + destruct (IH s) as ((new & Hreq & Hnew) & Hres).
      split; [exists new; split; [done|by apply probes_of_mono]|].
      destruct (try_secrets l e s).2 as [y|[]]; [done|].
      destruct Hres as [Hres|(secret & j & Hin & Hres)]; [by left|].
      right. exists secret, j. split; [by apply elem_of_cons; right|done].
    + unfold bind.
      destruct (test_secret_spec x e s) as (Hself & (k & Hk & Hreq) & Hres).
      destruct (test_secret x e s) as [s1 [y|[|]]]; cbn [fst snd] in *.
      * (* the probe raised *)
        destruct Hres as [Hc Hy].
        split; [exists (replicate k (GetFileUrl (probe x)));
                split; [done|by apply probes_of_replicate]|].
        split; [by apply with_cache_same|done].
      * (* the secret is taken *)
        destruct Hres as [j Hj]. cbn.
        split; [exists (replicate k (GetFileUrl (probe x)));
                split; [done|by apply probes_of_replicate]|].
        right. exists x, j. split; [by apply elem_of_cons; left|].
        split; [done|]. split; [done|]. split.
        { by rewrite <- Hself. }
        rewrite Hj. by apply lookup_insert_eq.
      * (* it is not: on to the next *)
        assert (Hs1 : self s1 = self s) by (by apply with_cache_same).
        destruct (IH s1) as ((new & Hreq' & Hnew) & Hres').
        split.
        { exists (replicate k (GetFileUrl (probe x)) ++ new).
          rewrite Hreq', Hreq, <- app_assoc. split; [done|].
          apply Forall_app. split; [by apply probes_of_replicate|].
          by apply probes_of_mono. }
        rewrite Hs1 in Hres'.
        destruct (try_secrets l e s1).2 as [y|[]]; [done|].
        destruct Hres' as [Hres'|(secret & j & Hin & Hres')]; [by left|].
        right. exists secret, j.
        split; [by apply elem_of_cons; right|done].
Qed.

Lemma try_secrets_all_empty l e s :
  Forall (fun x => x = "") l -> try_secrets l e s = (s, inr tt).
Proof.
  induction 1 as [|x l -> Hl IH]; [done|by cbn].
Qed.

(** X19. Whatever the provider answers: when [cfg_setup], entered with no
    secret chosen, returns, [sec] is one of the given secrets and not
    empty, and the cache holds an answer for the track of the probe; when
    it raises, the client is as it was. Every request it makes probes a
    given secret that is not empty. With no secret, or only empty ones, it
    raises [InvalidAppSecretError] without any request. *)
Theorem X19_cfg_setup_guarantee e s :
  sec (self s) = None ->
  let r := cfg_setup e s in
  (exists new, requests r.1 = requests s ++ new
               /\ probes_of (secrets (self s)) new)
  /\ match r.2 with
     | inr _ =>
         exists secret j,
           secret ∈ secrets (self s) /\ secret <> "" /\
           sec (self r.1) = Some secret /\
           secrets (self r.1) = secrets (self s) /\
           track_url_response_cache (self r.1) !! "5966783" = Some j
     | inl x => self r.1 = self s
     end
  /\ (Forall (fun x => x = "") (secrets (self s)) ->
      r = (s, inl InvalidAppSecretError)).
Proof.
  intros Hsec r. subst r. unfold cfg_setup, bind, get_self. cbn beta iota.
  split; [|split].
  - destruct (try_secrets_spec (secrets (self s)) e s) as [Hreq _].
    destruct (try_secrets _ e s) as [s1 [x|[]]]; cbn [fst] in *; [done|].
    by destruct (sec (self s1)).
  - destruct (try_secrets_spec (secrets (self s)) e s) as [_ Hres].
    destruct (try_secrets _ e s) as [s1 [x|[]]]; cbn [fst snd] in *.
    + by destruct Hres.
    + destruct Hres as [Hres|(secret & j & Hin & Hne & Hs & Hres)].
      * by rewrite Hres, Hsec.
      * rewrite Hs. cbn. by exists secret, j.
  - intros Hall. rewrite try_secrets_all_empty by done. by rewrite Hsec.
Qed.

Lemma X19_cfg_setup_guarantee_witness :
  sec (self logged_in) = None
  /\ exists secret,
       secret ∈ secrets (self logged_in) /\ secret <> "" /\
       sec (self (cfg_setup takes_s3 logged_in).1) = Some secret.
Proof.
  split; [reflexivity|].
  destruct (X19_cfg_setup_guarantee takes_s3 logged_in eq_refl)
    as (_ & H & _).
  assert (Hr : (cfg_setup takes_s3 logged_in).2 = inr tt)
    by (vm_compute; reflexivity).
  rewrite Hr in H. destruct H as (secret & j & H1 & H2 & H3 & _).
  by exists secret.
Defined.

(** ** From the browser to the reporter *)

Lemma format_id_of_quality format f :
  format_id_of format = Some f -> f ∈ qualities.
Proof.
  destruct format; intros [= <-]; unfold qualities; set_solver.
Qed.

Lemma qobuz_link_retriever_eq id f e s :
  qobuz_link_retriever id f e s =
  match get_track_url id f None e s with
  | (s', inr j) => (s', inr (url j, mime_type j))
  | (s', inl x) => (s', inl x)
  end.
Proof. done. Qed.

(** X20. A track the browser hands out can be reported once its link was
    retrieved. Whatever format is configured, the link retriever of a
    track info built by [_track_to_track_info] never raises
    [InvalidQuality]; and when it has returned, the cache holds the answer
    under the very id the track info carries, an id that converts back to
    the integer of the JSON: an idle reporter that is told that this track
    plays does not raise and queues the start report, with the track id,
    format and duration of the answer. *)
Theorem X20_retrieved_track_can_be_reported
  format m track info e s s1 re r tr :
  format_id_of format = Some (format_id m) ->
  _track_to_track_info m track e s = (s, inr info) ->
  let l := link_retriever info e s1 in
  l.2 <> inl InvalidQuality
  /\ forall link,
       l.2 = inr link ->
       Reporter.qobuz_client re = reporter_client (self l.1) ->
       Reporter.current_track_id r = None ->
       track_id tr = ti_id info ->
       exists j,
         track_url_response_cache (self l.1) !! PyStr.str (j_id track)
         = Some j
         /\ link = (url j, mime_type j)
         /\ Reporter.deliver re r
              (StateChangedEvent
                 {| state := PLAYING; current_track := Some tr |})
            = (Reporter.with_clock (Reporter.monotonic_ns re 0)
                 (Reporter.with_put
                    (Reporter.StreamingStart (Reporter.qobuz_client re)
                       (Reporter.time_time re 0) (j_id track)
                       (for_report j))
                    (Reporter.with_current (Some (PyStr.str (j_id track)))
                       r)),
               inr tt).
Proof.
  intros Hf Hinfo l. subst l.
  assert (Hi : info = {| ti_id := mk_track_id (PyStr.str (j_id track));
                         link_track_id := j_id track;
                         link_format_id := format_id m;
                         metadata := metadata info |}).
  { unfold _track_to_track_info in Hinfo.
    destruct (PyStr.within_limit (j_id track)); [|done].
    destruct (metadata_from_track e track); [|done].
    by injection Hinfo as <-. }
  assert (Hlim : PyStr.within_limit (j_id track) = true).
  { unfold _track_to_track_info in Hinfo.
    by destruct (PyStr.within_limit (j_id track)). }
  apply format_id_of_quality in Hf.
  unfold link_retriever. rewrite qobuz_link_retriever_eq.
  destruct (get_track_url_spec (link_track_id info) (link_format_id info)
              None e s1) as (_ & k & _ & _ & Hres).
  destruct (get_track_url _ _ None e s1) as [s2 [x|j]]; cbn [fst snd] in *.
  - destruct Hres as (_ & Hq & _). split; [|done].
    intros [= ->]. rewrite Hi in Hq. cbn in Hq. by apply Hq.
  - split; [done|]. intros link [= <-] Hc Hcur Htr.
    destruct Hres as (_ & _ & Hcache & _).
    rewrite Hi in Hcache. cbn [link_track_id] in Hcache.
    exists j. split; [by rewrite Hcache, lookup_insert_eq|].
    split; [done|].
    rewrite (ReporterProofs.deliver_playing_new re r _
               (PyStr.str (j_id track))).
    + rewrite Hcur. unfold Reporter.start_report_result.
      rewrite int_str, Hc by done. unfold reporter_client.
      cbn [Reporter.track_url_response_cache].
      by rewrite lookup_fmap, Hcache, lookup_insert_eq.
    + exists tr. split; [done|]. rewrite Htr, Hi. done.
    + by rewrite Hcur.
Qed.

Lemma X20_retrieved_track_can_be_reported_witness :
  (format_id_of CD = Some (format_id cd_module)
   /\ _track_to_track_info cd_module track_123 takes_s3 set_up
      = (set_up, inr info_123))
  /\ (link_retriever info_123 takes_s3 set_up).2
     = inr ("https://streaming.example/file", "audio/flac")
  /\ (Reporter.deliver reporting_123 Reporter.init
        (ReporterExamples.playing "123")).2 = inr tt.
Proof.
  assert (H1 : format_id_of CD = Some (format_id cd_module)) by done.
  assert (H2 : _track_to_track_info cd_module track_123 takes_s3 set_up
               = (set_up, inr info_123)) by (vm_compute; reflexivity).
  assert (H3 : (link_retriever info_123 takes_s3 set_up).2
               = inr ("https://streaming.example/file", "audio/flac"))
    by (vm_compute; reflexivity).
  split; [by split|]. split; [exact H3|].
  destruct (X20_retrieved_track_can_be_reported CD cd_module track_123
              info_123 takes_s3 set_up set_up reporting_123 Reporter.init
              (ReporterExamples.qobuz_track "123") H1 H2) as [_ H].
  destruct (H _ H3 eq_refl eq_refl eq_refl) as (j & _ & _ & Hd).
  unfold ReporterExamples.playing. by rewrite Hd.
Defined.

(** ** The track browser *)

Lemma chunks_spec {A} k fuel : forall l : list A,
  (0 < k)%nat -> (length l <= fuel)%nat ->
  concat (chunks fuel k l) = l
  /\ Forall (fun c => (0 < length c <= k)%nat) (chunks fuel k l)
  /\ (length l <= k * length (chunks fuel k l) < length l + k)%nat.
Proof.
  induction fuel as [|fuel IH]; intros l Hk Hl.
  - destruct l; [|cbn in Hl; lia]. cbn. split; [done|]. split; [done|lia].
  - destruct l as [|x l]; [cbn; split; [done|]; split; [done|lia]|].
    cbn [chunks].
    destruct (IH (drop k (x :: l)) Hk) as (H1 & H2 & H3).
    { rewrite length_drop. cbn [length] in *. lia. }
    split; [cbn [concat]; by rewrite H1, take_drop|].
    split.
    + constructor; [|done]. rewrite length_take. cbn [length]. lia.
    + rewrite length_drop in H3. cbn [length] in *.
      rewrite Nat.mul_succ_r.
      destruct (le_lt_dec k (S (length l))) as [Hle|Hlt]; [lia|].
      replace (S (length l) - k)%nat with 0%nat in H3 by lia.
      destruct (length (chunks fuel k (drop k (x :: l)))); [lia|].
      rewrite Nat.mul_succ_r in H3. lia.
Qed.

Lemma chunks_Forall2 {A B} (R : A -> B -> Prop) k fuel : forall l l',
  Forall2 R l l' ->
  Forall2 (Forall2 R) (chunks fuel k l) (chunks fuel k l').
Proof.
  induction fuel as [|fuel IH]; intros l l' H; [constructor|].
  cbn [chunks]. destruct H as [|x y l l' Hxy H]; [constructor|].
  constructor.
  - apply Forall2_take. by constructor.
  - apply IH. apply Forall2_drop. by constructor.
Qed.

Lemma for_each_int_of chunk ids e s :
  Forall2 (fun x n => Py.int x = Some n) chunk ids ->
  for_each int_of chunk e s = (s, inr ids).
Proof.
  induction 1 as [|x n chunk ids Hx H IH]; [done|].
  cbn [for_each]. unfold bind at 1. unfold int_of at 1. rewrite Hx.
  cbn. unfold bind at 1. by rewrite IH.
Qed.

Lemma for_each_int_of_bad good bad rest ids e s :
  Forall2 (fun x n => Py.int x = Some n) good ids ->
  Py.int bad = None ->
  for_each int_of (good ++ bad :: rest) e s = (s, inl ValueError).
Proof.
  intros H Hbad. induction H as [|x n good ids Hx H IH].
  - cbn. unfold bind, int_of. by rewrite Hbad.
  - cbn [app for_each]. unfold bind at 1. unfold int_of at 1. rewrite Hx.
    cbn. unfold bind at 1. by rewrite IH.
Qed.

Lemma get_tracks_meta_served e answer ids s :
  serves e answer ->
  get_tracks_meta ids e s =
  ({| self := self s; requests := requests s ++ [PostGetList ids] |},
   inr (answer ids)).
Proof.
  intros Hs. destruct (Hs (length (requests s)) ids)
    as (r & Hr & H400 & Hraise & Hj).
  unfold get_tracks_meta, bind, post_get_list. cbn beta iota. rewrite Hr.
  rewrite bool_decide_eq_false_2 by done.
  unfold raise_for_status, r_json. by rewrite Hraise, Hj.
Qed.

Lemma gather_served e answer : forall cs ics all_tracks s,
  serves e answer ->
  Forall2 (Forall2 (fun x n => Py.int x = Some n)) cs ics ->
  gather cs all_tracks e s =
  ({| self := self s; requests := requests s ++ (PostGetList <$> ics) |},
   inr (all_tracks ++ concat (answer <$> ics))).
Proof.
  intros cs ics all_tracks s Hs H. revert all_tracks s.
  induction H as [|c ic cs ics Hc H IH]; intros all_tracks s.
  - cbn. rewrite !app_nil_r. by destruct s.
  - cbn [gather]. unfold bind at 1. rewrite (for_each_int_of c ic) by done.
    unfold bind at 1. rewrite (get_tracks_meta_served e answer) by done.
    rewrite IH. cbn [self requests fmap list_fmap concat].
    by rewrite <- !app_assoc.
Qed.

Lemma _track_to_track_info_eq m track e s :
  _track_to_track_info m track e s =
  (s, if PyStr.within_limit (j_id track) then
        match metadata_from_track e track with
        | Some md =>
            inr {| ti_id := mk_track_id (PyStr.str (j_id track));
                   link_track_id := j_id track;
                   link_format_id := format_id m;
                   metadata := md |}
        | None => inl MetadataError
        end
      else inl ValueError).
Proof.
  unfold _track_to_track_info.
  destruct (PyStr.within_limit (j_id track)); [|done].
  by destruct (metadata_from_track e track).
Qed.

Lemma for_each_info m e s : forall tracks,
  (for_each (_track_to_track_info m) tracks e s).1 = s
  /\ match (for_each (_track_to_track_info m) tracks e s).2 with
     | inr infos => Forall2 (info_of e m) tracks infos
     | inl x => exists t, t ∈ tracks /\ no_info e t x
     end.
Proof.
  induction tracks as [|t tracks IH]; [by split; [|constructor]|].
  cbn [for_each]. unfold bind at 1 3. rewrite _track_to_track_info_eq.
  destruct (PyStr.within_limit (j_id t)) eqn:Hlim.
  2: { cbn. split; [done|]. exists t. split; [by left|]. by left. }
  destruct (metadata_from_track e t) as [md|] eqn:Hmd.
  2: { cbn. split; [done|]. exists t. split; [by left|]. by right. }
  unfold bind at 1 2. destruct IH as [IH1 IH2].
  destruct (for_each (_track_to_track_info m) tracks e s) as [s' [x|infos]];
    cbn [fst snd] in *.
  - split; [done|]. destruct IH2 as (t' & Hin & Hno). exists t'.
    split; [by right|done].
  - split; [done|]. constructor; [by repeat split|done].
Qed.

Lemma for_each_info_returns m e s tracks :
  (forall t, t ∈ tracks ->
     PyStr.within_limit (j_id t) = true
     /\ is_Some (metadata_from_track e t)) ->
  is_Some (match (for_each (_track_to_track_info m) tracks e s).2 with
           | inr infos => Some infos
           | inl _ => None
           end).
Proof.
  intros H. destruct (for_each_info m e s tracks) as [_ Hres].
  destruct (for_each _ tracks e s).2 as [x|infos]; [|by eexists].
  destruct Hres as (t & Hin & Hno). destruct (H t Hin) as [Hlim [md Hmd]].
  destruct Hno as [[_ Hno]|[_ Hno]]; congruence.
Qed.

(** X21. [get_track_info] asks for every id exactly once, in order, in
    requests of at most 49 ids: when all ids convert and the provider
    answers, the requests made are the integers of the ids cut into
    pieces, none empty and none longer than 49, whose number [n] is the
    least with [len(track_ids) <= 49 * n], so none for the empty list.
    The client itself is not touched. What is returned has one track info
    for each track the provider sent, in the order sent, whatever was
    asked for; each carries [str] of the JSON id, the JSON id and the
    format id of the module for its link retriever. The call raises, after
    all the requests, when one of the tracks sent cannot be made a track
    info of ([metadata_from_track] raises, or its id has too many digits
    for [str]), and only then. *)
Theorem X21_requests_in_chunks_of_49 m e answer track_ids ids s :
  serves e answer ->
  Forall2 (fun x n => Py.int x = Some n) track_ids ids ->
  let r := get_track_info m track_ids e s in
  exists cs,
    requests r.1 = requests s ++ (PostGetList <$> cs)
    /\ self r.1 = self s
    /\ concat cs = ids
    /\ Forall (fun c => (0 < length c <= 49)%nat) cs
    /\ (length track_ids <= 49 * length cs < length track_ids + 49)%nat
    /\ match r.2 with
       | inr infos => Forall2 (info_of e m) (concat (answer <$> cs)) infos
       | inl x => exists t, t ∈ concat (answer <$> cs) /\ no_info e t x
       end
    /\ ((forall t, t ∈ concat (answer <$> cs) ->
           PyStr.within_limit (j_id t) = true
           /\ is_Some (metadata_from_track e t)) ->
        exists infos, r.2 = inr infos).
Proof.
  intros Hs Hids r. subst r. unfold get_track_info.
  pose proof (Forall2_length _ _ _ Hids) as Hlen.
  case_bool_decide as Hnil.
  - destruct track_ids; [|done]. destruct ids; [|done].
    exists []. cbn. rewrite app_nil_r.
    repeat (split; [done|]). split; [lia|]. split; [constructor|].
    intros _. by exists [].
  - cbn zeta. unfold bind.
    rewrite (gather_served e answer _
               (chunks (length track_ids) 49 ids)) by
      (done || by apply chunks_Forall2).
    cbn [app].
    set (s1 := {| self := self s;
                  requests := requests s
                    ++ (PostGetList <$> chunks (length track_ids) 49 ids) |}).
    set (tracks := concat (answer <$> chunks (length track_ids) 49 ids)).
    destruct (for_each_info m e s1 tracks) as [Hst Hres].
    pose proof (for_each_info_returns m e s1 tracks) as Hret.
    destruct (for_each (_track_to_track_info m) tracks e s1)
      as [s2 [x|infos]]; cbn [fst snd] in *; subst s2;
      destruct (chunks_spec 49 (length track_ids) ids) as (H1 & H2 & H3);
      try lia;
      exists (chunks (length track_ids) 49 ids);
      (split; [done|]); (split; [done|]); (split; [done|]);
      (split; [done|]); (split; [lia|]); (split; [done|]).
    + intros Hall. destruct (Hret Hall) as [? [=]].
    + intros _. by exists infos.
Qed.

Lemma takes_s3_serves : serves takes_s3 echo.
Proof. intros k ids. eexists. split; [done|]. by repeat split. Qed.

Lemma X21_requests_in_chunks_of_49_witness :
  (serves takes_s3 echo
   /\ Forall2 (fun x n => Py.int x = Some n) ["7"; "8"] [7; 8])
  /\ exists cs,
       requests (get_track_info cd_module ["7"; "8"] takes_s3 set_up).1
       = requests set_up ++ (PostGetList <$> cs)
       /\ concat cs = [7; 8].
Proof.
  assert (H2 : Forall2 (fun x n => Py.int x = Some n) ["7"; "8"] [7; 8])
    by (by repeat constructor).
  split; [split; [exact takes_s3_serves|done]|].
  destruct (X21_requests_in_chunks_of_49 cd_module takes_s3 echo
              ["7"; "8"] [7; 8] set_up takes_s3_serves H2)
    as (cs & Hr & _ & Hc & _).
  by exists cs.
Defined.

Lemma chunks_cons {A} fuel k (l : list A) :
  l <> [] ->
  chunks (S fuel) k l = take k l :: chunks fuel k (drop k l).
Proof. by destruct l. Qed.

Lemma gather_bad e answer fuel : forall good ids bad rest all_tracks s,
  serves e answer ->
  Forall2 (fun x n => Py.int x = Some n) good ids ->
  Py.int bad = None ->
  (length (good ++ bad :: rest) <= fuel)%nat ->
  exists cs,
    gather (chunks fuel 49 (good ++ bad :: rest)) all_tracks e s
    = ({| self := self s; requests := requests s ++ (PostGetList <$> cs) |},
       inl ValueError)
    /\ concat cs = take (49 * length cs) ids
    /\ Forall (fun c => length c = 49%nat) cs
    /\ (49 * length cs <= length good < 49 * length cs + 49)%nat.
Proof.
  induction fuel as [|fuel IH];
    intros good ids bad rest all_tracks s Hs Hg Hbad Hf.
  { rewrite length_app in Hf. cbn in Hf. lia. }
  pose proof (Forall2_length _ _ _ Hg) as Hlen.
  rewrite chunks_cons by (by destruct good). cbn [gather].
  destruct (le_lt_dec 49 (length good)) as [Hle|Hlt].
  - (* a whole chunk converts *)
    rewrite take_app_le, drop_app_le by done.
    destruct (IH (drop 49 good) (drop 49 ids) bad rest
                (all_tracks ++ answer (take 49 ids))
                {| self := self s;
                   requests := requests s ++ [PostGetList (take 49 ids)] |}
                Hs) as (cs & Hgather & Hc & Hall & Hn).
    { by apply Forall2_drop. }
    { done. }
    { rewrite length_app, length_drop. rewrite length_app in Hf.
      cbn [length] in *. lia. }
    exists (take 49 ids :: cs). unfold bind at 1.
    rewrite (for_each_int_of (take 49 good) (take 49 ids))
      by (by apply Forall2_take).
    unfold bind at 1. rewrite (get_tracks_meta_served e answer) by done.
    rewrite Hgather. cbn [self requests fmap list_fmap concat length].
    rewrite <- app_assoc. split; [done|].
    rewrite length_drop in Hn.
    split; [|split; [constructor; [rewrite length_take; lia|done]|lia]].
    rewrite Hc.
    replace (49 * S (length cs))%nat with (49 + 49 * length cs)%nat by lia.
    by rewrite take_take_drop.
  - (* the id that does not convert is in the first chunk *)
    exists []. unfold bind at 1.
    rewrite take_app_ge by lia.
    replace (49 - length good)%nat with (S (48 - length good)) by lia.
    cbn [take].
    rewrite (for_each_int_of_bad good bad _ ids) by done.
    cbn. rewrite app_nil_r. split; [by destruct s|]. split; [done|].
    split; [constructor|lia].
Qed.

(** X22. An id that does not convert makes [get_track_info] raise
    [ValueError], but only when its chunk is reached: the requests for
    the chunks of 49 in front of it have been made by then, one for each
    49 ids before the first bad one, and their answers are dropped. *)
Theorem X22_bad_id_raises_after_earlier_chunks
  m e answer good ids bad rest s :
  serves e answer ->
  Forall2 (fun x n => Py.int x = Some n) good ids ->
  Py.int bad = None ->
  let r := get_track_info m (good ++ bad :: rest) e s in
  r.2 = inl ValueError
  /\ self r.1 = self s
  /\ exists cs,
       requests r.1 = requests s ++ (PostGetList <$> cs)
       /\ concat cs = take (49 * length cs) ids
       /\ Forall (fun c => length c = 49%nat) cs
       /\ (49 * length cs <= length good < 49 * length cs + 49)%nat.
Proof.
  intros Hs Hg Hbad r. subst r. unfold get_track_info.
  rewrite bool_decide_eq_false_2.
  2: { rewrite length_app. cbn. lia. }
  cbn zeta. unfold bind.
  destruct (gather_bad e answer (length (good ++ bad :: rest)) good ids bad
              rest [] s Hs Hg Hbad ltac:(lia))
    as (cs & Hgather & Hc & Hall & Hn).
  rewrite Hgather. cbn [fst snd self requests].
  split; [done|]. split; [done|]. by exists cs.
Qed.

Lemma X22_bad_id_raises_after_earlier_chunks_witness :
  (serves takes_s3 echo
   /\ Forall2 (fun x n => Py.int x = Some n)
        (replicate 49 "7") (replicate 49 7)
   /\ Py.int "x" = None)
  /\ (get_track_info cd_module fifty_last_bad takes_s3 set_up).2
     = inl ValueError
  /\ length (requests
               (get_track_info cd_module fifty_last_bad takes_s3 set_up).1)
     = 1%nat.
Proof.
  assert (H1 : Forall2 (fun x n => Py.int x = Some n)
                 (replicate 49 "7") (replicate 49 7)).
  { apply Forall2_replicate. by vm_compute. }
  assert (H2 : Py.int "x" = None) by (by vm_compute).
  split; [split; [exact takes_s3_serves|by split]|].
  destruct (X22_bad_id_raises_after_earlier_chunks cd_module takes_s3 echo
              (replicate 49 "7") (replicate 49 7) "x" [] set_up
              takes_s3_serves H1 H2) as (Hr & _ & cs & Hreq & _ & _ & Hn).
  split; [exact Hr|].
  unfold fifty_last_bad. rewrite Hreq, length_app, length_fmap.
  rewrite length_replicate in Hn. cbn. lia.
Defined.

End QobuzProofs.
